(** * Appointment scheduling and automation core of the WhatsApp CRM backend

    A shallow embedding of [src/index.js]: the slot grid, the capacity
    check of the booking and reschedule handlers, the availability
    projection, the status and no-show transitions, the reminder scan,
    the delivery retry job, the archive job, the listings, the settings
    handlers, the manual send, the webhook and the creation of service
    combos, followed by the properties
    of the specification that were checked against them and by further
    properties read off the code. *)

From Stdlib Require Import ZArith List Lia Bool.
From stdpp Require Import base option list gmap strings pretty sorting.

Local Open Scope Z_scope.

(* ================================================================== *)
(** * Part I. The embedding                                            *)
(* ================================================================== *)

(** ** Numbers and instants

    Durations, minute counts and slot indices are integers.  An instant
    is the number of milliseconds since the epoch, the value of a
    JavaScript [Date]; ISO strings exchanged with the store are taken
    already parsed to that number. *)

Definition SLOT_SIZE_MINUTES : Z := 15.

(** [Math.floor (a / b)] and [Math.ceil (a / b)] on integers, [b > 0]. *)
Definition floorDiv (a b : Z) : Z := a / b.
Definition ceilDiv (a b : Z) : Z := - ((- a) / b).

Definition msPerMinute : Z := 60000.
Definition msPerHour : Z := 3600000.
Definition msPerDay : Z := 86400000.

Definition getUTCHours (t : Z) : Z := (t / msPerHour) mod 24.
Definition getUTCMinutes (t : Z) : Z := (t / msPerMinute) mod 60.

(** [date.getUTCHours() * 60 + date.getUTCMinutes()] *)
Definition utcMinutesOfDay (t : Z) : Z := getUTCHours t * 60 + getUTCMinutes t.

(** ** Slot grid *)

Definition minutesToSlotIndex (minutes : Z) : Z :=
  floorDiv minutes SLOT_SIZE_MINUTES.

(** [Array.from({ length: slotCount }, (_, i) => startSlot + i)]; a
    negative length yields the empty array. *)
Definition getSlotRange (startMinutes durationMinutes : Z) : list Z :=
  let startSlot := minutesToSlotIndex startMinutes in
  let slotCount := ceilDiv durationMinutes SLOT_SIZE_MINUTES in
  (fun i : nat => startSlot + Z.of_nat i) <$> seq 0 (Z.to_nat slotCount).

(** [slotLoad[slot] || 0] *)
Definition slotLoadAt (slotLoad : gmap Z Z) (slot : Z) : Z :=
  default 0 (slotLoad !! slot).

(** [slotLoad[slot] = (slotLoad[slot] || 0) + 1] *)
Definition bumpSlot (slotLoad : gmap Z Z) (slot : Z) : gmap Z Z :=
  <[slot := slotLoadAt slotLoad slot + 1]> slotLoad.

(** ** Rows of the store

    Field names are the column names of the source, prefixed by the
    table where two tables share a column name.  Identifiers are
    integers; text columns are strings; a nullable column is an
    [option]. *)

Record Settings := {
  reminder_24h : option bool;
  reminder_2h : option bool;
  no_show_grace_minutes : option Z;
  max_appointments_per_slot : option Z
}.

Record Business := {
  biz_id : Z;
  biz_timezone : option string;
  appointment_settings : option Settings
}.

Record Customer := {
  cust_id : Z;
  cust_business_id : Z;
  cust_phone : string;
  cust_name : option string
}.

Record Appointment := {
  appt_id : Z;
  appt_business_id : Z;
  appt_customer_id : Z;
  appointment_time : Z;
  slot_minutes : Z;
  duration_minutes : Z;
  appt_status : string;
  combo_id : option Z;
  appt_service : option string;
  archived_at : option Z
}.

Record AppointmentService := {
  as_appointment_id : Z;
  as_service_id : Z;
  as_duration_minutes : Z
}.

Record AutomationRule := {
  rule_id : Z;
  rule_business_id : Z;
  rule_type : string;
  offset_minutes : Z;
  message_template : string;
  rule_enabled : bool
}.

Record AutomationLog := {
  log_appointment_id : Z;
  log_rule_id : Z
}.

Record Message := {
  msg_id : Z;
  msg_customer_id : Z;
  msg_direction : string;
  msg_content : string;
  msg_status : string;
  msg_retry_count : Z;
  msg_error : option string;
  message_type : option string
}.

(** One call of the messaging gateway: destination, text and the status
    [sendWhatsAppMessage] returned for it. *)
Record Dispatch := {
  dsp_phone : string;
  dsp_text : string;
  dsp_status : string
}.

(** One firing of a reminder rule by the automation scan: the appointment,
    the rule and the status of its dispatch.  A ghost record of the scan,
    kept to count what was sent for a pair. *)
Record Firing := {
  fired_appointment : Z;
  fired_rule : Z;
  fired_status : string
}.

(** The persistent store shared by the handlers and the recurring jobs,
    together with the trace of gateway calls and of reminder firings made
    so far. *)
Record World := {
  businesses : list Business;
  customers : list Customer;
  appointments : list Appointment;
  appointment_services : list AppointmentService;
  automation_rules : list AutomationRule;
  automation_logs : list AutomationLog;
  messages : list Message;
  outbox : list Dispatch;
  reminders : list Firing
}.

Definition set_customers (f : list Customer → list Customer) (w : World) : World :=
  {| businesses := businesses w; customers := f (customers w);
     appointments := appointments w;
     appointment_services := appointment_services w;
     automation_rules := automation_rules w;
     automation_logs := automation_logs w;
     messages := messages w; outbox := outbox w; reminders := reminders w |}.

Definition set_appointments (f : list Appointment → list Appointment) (w : World) : World :=
  {| businesses := businesses w; customers := customers w;
     appointments := f (appointments w);
     appointment_services := appointment_services w;
     automation_rules := automation_rules w;
     automation_logs := automation_logs w;
     messages := messages w; outbox := outbox w; reminders := reminders w |}.

Definition set_appointment_services
    (f : list AppointmentService → list AppointmentService) (w : World) : World :=
  {| businesses := businesses w; customers := customers w;
     appointments := appointments w;
     appointment_services := f (appointment_services w);
     automation_rules := automation_rules w;
     automation_logs := automation_logs w;
     messages := messages w; outbox := outbox w; reminders := reminders w |}.

Definition set_automation_logs
    (f : list AutomationLog → list AutomationLog) (w : World) : World :=
  {| businesses := businesses w; customers := customers w;
     appointments := appointments w;
     appointment_services := appointment_services w;
     automation_rules := automation_rules w;
     automation_logs := f (automation_logs w);
     messages := messages w; outbox := outbox w; reminders := reminders w |}.

Definition set_messages (f : list Message → list Message) (w : World) : World :=
  {| businesses := businesses w; customers := customers w;
     appointments := appointments w;
     appointment_services := appointment_services w;
     automation_rules := automation_rules w;
     automation_logs := automation_logs w;
     messages := f (messages w); outbox := outbox w; reminders := reminders w |}.

Definition set_outbox (f : list Dispatch → list Dispatch) (w : World) : World :=
  {| businesses := businesses w; customers := customers w;
     appointments := appointments w;
     appointment_services := appointment_services w;
     automation_rules := automation_rules w;
     automation_logs := automation_logs w;
     messages := messages w; outbox := f (outbox w);
     reminders := reminders w |}.

Definition set_reminders (f : list Firing → list Firing) (w : World) : World :=
  {| businesses := businesses w; customers := customers w;
     appointments := appointments w;
     appointment_services := appointment_services w;
     automation_rules := automation_rules w;
     automation_logs := automation_logs w;
     messages := messages w; outbox := outbox w;
     reminders := f (reminders w) |}.

(** Column update helpers ([.update({ col: v })] on one row). *)
Definition with_status (s : string) (a : Appointment) : Appointment :=
  {| appt_id := appt_id a; appt_business_id := appt_business_id a;
     appt_customer_id := appt_customer_id a;
     appointment_time := appointment_time a; slot_minutes := slot_minutes a;
     duration_minutes := duration_minutes a; appt_status := s;
     combo_id := combo_id a; appt_service := appt_service a;
     archived_at := archived_at a |}.

Definition with_cust_name (n : string) (c : Customer) : Customer :=
  {| cust_id := cust_id c; cust_business_id := cust_business_id c;
     cust_phone := cust_phone c; cust_name := Some n |}.

(** ** Environment of one run

    What a handler or job reads from outside the store: the clock, the
    answer of the gateway to the n-th call made ([None] when the HTTP
    call throws, otherwise the optional status field of the response),
    Luxon's formatting of an instant in a zone, and the errors the store
    reports, keyed by the name the source gives the error variable of
    the call ([bizError], [fetchError], [insertError], ...; by table and
    operation where a handler has several plain [error]s).  The same
    answer is given to every call of that name during the run.  A store
    call whose result the source discards always takes effect. *)
Record Env := {
  now : Z;
  gateway : nat → string → string → option (option string);
  toFormat : string → string → Z → string;
  fault : string → option string
}.

(** ** Responses, and the control monad of a handler *)

Inductive Body :=
  | JError (error : string)
  | JAppointment (a : Appointment)
  | JAvailability (slotSize : Z) (slots : gmap Z bool)
  | JNothing.

Record Response := { code : Z; body : Body }.

Definition json (c : Z) (b : Body) : Response := {| code := c; body := b |}.
Definition errorJson (c : Z) (e : string) : Response := json c (JError e).

(** A computation either goes on with a value, ends the handler with a
    response ([return res.status(..).json(..)], or a bare [return] in a
    job), or throws. *)
Inductive Outcome (A : Type) :=
  | Next (a : A) (w : World)
  | Return (r : Response) (w : World)
  | Throw (e : string) (w : World).
Arguments Next {A} a w.
Arguments Return {A} r w.
Arguments Throw {A} e w.

Definition M (A : Type) : Type := World → Outcome A.

Definition ret {A} (a : A) : M A := fun w => Next a w.
Definition bind {A B} (m : M A) (k : A → M B) : M B :=
  fun w => match m w with
           | Next a w' => k a w'
           | Return r w' => Return r w'
           | Throw e w' => Throw e w'
           end.
Definition respond {A} (r : Response) : M A := fun w => Return r w.
Definition throw {A} (e : string) : M A := fun w => Throw e w.
Definition getWorld : M World := fun w => Next w w.
Definition modify (f : World → World) : M unit := fun w => Next tt (f w).

(** [try { body } catch (err) { handler(err.message) }] *)
Definition tryCatch {A} (body : M A) (handler : string → M A) : M A :=
  fun w => match body w with
           | Throw e w' => handler e w'
           | o => o
           end.

Notation "'let!' x ':=' c1 'in' c2" := (bind c1 (fun x => c2))
  (at level 10, x name, c1 at level 100, c2 at level 200,
   format "'[v' 'let!'  x  ':='  c1  'in' '/' c2 ']'").
Notation "'do!' c1 'in' c2" := (bind c1 (fun _ => c2))
  (at level 10, c1 at level 100, c2 at level 200,
   format "'[v' 'do!'  c1  'in' '/' c2 ']'").

(** [for (const x of xs) { body(x) }] *)
Fixpoint forEach {A} (xs : list A) (body : A → M unit) : M unit :=
  match xs with
  | [] => ret tt
  | x :: rest => do! body x in forEach rest body
  end.

(** What the caller of a handler observes: the response sent and the
    world left behind.  A handler that ends without responding, or a job,
    yields [JNothing] with code 0. *)
Definition noResponse : Response := json 0 JNothing.

Definition run {A} (m : M A) (w : World) : Response * World :=
  match m w with
  | Next _ w' => (noResponse, w')
  | Return r w' => (r, w')
  | Throw _ w' => (noResponse, w')
  end.

(** ** Store queries *)

(** [.single()] and [.maybeSingle()]: the row when exactly one matches;
    [data] is null otherwise. *)
Definition single {A} (rows : list A) : option A :=
  match rows with
  | [x] => Some x
  | _ => None
  end.

(** The message PostgREST reports when [.single()] does not find exactly
    one row. *)
Definition noSingleRow : string := "JSON object requested, multiple (or no) rows returned".

(** Identifier the store gives a new row. *)
Definition freshId (ids : list Z) : Z := 1 + foldr Z.max 0 ids.

(** ** Slot load *)

(** [buildSlotLoadMap]: every appointment bumps each slot of its range. *)
Definition buildSlotLoadMap (appointments : list Appointment) : gmap Z Z :=
  fold_left
    (fun slotLoad appt =>
       let startMinutes := utcMinutesOfDay (appointment_time appt) in
       let slots := getSlotRange startMinutes (duration_minutes appt) in
       fold_left bumpSlot slots slotLoad)
    appointments ∅.

(** The capacity loop of the booking and reschedule handlers:
    [for (let i = 0; i < requiredSlots; i++)], answering [false] where
    the source returns the 409 response. *)
Fixpoint capacityLoop (slotLoad : gmap Z Z) (maxPerSlot startSlotIndex : Z)
    (i : Z) (remaining : nat) : bool :=
  match remaining with
  | O => true
  | S remaining' =>
      let slotIndex := startSlotIndex + i in
      let load := slotLoadAt slotLoad slotIndex in
      if decide (maxPerSlot ≤ load) then false
      else capacityLoop slotLoad maxPerSlot startSlotIndex (i + 1) remaining'
  end.

Definition capacityCheck (slotLoad : gmap Z Z)
    (slot_minutes totalDurationMinutes maxPerSlot : Z) : bool :=
  let startSlotIndex := floorDiv slot_minutes SLOT_SIZE_MINUTES in
  let requiredSlots := ceilDiv totalDurationMinutes SLOT_SIZE_MINUTES in
  capacityLoop slotLoad maxPerSlot startSlotIndex 0 (Z.to_nat requiredSlots).

(** ** Availability (GET /appointments/availability) *)

(** [requiredSlots.every(slot => (slotLoad[slot] || 0) < maxPerSlot)] *)
Definition isAvailable (slotLoad : gmap Z Z) (maxPerSlot : Z)
    (requiredSlots : list Z) : bool :=
  forallb (fun slot => bool_decide (slotLoadAt slotLoad slot < maxPerSlot))
          requiredSlots.

(** The loop over candidate starts,
    [for (startMinutes = 0; startMinutes + durationMinutes <= 24 * 60;
          startMinutes += SLOT_SIZE_MINUTES)], with a bound on the number
    of rounds. *)
Fixpoint availabilityLoop (rounds : nat) (slotLoad : gmap Z Z)
    (durationMinutes maxPerSlot startMinutes : Z)
    (availability : gmap Z bool) : gmap Z bool :=
  match rounds with
  | O => availability
  | S rounds' =>
      if decide (startMinutes + durationMinutes ≤ 24 * 60) then
        let requiredSlots := getSlotRange startMinutes durationMinutes in
        availabilityLoop rounds' slotLoad durationMinutes maxPerSlot
          (startMinutes + SLOT_SIZE_MINUTES)
          (<[startMinutes := isAvailable slotLoad maxPerSlot requiredSlots]>
             availability)
      else availability
  end.

(** A day has 96 slots; a positive duration leaves at most 96 candidate
    starts, so 97 rounds always reach the exit test of the loop. *)
Definition availabilityRounds : nat := 97.

Definition dailyAvailability (slotLoad : gmap Z Z)
    (durationMinutes maxPerSlot : Z) : gmap Z bool :=
  availabilityLoop availabilityRounds slotLoad durationMinutes maxPerSlot 0 ∅.

(** ** Store queries of the scheduling handlers *)

(** The day bounds [slice(0, 10) + 'T00:00:00Z'] and [.. + 'T23:59:59Z']
    of a timestamp written in UTC.  The upper bound is the start of the
    last second of the day. *)
Definition dayStartOf (t : Z) : Z := (t / msPerDay) * msPerDay.
Definition dayEndOf (t : Z) : Z := dayStartOf t + (msPerDay - 1000).

(** Scheduled appointments of a business between two instants, leaving
    out one appointment when [exclude] is given ([.neq('id', ..)]). *)
Definition scheduledBetween (businessId from to : Z) (exclude : option Z)
    (rows : list Appointment) : list Appointment :=
  filter (fun a => appt_business_id a = businessId
                   ∧ appt_status a = "scheduled"
                   ∧ from ≤ appointment_time a ∧ appointment_time a ≤ to
                   ∧ Some (appt_id a) ≠ exclude) rows.

Definition scheduledOnDay (businessId t : Z) (exclude : option Z)
    (rows : list Appointment) : list Appointment :=
  scheduledBetween businessId (dayStartOf t) (dayEndOf t) exclude rows.

Definition selectBusiness (businessId : Z) (w : World) : option Business :=
  single (filter (fun b => biz_id b = businessId) (businesses w)).

(** [business?.appointment_settings?.max_appointments_per_slot ?? 1] *)
Definition maxPerSlotOf (business : option Business) : Z :=
  match business with
  | Some b =>
      match appointment_settings b with
      | Some settings => default 1 (max_appointments_per_slot settings)
      | None => 1
      end
  | None => 1
  end.

(** [business.timezone || 'UTC'] *)
Definition timezoneOf (business : Business) : string :=
  match biz_timezone business with
  | Some tz => if decide (tz = "") then "UTC" else tz
  | None => "UTC"
  end.

(** ** Messaging *)

(** The status [sendWhatsAppMessage] reports for the n-th call of the
    gateway: ["failed"] when the HTTP call throws, otherwise
    [response.data?.status || 'submitted']. *)
Definition deliveryStatus (env : Env) (n : nat) (phone text : string) : string :=
  match gateway env n phone text with
  | None => "failed"
  | Some None => "submitted"
  | Some (Some s) => if decide (s = "") then "submitted" else s
  end.

(** [sendWhatsAppMessage]: never throws. *)
Definition sendWhatsAppMessage (env : Env) (phone text : string) : M string :=
  fun w =>
    let status := deliveryStatus env (length (outbox w)) phone text in
    Next status
      (set_outbox (fun o => o ++ [{| dsp_phone := phone; dsp_text := text;
                                     dsp_status := status |}]) w).

(** [sendAndLogSystemMessage]: log the message as sent, then send it.  A
    failed insert is only printed. *)
Definition sendAndLogSystemMessage (env : Env) (customerId : Z)
    (phone content : string) : M unit :=
  let! w := getWorld in
  do! match fault env "messages.insert" with
      | Some _ => ret tt
      | None =>
          modify (set_messages (fun l => l ++
            [{| msg_id := freshId (msg_id <$> messages w);
                msg_customer_id := customerId;
                msg_direction := "out";
                msg_content := content;
                msg_status := "sent";
                msg_retry_count := 0;
                msg_error := None;
                message_type := Some "system" |}]))
      end in
  do! sendWhatsAppMessage env phone content in
  ret tt.

(** [formatAppointmentTime] *)
Definition formatAppointmentTime (env : Env) (utc : Z) (timezone : string) : string :=
  toFormat env "dd LLL, hh:mm a" timezone utc.

Definition newline : string := String (Ascii.ascii_of_nat 10) EmptyString.

(** ** Booking (POST /appointments) *)

Record ServiceItem := {
  service_id : Z;
  item_duration_minutes : Z
}.

(** The request body.  An absent or empty [phone] or [name] is the empty
    string; [req_services] is [None] when the field is not an array;
    [req_appointment_utc_time] is the instant the UTC timestamp denotes,
    [None] when the field is absent. *)
Record BookingRequest := {
  req_phone : string;
  req_name : string;
  req_services : option (list ServiceItem);
  req_appointment_utc_time : option Z;
  req_combo_id : option Z
}.

(** [services.reduce((sum, s) => sum + Number(s.duration_minutes || 0), 0)] *)
Definition totalDuration (services : list ServiceItem) : Z :=
  fold_left (fun sum s => sum + item_duration_minutes s) services 0.

(** Step 1: find the customer of (business, phone) or create it; a
    missing name is backfilled, a present one is left alone. *)
Definition findOrCreateCustomer (env : Env) (businessId : Z)
    (phone name : string) : M Customer :=
  let! w := getWorld in
  match single (filter (fun c => cust_business_id c = businessId
                                 ∧ cust_phone c = phone) (customers w)) with
  | None =>
      match fault env "customers.insert" with
      | Some e => respond (errorJson 500 e)
      | None =>
          let created :=
            {| cust_id := freshId (cust_id <$> customers w);
               cust_business_id := businessId;
               cust_phone := phone;
               cust_name := if decide (name = "") then None else Some name |} in
          do! modify (set_customers (fun l => l ++ [created])) in
          ret created
      end
  | Some customer =>
      if decide ((cust_name customer = None ∨ cust_name customer = Some "")
                 ∧ name ≠ "") then
        do! modify (set_customers (fmap (fun c =>
              if decide (cust_id c = cust_id customer)
              then with_cust_name name c else c))) in
        ret customer
      else ret customer
  end.

Definition confirmationText (count : nat) (formattedTime : string) : string :=
  "✅ Your appointment is confirmed." +:+ newline +:+ newline +:+
  "🛎 Services: " +:+ pretty count +:+ " service(s)" +:+ newline +:+
  "📅 Date & Time: " +:+ formattedTime +:+ newline +:+ newline +:+
  "Reply here if you need to reschedule.".

(** Steps 5 and following: insert the appointment, then its line items;
    when the line items fail, delete the appointment again. *)
Definition persistAppointment (env : Env) (businessId : Z) (customer : Customer)
    (services : list ServiceItem) (appointment_utc_time slot_minutes
     totalDurationMinutes : Z) (combo : option Z) : M Appointment :=
  let! w := getWorld in
  match fault env "insertError" with
  | Some e => respond (errorJson 500 e)
  | None =>
      let appointment :=
        {| appt_id := freshId (appt_id <$> appointments w);
           appt_business_id := businessId;
           appt_customer_id := cust_id customer;
           appointment_time := appointment_utc_time;
           slot_minutes := slot_minutes;
           duration_minutes := totalDurationMinutes;
           appt_status := "scheduled";
           combo_id := combo;
           appt_service := None;
           archived_at := None |} in
      do! modify (set_appointments (fun l => l ++ [appointment])) in
      let appointmentServices :=
        (fun s => {| as_appointment_id := appt_id appointment;
                     as_service_id := service_id s;
                     as_duration_minutes := item_duration_minutes s |})
          <$> services in
      match fault env "serviceError" with
      | Some e =>
          (* rollback appointment *)
          do! modify (set_appointments
                (filter (fun a => appt_id a ≠ appt_id appointment))) in
          respond (errorJson 500 e)
      | None =>
          do! modify (set_appointment_services
                (fun l => l ++ appointmentServices)) in
          ret appointment
      end
  end.

Definition createAppointment (env : Env) (businessId : Z)
    (req : BookingRequest) : M unit :=
  tryCatch
    (match req_services req, req_appointment_utc_time req with
     | Some services, Some appointment_utc_time =>
         if decide (req_phone req = "" ∨ services = []) then
           respond (errorJson 400 "Invalid appointment payload")
         else
         let totalDurationMinutes := totalDuration services in
         if decide (totalDurationMinutes ≤ 0) then
           respond (errorJson 400 "Invalid service durations")
         else
         (* 1. find or create customer *)
         let! customer :=
           findOrCreateCustomer env businessId (req_phone req) (req_name req) in
         (* 2. slot minutes (UTC) *)
         let slot_minutes := utcMinutesOfDay appointment_utc_time in
         (* 3. business appointment settings *)
         let! w := getWorld in
         match fault env "bizError", selectBusiness businessId w with
         | Some e, _ => respond (errorJson 500 e)
         | None, None => respond (errorJson 500 noSingleRow)
         | None, Some business =>
             let maxPerSlot := maxPerSlotOf (Some business) in
             (* 4. enforce slot capacity *)
             match fault env "fetchError" with
             | Some e => respond (errorJson 500 e)
             | None =>
                 let existingAppointments :=
                   scheduledOnDay businessId appointment_utc_time None
                     (appointments w) in
                 let slotLoad := buildSlotLoadMap existingAppointments in
                 if capacityCheck slotLoad slot_minutes totalDurationMinutes
                      maxPerSlot
                 then
                   (* 5. create appointment *)
                   let! appointment :=
                     persistAppointment env businessId customer services
                       appointment_utc_time slot_minutes totalDurationMinutes
                       (req_combo_id req) in
                   let formattedTime :=
                     formatAppointmentTime env (appointment_time appointment)
                       (timezoneOf business) in
                   let message :=
                     confirmationText (length services) formattedTime in
                   do! sendAndLogSystemMessage env (cust_id customer)
                         (cust_phone customer) message in
                   respond (json 200 (JAppointment appointment))
                 else
                   respond (errorJson 409 "Selected time slot is fully booked")
             end
         end
     | _, _ => respond (errorJson 400 "Invalid appointment payload")
     end)
    (fun _ => respond (errorJson 500 "Internal server error")).

(** ** Availability handler (GET /appointments/availability) *)

(** [duration_minutes] is the number the query string parses to ([None]
    for an absent or non-numeric value), [date] the UTC midnight of the
    requested day. *)
Definition getAvailability (env : Env) (businessId : Z) (date : option Z)
    (excludeAppointmentId : option Z) (duration_minutes : option Z) : M unit :=
  match duration_minutes with
  | None => respond (errorJson 400 "duration_minutes is required")
  | Some durationMinutes =>
      if decide (durationMinutes ≤ 0) then
        respond (errorJson 400 "duration_minutes is required")
      else
      match date with
      | None => respond (errorJson 400 "date is required (YYYY-MM-DD)")
      | Some day =>
          let! w := getWorld in
          match fault env "error" with
          | Some e => respond (errorJson 500 e)
          | None =>
              let appointments :=
                scheduledOnDay businessId day excludeAppointmentId
                  (appointments w) in
              let maxPerSlot := maxPerSlotOf (selectBusiness businessId w) in
              let slotLoad := buildSlotLoadMap appointments in
              respond (json 200 (JAvailability SLOT_SIZE_MINUTES
                         (dailyAvailability slotLoad durationMinutes maxPerSlot)))
          end
      end
  end.

(** ** Reschedule (PATCH /appointments/:id/reschedule-slot) *)

Definition rescheduleText (formattedTime : string) : string :=
  "🔁 Your appointment has been rescheduled." +:+ newline +:+ newline +:+
  "📅 New time: " +:+ formattedTime +:+ newline +:+ newline +:+
  "Reply here if you need help.".

(** [.update({ appointment_time, slot_minutes, duration_minutes,
    status: 'scheduled' })] on one row. *)
Definition rescheduled (appointment_utc_time slot_minutes
    totalDurationMinutes : Z) (a : Appointment) : Appointment :=
  {| appt_id := appt_id a; appt_business_id := appt_business_id a;
     appt_customer_id := appt_customer_id a;
     appointment_time := appointment_utc_time;
     slot_minutes := slot_minutes;
     duration_minutes := totalDurationMinutes;
     appt_status := "scheduled";
     combo_id := combo_id a; appt_service := appt_service a;
     archived_at := archived_at a |}.

Definition typeError : string := "Cannot read properties of null".

Definition rescheduleSlot (env : Env) (businessId appointmentId : Z)
    (appointment_utc_time : option Z) : M unit :=
  tryCatch
    (match appointment_utc_time with
     | None => respond (errorJson 400 "appointment_utc_time is required")
     | Some appointment_utc_time =>
         let! w := getWorld in
         (* 1. verify appointment belongs to business *)
         match fault env "apptError",
               single (filter (fun a => appt_id a = appointmentId
                                        ∧ appt_business_id a = businessId)
                              (appointments w)) with
         | Some _, _ | None, None =>
             respond (errorJson 404 "Appointment not found")
         | None, Some appointment =>
             (* 2. load appointment services, compute duration *)
             let services :=
               filter (fun s => as_appointment_id s = appointmentId)
                      (appointment_services w) in
             if decide (is_Some (fault env "svcError") ∨ services = []) then
               respond (errorJson 400
                          "Appointment services missing. Cannot reschedule.")
             else
             let totalDurationMinutes :=
               fold_left (fun sum s => sum + as_duration_minutes s) services 0 in
             (* 3. slot minutes (UTC) *)
             let slot_minutes := utcMinutesOfDay appointment_utc_time in
             (* 4. business slot capacity *)
             let biz := selectBusiness businessId w in
             let maxPerSlot := maxPerSlotOf biz in
             (* 5. duration-aware capacity check *)
             match fault env "fetchError" with
             | Some e => respond (errorJson 500 e)
             | None =>
                 let existingAppointments :=
                   scheduledOnDay businessId appointment_utc_time
                     (Some appointmentId) (appointments w) in
                 let slotLoad := buildSlotLoadMap existingAppointments in
                 if capacityCheck slotLoad slot_minutes totalDurationMinutes
                      maxPerSlot
                 then
                   (* 6. update appointment (time + duration) *)
                   match fault env "updateError" with
                   | Some e => respond (errorJson 500 e)
                   | None =>
                       do! modify (set_appointments (fmap (fun a =>
                             if decide (appt_id a = appointmentId)
                             then rescheduled appointment_utc_time slot_minutes
                                    totalDurationMinutes a
                             else a))) in
                       let! w1 := getWorld in
                       match single (filter (fun a => appt_id a = appointmentId)
                                            (appointments w1)) with
                       | None => respond (errorJson 500 noSingleRow)
                       | Some updated =>
                           (* 7. notify customer *)
                           match biz with
                           | None => throw typeError
                           | Some biz =>
                               let formattedTime :=
                                 formatAppointmentTime env
                                   (appointment_time updated) (timezoneOf biz) in
                               let message := rescheduleText formattedTime in
                               match single (filter (fun c => cust_id c
                                                       = appt_customer_id updated)
                                                    (customers w1)) with
                               | None => throw typeError
                               | Some customer =>
                                   do! sendAndLogSystemMessage env
                                         (appt_customer_id updated)
                                         (cust_phone customer) message in
                                   (* 8. clear automation logs *)
                                   do! modify (set_automation_logs
                                         (filter (fun l => log_appointment_id l
                                                           ≠ appointmentId))) in
                                   respond (json 200 (JAppointment updated))
                               end
                           end
                       end
                   end
                 else
                   respond (errorJson 409 "Selected time slot is fully booked")
             end
         end
     end)
    (fun _ => respond (errorJson 500 "Internal server error")).

(** ** Explicit status update (PATCH /appointments/:id/status) *)

Definition allowedStatuses : list string := ["completed"; "no_show"; "cancelled"].

(** [status] is the value of the body's field; a body without a string
    there behaves as a string outside the list. *)
Definition updateStatus (env : Env) (businessId id : Z) (status : string) : M unit :=
  if decide (status ∈ allowedStatuses) then
    tryCatch
      (let! w := getWorld in
       (* ensure appointment belongs to this business *)
       match fault env "fetchError",
             single (filter (fun a => appt_id a = id
                                      ∧ appt_business_id a = businessId)
                            (appointments w)) with
       | Some _, _ | None, None =>
           respond (errorJson 404 "Appointment not found")
       | None, Some appointment =>
           (* update status explicitly *)
           match fault env "error" with
           | Some e => respond (errorJson 500 e)
           | None =>
               do! modify (set_appointments (fmap (fun a =>
                     if decide (appt_id a = id) then with_status status a
                     else a))) in
               let! w1 := getWorld in
               match single (filter (fun a => appt_id a = id)
                                    (appointments w1)) with
               | None => respond (errorJson 500 noSingleRow)
               | Some data => respond (json 200 (JAppointment data))
               end
           end
       end)
      (fun e => respond (errorJson 500 e))
  else respond (errorJson 400 "Invalid status").

(** ** Automatic no-show (every minute) *)

(** [business.appointment_settings?.no_show_grace_minutes ?? 30] *)
Definition graceMinutesOf (business : Business) : Z :=
  match appointment_settings business with
  | Some settings => default 30 (no_show_grace_minutes settings)
  | None => 30
  end.

(** The filter of step 3: [now > apptTime.plus({ minutes: graceMinutes })] *)
Definition overdue (now graceMinutes : Z) (appt : Appointment) : Prop :=
  appointment_time appt + graceMinutes * msPerMinute < now.

#[global] Instance overdue_dec now graceMinutes appt :
  Decision (overdue now graceMinutes appt).
Proof. unfold overdue. apply _. Defined.

(** The body of the loop over businesses (steps 2 to 4). *)
Definition markOverdue (env : Env) (now : Z) (business : Business) : M unit :=
  let graceMinutes := graceMinutesOf business in
  (* 2. scheduled appointments of this business *)
  let! w := getWorld in
  let appointments :=
    filter (fun a => appt_business_id a = biz_id business
                     ∧ appt_status a = "scheduled") (appointments w) in
  if decide (is_Some (fault env "apptError") ∨ appointments = []) then ret tt
  else
  (* 3. overdue appointments *)
  let overdueIds :=
    appt_id <$> filter (overdue now graceMinutes) appointments in
  if decide (overdueIds = []) then ret tt
  else
  (* 4. mark them as no-show *)
  match fault env "updateError" with
  | Some _ => ret tt
  | None =>
      modify (set_appointments (fmap (fun a =>
        if decide (appt_id a ∈ overdueIds) then with_status "no_show" a
        else a)))
  end.

Definition autoMarkNoShows (env : Env) : M unit :=
  tryCatch
    (let now := now env in
     (* 1. businesses with their no-show grace settings *)
     let! w := getWorld in
     if decide (is_Some (fault env "bizError") ∨ businesses w = []) then
       respond noResponse
     else forEach (businesses w) (markOverdue env now))
    (fun _ => ret tt).

(** ** Reminder rules (every minute) *)

(** [s.replace(pattern, replacement)] with a string pattern: the first
    occurrence only. *)
Definition replaceFirst (pattern replacement s : string) : string :=
  match String.index 0 pattern s with
  | Some i =>
      String.substring 0 i s +:+ replacement +:+
      String.substring (i + String.length pattern)
        (String.length s - (i + String.length pattern)) s
  | None => s
  end.

(** [appt.service || 'your service'] *)
Definition serviceOrDefault (appt : Appointment) : string :=
  match appt_service appt with
  | Some s => if decide (s = "") then "your service" else s
  | None => "your service"
  end.

(** The body of the innermost loop: one rule on one matching
    appointment. *)
Definition fireRule (env : Env) (business : Business) (rule : AutomationRule)
    (appt : Appointment) : M unit :=
  let! w := getWorld in
  (* check if this rule already fired *)
  match single (filter (fun l => log_appointment_id l = appt_id appt
                                 ∧ log_rule_id l = rule_id rule)
                       (automation_logs w)) with
  | Some alreadySent => ret tt
  | None =>
      let localTime :=
        toFormat env "yyyy-MM-dd hh:mm a" (timezoneOf business)
          (appointment_time appt) in
      let message :=
        replaceFirst "{{appointment_time}}" localTime
          (replaceFirst "{{service}}" (serviceOrDefault appt)
             (message_template rule)) in
      match single (filter (fun c => cust_id c = appt_customer_id appt)
                           (customers w)) with
      | None => throw typeError
      | Some customer =>
          let! status := sendWhatsAppMessage env (cust_phone customer) message in
          do! modify (set_reminders (fun l => l ++
                [{| fired_appointment := appt_id appt;
                    fired_rule := rule_id rule;
                    fired_status := status |}])) in
          if decide (status = "submitted") then
            modify (set_automation_logs (fun l => l ++
              [{| log_appointment_id := appt_id appt;
                  log_rule_id := rule_id rule |}]))
          else ret tt
      end
  end.

(** The body of the loop over the rules of a business: the appointments
    starting in the one-minute window that ends [offset_minutes] from
    now. *)
Definition scanRule (env : Env) (now : Z) (business : Business)
    (rule : AutomationRule) : M unit :=
  let from := now + (offset_minutes rule - 1) * msPerMinute in
  let to := now + offset_minutes rule * msPerMinute in
  let! w := getWorld in
  let appointments :=
    scheduledBetween (biz_id business) from to None (appointments w) in
  if decide (appointments = []) then ret tt
  else forEach appointments (fireRule env business rule).

(** The body of the loop over businesses.  The clock is read once for
    the run (the source reads it once per business). *)
Definition scanBusiness (env : Env) (business : Business) : M unit :=
  let! w := getWorld in
  let rules :=
    filter (fun r => rule_business_id r = biz_id business
                     ∧ rule_enabled r = true) (automation_rules w) in
  if decide (rules = []) then ret tt
  else
  let now := now env in
  forEach rules (scanRule env now business).

(** One run of the cron callback. *)
Definition automationScan (env : Env) : M unit :=
  tryCatch
    (let! w := getWorld in
     if decide (businesses w = []) then respond noResponse
     else forEach (businesses w) (scanBusiness env))
    (fun _ => ret tt).

(** ** Delivery retry (every five minutes) *)

Definition with_delivery (status : string) (retries : Z) (error : option string)
    (m : Message) : Message :=
  {| msg_id := msg_id m; msg_customer_id := msg_customer_id m;
     msg_direction := msg_direction m; msg_content := msg_content m;
     msg_status := status; msg_retry_count := retries; msg_error := error;
     message_type := message_type m |}.

(** [.update(f).eq('id', id)] on the messages table. *)
Definition updateMessage (id : Z) (f : Message → Message) : M unit :=
  modify (set_messages (fmap (fun m =>
    if decide (msg_id m = id) then f m else m))).

(** The body of the retry loop.  The source calls a helper
    [getCustomerPhone] that no file of the repository defines; it is a
    parameter here: given a customer id it yields the customer row or
    throws. *)
Definition retryMessage (env : Env) (getCustomerPhone : Z → M Customer)
    (msg : Message) : M unit :=
  tryCatch
    (do! updateMessage (msg_id msg)
           (fun m => with_delivery "retrying" (msg_retry_count m) (msg_error m) m) in
     let! customer := getCustomerPhone (msg_customer_id msg) in
     do! sendWhatsAppMessage env (cust_phone customer) (msg_content msg) in
     updateMessage (msg_id msg)
       (fun m => with_delivery "sent" (msg_retry_count m) (msg_error m) m))
    (fun err =>
       updateMessage (msg_id msg)
         (fun m => with_delivery "failed" (msg_retry_count msg + 1) (Some err) m)).

(** The rows one run picks: [.eq('status', 'failed').lt('retry_count', 3)
    .limit(10)]. *)
Definition retryBatch (rows : list Message) : list Message :=
  take 10 (filter (fun m => msg_status m = "failed" ∧ msg_retry_count m < 3)
                  rows).

Definition retryFailedMessages (env : Env)
    (getCustomerPhone : Z → M Customer) : M unit :=
  let! w := getWorld in
  let messages := retryBatch (messages w) in
  forEach messages (retryMessage env getCustomerPhone).

(** Modelled from the spec: the source calls [getCustomerPhone] but no
    file of the repository defines it, and the spec says no more than
    that the job attempts the resend.  This instance is what the name and
    the use suggest: the customer row of that id, a thrown error when
    there is none. *)
Definition lookupCustomer (id : Z) : M Customer :=
  let! w := getWorld in
  match single (filter (fun c => cust_id c = id) (customers w)) with
  | Some customer => ret customer
  | None => throw "customer not found"
  end.

(** ** Archiving (daily at 3 AM) *)

Definition with_archived (stamp : Z) (a : Appointment) : Appointment :=
  {| appt_id := appt_id a; appt_business_id := appt_business_id a;
     appt_customer_id := appt_customer_id a;
     appointment_time := appointment_time a; slot_minutes := slot_minutes a;
     duration_minutes := duration_minutes a; appt_status := appt_status a;
     combo_id := combo_id a; appt_service := appt_service a;
     archived_at := Some stamp |}.

(** The rows the archive update selects:
    [.in('status', ['cancelled', 'no_show']).lt('appointment_time', cutoff)
     .is('archived_at', null)] *)
Definition archivable (cutoff : Z) (a : Appointment) : Prop :=
  appt_status a ∈ ["cancelled"; "no_show"]
  ∧ appointment_time a < cutoff
  ∧ archived_at a = None.

#[global] Instance archivable_dec cutoff a : Decision (archivable cutoff a).
Proof. unfold archivable. apply _. Defined.

(** The callback of [cron.schedule('0 3 * * *', ...)].  [DateTime.now()
    .minus({ days: 5 })] is five calendar days earlier in the zone of the
    server, which is 5 x 24 hours in a zone without a clock change in
    between; [stamp] is the later reading [new Date()] written to
    [archived_at]. *)
Definition archiveJob (env : Env) (stamp : Z) : M unit :=
  tryCatch
    (let cutoff := now env - 5 * msPerDay in
     match fault env "error" with
     | Some _ => ret tt
     | None =>
         modify (set_appointments (fmap (fun a =>
           if decide (archivable cutoff a) then with_archived stamp a
           else a)))
     end)
    (fun _ => ret tt).

(** ** Listings (GET /appointments/upcoming, /appointments/next and
    /appointments) *)

(** [.order('appointment_time', { ascending: true })].  The query fixes
    no order among rows of the same instant; the sort used here keeps
    one, and nothing proved below depends on which. *)
Definition earlierOrSame (a b : Appointment) : Prop :=
  appointment_time a ≤ appointment_time b.

#[global] Instance earlierOrSame_dec a b : Decision (earlierOrSame a b).
Proof. unfold earlierOrSame. apply _. Defined.

#[global] Instance earlierOrSame_total : Total earlierOrSame.
Proof. intros a b. unfold earlierOrSame. lia. Defined.

#[global] Instance earlierOrSame_trans : Transitive earlierOrSame.
Proof. intros a b c. unfold earlierOrSame. lia. Defined.

(** GET /appointments/upcoming.  The answer is either an error response
    or the array of rows sent with [res.json(data)]; the columns selected
    and the embedded tables are left out, the row stands for them. *)
Definition upcomingAppointments (env : Env) (businessId : Z) (w : World)
    : Response + list Appointment :=
  let now := now env in
  match fault env "error" with
  | Some e => inl (errorJson 500 e)
  | None =>
      inr (merge_sort earlierOrSame
             (filter (fun a => appt_business_id a = businessId
                               ∧ appt_status a = "scheduled"
                               ∧ now ≤ appointment_time a
                               ∧ archived_at a = None)
                     (appointments w)))
  end.

(** GET /appointments/next.  [customerId] is the query parameter, [None]
    when it is missing or empty; [.limit(1).maybeSingle()] gives the first
    row of the ordered result, or null. *)
Definition nextAppointment (env : Env) (businessId : Z)
    (customerId : option Z) (w : World) : Response + option Appointment :=
  match customerId with
  | None => inl (errorJson 400 "customerId is required")
  | Some customerId =>
      let now := now env in
      match fault env "error" with
      | Some e => inl (errorJson 500 e)
      | None =>
          inr (head (merge_sort earlierOrSame
                 (filter (fun a => appt_business_id a = businessId
                                   ∧ appt_customer_id a = customerId
                                   ∧ appt_status a = "scheduled"
                                   ∧ now ≤ appointment_time a)
                         (appointments w))))
      end
  end.

(** GET /appointments, the in-memory reorder of the rows the query
    returned: scheduled rows are pushed to [upcoming], the others to
    [past], and [[...upcoming, ...past]] is sent. *)
Definition scheduledFirst (data : list Appointment) : list Appointment :=
  let '(upcoming, past) :=
    fold_left (fun '(upcoming, past) appt =>
                 if decide (appt_status appt = "scheduled")
                 then (upcoming ++ [appt], past)
                 else (upcoming, past ++ [appt]))
              data ([], []) in
  upcoming ++ past.

(** ** Appointment settings (PATCH and GET /businesses/settings/appointments) *)

Definition set_businesses (f : list Business → list Business) (w : World) : World :=
  {| businesses := f (businesses w); customers := customers w;
     appointments := appointments w;
     appointment_services := appointment_services w;
     automation_rules := automation_rules w;
     automation_logs := automation_logs w;
     messages := messages w; outbox := outbox w; reminders := reminders w |}.

Definition set_automation_rules
    (f : list AutomationRule → list AutomationRule) (w : World) : World :=
  {| businesses := businesses w; customers := customers w;
     appointments := appointments w;
     appointment_services := appointment_services w;
     automation_rules := f (automation_rules w);
     automation_logs := automation_logs w;
     messages := messages w; outbox := outbox w; reminders := reminders w |}.

(** A field of a JSON request body.  A number is taken to be an
    integer, as the columns of the model are. *)
Inductive JsonValue :=
  | JUndefined
  | JNull
  | JBool (b : bool)
  | JNumber (n : Z)
  | JString (s : string).

(** [typeof v] *)
Definition typeOf (v : JsonValue) : string :=
  match v with
  | JUndefined => "undefined"
  | JNull => "object"
  | JBool _ => "boolean"
  | JNumber _ => "number"
  | JString _ => "string"
  end.

Definition asBool (v : JsonValue) : bool :=
  match v with JBool b => b | _ => false end.

Definition asNumber (v : JsonValue) : Z :=
  match v with JNumber n => n | _ => 0 end.

Record SettingsPayload := {
  pay_reminder_24h : JsonValue;
  pay_reminder_2h : JsonValue;
  pay_no_show_grace_minutes : JsonValue;
  pay_max_appointments_per_slot : JsonValue
}.

Definition with_settings (settings : Settings) (b : Business) : Business :=
  {| biz_id := biz_id b; biz_timezone := biz_timezone b;
     appointment_settings := Some settings |}.

Definition with_enabled (enabled : bool) (r : AutomationRule) : AutomationRule :=
  {| rule_id := rule_id r; rule_business_id := rule_business_id r;
     rule_type := rule_type r; offset_minutes := offset_minutes r;
     message_template := message_template r; rule_enabled := enabled |}.

(** [.update({ enabled }).eq('business_id', businessId).eq('rule_type', t)];
    the result of the call is discarded by the source. *)
Definition syncRules (businessId : Z) (ruleType : string) (enabled : bool)
    : M unit :=
  modify (set_automation_rules (fmap (fun r =>
    if decide (rule_business_id r = businessId ∧ rule_type r = ruleType)
    then with_enabled enabled r else r))).

(** PATCH /businesses/settings/appointments.  [role] is [req.role]; the
    value of a run that ends normally is the object sent with
    [res.json(data.appointment_settings)]. *)
Definition updateAppointmentSettings (env : Env) (businessId : Z)
    (role : string) (payload : SettingsPayload) : M (option Settings) :=
  (* owner-only *)
  if decide (role ≠ "owner") then
    respond (errorJson 403 "Only owner can update settings")
  else
  (* basic validation *)
  if decide (typeOf (pay_reminder_24h payload) ≠ "boolean"
             ∨ typeOf (pay_reminder_2h payload) ≠ "boolean"
             ∨ typeOf (pay_no_show_grace_minutes payload) ≠ "number"
             ∨ typeOf (pay_max_appointments_per_slot payload) ≠ "number") then
    respond (errorJson 400 "Invalid settings payload")
  else
  let reminder_24h := asBool (pay_reminder_24h payload) in
  let reminder_2h := asBool (pay_reminder_2h payload) in
  let settings :=
    {| reminder_24h := Some reminder_24h;
       reminder_2h := Some reminder_2h;
       no_show_grace_minutes :=
         Some (asNumber (pay_no_show_grace_minutes payload));
       max_appointments_per_slot :=
         Some (asNumber (pay_max_appointments_per_slot payload)) |} in
  match fault env "error" with
  | Some e => respond (errorJson 500 e)
  | None =>
      do! modify (set_businesses (fmap (fun b =>
            if decide (biz_id b = businessId) then with_settings settings b
            else b))) in
      let! w1 := getWorld in
      match single (filter (fun b => biz_id b = businessId) (businesses w1)) with
      | None => respond (errorJson 500 noSingleRow)
      | Some data =>
          (* sync reminder settings to the automation rules *)
          do! syncRules businessId "reminder_24h" reminder_24h in
          do! syncRules businessId "reminder_2h" reminder_2h in
          ret (appointment_settings data)
      end
  end.

(** The object GET /businesses/settings/appointments sends. *)
Record SettingsView := {
  view_reminder_24h : bool;
  view_reminder_2h : bool;
  view_no_show_grace_minutes : Z;
  view_max_appointments_per_slot : Z
}.

(** [data.appointment_settings?.field ?? fallback] *)
Definition settingOr {A} (fallback : A) (field : Settings → option A)
    (data : Business) : A :=
  match appointment_settings data with
  | Some settings => default fallback (field settings)
  | None => fallback
  end.

Definition getAppointmentSettings (env : Env) (businessId : Z) : M SettingsView :=
  let! w := getWorld in
  match fault env "error",
        single (filter (fun b => biz_id b = businessId) (businesses w)) with
  | Some e, _ => respond (errorJson 500 e)
  | None, None => respond (errorJson 500 noSingleRow)
  | None, Some data =>
      (* safe defaults *)
      ret {| view_reminder_24h := settingOr true reminder_24h data;
             view_reminder_2h := settingOr false reminder_2h data;
             view_no_show_grace_minutes :=
               settingOr 30 no_show_grace_minutes data;
             view_max_appointments_per_slot :=
               settingOr 1 max_appointments_per_slot data |}
  end.

(** What the caller of a handler that sends its value observes: the value
    or the error response, and the world left behind. *)
Definition answer {A} (m : M A) (w : World) : (Response + A) * World :=
  match m w with
  | Next a w' => (inr a, w')
  | Return r w' => (inl r, w')
  | Throw _ w' => (inl noResponse, w')
  end.

(** ** Sending a message by hand (POST /messages/send) *)

(** [customer_id] is the field of the body, [None] when it is absent;
    an absent [text] is the empty string.  Columns the insert does not
    give take the defaults of the table, here no retries, no error and no
    message type.  The value of a run that ends normally is the object
    sent, [{ ...message, status }]. *)
Definition sendMessage (env : Env) (businessId : Z) (customer_id : option Z)
    (text : string) : M Message :=
  match customer_id with
  | None => respond (errorJson 400 "customer_id and text are required")
  | Some customer_id =>
      if decide (customer_id = 0 ∨ text = "") then
        respond (errorJson 400 "customer_id and text are required")
      else
      let! w := getWorld in
      (* 1. verify customer belongs to this business *)
      match fault env "customerError",
            single (filter (fun c => cust_id c = customer_id
                                     ∧ cust_business_id c = businessId)
                           (customers w)) with
      | Some _, _ | None, None =>
          respond (errorJson 404 "Customer not found")
      | None, Some customer =>
          (* 1. insert message first *)
          match fault env "insertError" with
          | Some e => respond (errorJson 500 e)
          | None =>
              let message :=
                {| msg_id := freshId (msg_id <$> messages w);
                   msg_customer_id := customer_id;
                   msg_direction := "out";
                   msg_content := text;
                   msg_status := "pending";
                   msg_retry_count := 0;
                   msg_error := None;
                   message_type := None |} in
              do! modify (set_messages (fun l => l ++ [message])) in
              (* 2. try sending WhatsApp *)
              tryCatch
                (let! sendResult :=
                   sendWhatsAppMessage env (cust_phone customer) text in
                 (* 3. mark as sent *)
                 do! updateMessage (msg_id message)
                       (fun m => with_delivery "sent" (msg_retry_count m)
                                   (msg_error m) m) in
                 ret (with_delivery "sent" (msg_retry_count message)
                        (msg_error message) message))
                (fun err =>
                 (* 4. mark as failed *)
                 do! updateMessage (msg_id message)
                       (fun m => with_delivery "failed" 1 (Some err) m) in
                 ret (with_delivery "failed" (msg_retry_count message)
                        (msg_error message) message))
          end
      end
  end.

(** ** Incoming messages (POST /webhook/whatsapp) *)

(** [res.sendStatus(200)] *)
Definition ok : Response := json 200 JNothing.

(** [eventType] is [req.body?.type]; an absent phone or text is the
    empty string.  [.limit(1).single()] on the businesses table is its
    first row.  The insert of the message gives no status:
    [incomingStatus] is the default of that column, which the repository
    does not show.  The lookup of the customer has no error variable and
    yields null when it does not find exactly one row. *)
Definition receiveWhatsApp (env : Env) (incomingStatus : string)
    (eventType : option string) (phone text : string) : M unit :=
  tryCatch
    ((* only process incoming messages *)
     if decide (eventType ≠ Some "message") then respond ok
     else
     if decide (phone = "" ∨ text = "") then respond ok
     else
     let! w := getWorld in
     (* 1. get business (first business) *)
     match fault env "bizError", head (businesses w) with
     | Some _, _ | None, None => respond ok
     | None, Some business =>
         (* 2. find or create customer *)
         let! customer :=
           match single (filter (fun c => cust_phone c = phone
                                          ∧ cust_business_id c = biz_id business)
                                (customers w)) with
           | Some customer => ret (Some customer)
           | None =>
               match fault env "customers.insert" with
               | Some _ => ret None
               | None =>
                   let newCustomer :=
                     {| cust_id := freshId (cust_id <$> customers w);
                        cust_business_id := biz_id business;
                        cust_phone := phone;
                        cust_name := None |} in
                   do! modify (set_customers (fun l => l ++ [newCustomer])) in
                   ret (Some newCustomer)
               end
           end in
         match customer with
         | None => throw typeError
         | Some customer =>
             (* 3. save incoming message *)
             let! w1 := getWorld in
             do! modify (set_messages (fun l => l ++
                   [{| msg_id := freshId (msg_id <$> messages w1);
                       msg_customer_id := cust_id customer;
                       msg_direction := "in";
                       msg_content := text;
                       msg_status := incomingStatus;
                       msg_retry_count := 0;
                       msg_error := None;
                       message_type := None |}])) in
             respond ok
         end
     end)
    (fun _ => respond ok).

(** ** Service combos (POST /service-combos) *)

(** The catalogue tables, with the columns POST /service-combos reads or
    writes. *)
Record Service := {
  svc_id : Z;
  svc_business_id : Z;
  svc_name : string;
  svc_duration_minutes : Z
}.

Record ServiceCombo := {
  sc_id : Z;
  sc_business_id : Z;
  sc_name : string
}.

Record ComboItem := {
  item_combo_id : Z;
  item_service_id : Z;
  sort_order : Z
}.

Record Catalog := {
  services : list Service;
  service_combos : list ServiceCombo;
  service_combo_items : list ComboItem
}.

(** POST /service-combos.  [service_ids] is [None] when the field is not
    an array; an absent name is the empty string.  The handler has no
    rollback: a combo whose items could not be inserted stays. *)
Definition createCombo (env : Env) (businessId : Z) (role name : string)
    (service_ids : option (list Z)) (c : Catalog)
    : (Response + ServiceCombo) * Catalog :=
  if decide (role ≠ "owner") then
    (inl (errorJson 403 "Only owner allowed"), c)
  else
  match service_ids with
  | None => (inl (errorJson 400 "name and service_ids[] are required"), c)
  | Some service_ids =>
      if decide (name = "" ∨ service_ids = []) then
        (inl (errorJson 400 "name and service_ids[] are required"), c)
      else
      (* validate services belong to business *)
      let found :=
        filter (fun s => svc_business_id s = businessId
                         ∧ svc_id s ∈ service_ids) (services c) in
      if decide (is_Some (fault env "svcError")
                 ∨ length found ≠ length service_ids) then
        (inl (errorJson 400 "One or more services are invalid"), c)
      else
      (* 1. create combo *)
      match fault env "error" with
      | Some e => (inl (errorJson 500 e), c)
      | None =>
          let combo :=
            {| sc_id := freshId (sc_id <$> service_combos c);
               sc_business_id := businessId;
               sc_name := name |} in
          let c1 :=
            {| services := services c;
               service_combos := service_combos c ++ [combo];
               service_combo_items := service_combo_items c |} in
          (* 2. create combo items *)
          let items :=
            imap (fun idx id => {| item_combo_id := sc_id combo;
                                   item_service_id := id;
                                   sort_order := Z.of_nat idx |})
                 service_ids in
          match fault env "itemError" with
          | Some e => (inl (errorJson 500 e), c1)
          | None =>
              (inr combo,
               {| services := services c1;
                  service_combos := service_combos c1;
                  service_combo_items := service_combo_items c1 ++ items |})
          end
      end
  end.

(** ** Vocabulary of the statements *)

(** Slot [slot] covers the minutes [15 * slot .. 15 * slot + 14]; an
    appointment starting at [startMinutes] for [durationMinutes] covers
    the minutes of [[startMinutes, startMinutes + durationMinutes)].  The
    two overlap when they share a minute. *)
Definition overlapsSlot (slot startMinutes durationMinutes : Z) : Prop :=
  ∃ minute, slot * SLOT_SIZE_MINUTES ≤ minute < (slot + 1) * SLOT_SIZE_MINUTES
            ∧ startMinutes ≤ minute < startMinutes + durationMinutes.

(** The slots [buildSlotLoadMap] bumps for one appointment. *)
Definition slotsOf (appt : Appointment) : list Z :=
  getSlotRange (utcMinutesOfDay (appointment_time appt)) (duration_minutes appt).

(** Number of appointments of a list whose range holds the slot. *)
Definition occupancy (appointments : list Appointment) (slot : Z) : Z :=
  Z.of_nat (length (filter (fun a => slot ∈ slotsOf a) appointments)).

(** The start minutes the availability loop visits. *)
Definition candidateStart (durationMinutes startMinutes : Z) : Prop :=
  0 ≤ startMinutes ∧ startMinutes mod SLOT_SIZE_MINUTES = 0
  ∧ startMinutes + durationMinutes ≤ 24 * 60.

#[global] Instance candidateStart_dec d s : Decision (candidateStart d s).
Proof. unfold candidateStart. apply _. Defined.

(** Two worlds that differ at most in the customers table. *)
Definition sameButCustomers (w w' : World) : Prop :=
  w' = set_customers (fun _ => customers w') w.

(** The appointment row the booking handler inserts. *)
Definition newAppointment (w : World) (businessId customerId t total : Z)
    (combo : option Z) : Appointment :=
  {| appt_id := freshId (appt_id <$> appointments w);
     appt_business_id := businessId;
     appt_customer_id := customerId;
     appointment_time := t;
     slot_minutes := utcMinutesOfDay t;
     duration_minutes := total;
     appt_status := "scheduled";
     combo_id := combo;
     appt_service := None;
     archived_at := None |}.

(** The line items the booking handler inserts for an appointment. *)
Definition lineItems (appointmentId : Z) (services : list ServiceItem)
    : list AppointmentService :=
  (fun s => {| as_appointment_id := appointmentId;
               as_service_id := service_id s;
               as_duration_minutes := item_duration_minutes s |}) <$> services.

(** The load the booking handler computes for a request at instant [t]. *)
Definition bookingLoad (businessId t : Z) (w : World) : gmap Z Z :=
  buildSlotLoadMap (scheduledOnDay businessId t None (appointments w)).

(** A request that gets as far as the capacity check: the payload is
    valid, the business row is found, and the store reports no error on
    the way there. *)
Definition reachesCapacityCheck (env : Env) (businessId : Z)
    (req : BookingRequest) (w : World)
    (services : list ServiceItem) (t : Z) (business : Business) : Prop :=
  req_phone req ≠ ""
  ∧ req_services req = Some services ∧ services ≠ []
  ∧ 0 < totalDuration services
  ∧ req_appointment_utc_time req = Some t
  ∧ selectBusiness businessId w = Some business
  ∧ fault env "customers.insert" = None
  ∧ fault env "bizError" = None
  ∧ fault env "fetchError" = None.

(** The store answers every call of the run without error. *)
Definition noFaults (env : Env) : Prop := ∀ label, fault env label = None.

(** The instant at which slot [slot] of day [day] starts. *)
Definition slotStartInstant (day slot : Z) : Z :=
  day * msPerDay + slot * SLOT_SIZE_MINUTES * msPerMinute.




(** What one pass over a business does to a row, and what a pass over a
    list of businesses does to it. *)
Definition noShowRow (now : Z) (business : Business) (a : Appointment)
    : Appointment :=
  if decide (appt_business_id a = biz_id business
             ∧ appt_status a = "scheduled"
             ∧ overdue now (graceMinutesOf business) a)
  then with_status "no_show" a else a.

Definition noShowRows (now : Z) (bs : list Business) (a : Appointment)
    : Appointment :=
  fold_left (fun a b => noShowRow now b a) bs a.

(** Number of AutomationLog rows of a pair, and number of reminders the
    scan got accepted ("submitted") by the gateway for it. *)
Definition logged (appointmentId ruleId : Z) (w : World) : nat :=
  length (filter (fun l => log_appointment_id l = appointmentId
                           ∧ log_rule_id l = ruleId) (automation_logs w)).

Definition sentFor (appointmentId ruleId : Z) (w : World) : nat :=
  length (filter (fun f => fired_appointment f = appointmentId
                           ∧ fired_rule f = ruleId
                           ∧ fired_status f = "submitted") (reminders w)).

(** The idempotency invariant: no pair has more than one log row, and no
    pair has more accepted reminders than log rows. *)
Definition onceOnly (w : World) : Prop :=
  ∀ a r, (sentFor a r w ≤ logged a r w ∧ logged a r w ≤ 1)%nat.

(** A computation keeps a property of the world, however it ends. *)
Definition preserves {A} (P : World → Prop) (m : M A) : Prop :=
  ∀ w, P w → match m w with
             | Next _ w' | Return _ w' | Throw _ w' => P w'
             end.





(** Two worlds that differ at most in the appointments table. *)
Definition sameButAppointments (w w' : World) : Prop :=
  w' = set_appointments (fun _ => appointments w') w.

(** What the scan may do to one row: keep it, or turn a scheduled row
    that is overdue for a business of the list into its no_show copy. *)
Definition markedBy (now : Z) (bs : list Business) (a a' : Appointment) : Prop :=
  a' = a
  ∨ (appt_status a = "scheduled" ∧ a' = with_status "no_show" a
     ∧ ∃ b, b ∈ bs ∧ biz_id b = appt_business_id a
            ∧ appointment_time a + graceMinutesOf b * msPerMinute < now).

(** The four fields have the types the handler asks for. *)
Definition wellTyped (payload : SettingsPayload) : Prop :=
  typeOf (pay_reminder_24h payload) = "boolean"
  ∧ typeOf (pay_reminder_2h payload) = "boolean"
  ∧ typeOf (pay_no_show_grace_minutes payload) = "number"
  ∧ typeOf (pay_max_appointments_per_slot payload) = "number".

#[global] Instance wellTyped_dec payload : Decision (wellTyped payload).
Proof. unfold wellTyped. apply _. Defined.

Definition settingsPayload (r24 r2 : bool) (grace capacity : Z) : SettingsPayload :=
  {| pay_reminder_24h := JBool r24; pay_reminder_2h := JBool r2;
     pay_no_show_grace_minutes := JNumber grace;
     pay_max_appointments_per_slot := JNumber capacity |}.

(** A helper that looks the customer up and changes nothing: it yields a
    row or throws, in the world it was given. *)
Definition readsOnly (getCustomerPhone : Z → M Customer) : Prop :=
  ∀ id w, (∃ customer, getCustomerPhone id w = Next customer w)
          ∨ (∃ e, getCustomerPhone id w = Throw e w).

(** What one run of the job does to one row, [batch] being the rows it
    picked. *)
Definition retried (batch : list Message) (m m' : Message) : Prop :=
  ((msg_id m ∉ msg_id <$> batch) ∧ m' = m)
  ∨ (msg_id m ∈ msg_id <$> batch
     ∧ (m' = with_delivery "sent" (msg_retry_count m) (msg_error m) m
        ∨ ∃ e, m' = with_delivery "failed" (msg_retry_count m + 1) (Some e) m)).

(** The reason a firing has: an enabled rule of a business of the store
    and a scheduled appointment of that business that starts in the
    minute ending [offset_minutes] after [now]. *)
Definition justified (now : Z) (w : World) (f : Firing) : Prop :=
  ∃ business rule appt,
    business ∈ businesses w ∧ rule ∈ automation_rules w
    ∧ appt ∈ appointments w
    ∧ rule_business_id rule = biz_id business ∧ rule_enabled rule = true
    ∧ appt_business_id appt = biz_id business
    ∧ appt_status appt = "scheduled"
    ∧ now + (offset_minutes rule - 1) * msPerMinute ≤ appointment_time appt
    ∧ appointment_time appt ≤ now + offset_minutes rule * msPerMinute
    ∧ fired_appointment f = appt_id appt ∧ fired_rule f = rule_id rule.

(** The log row of a firing. *)
Definition logOf (f : Firing) : AutomationLog :=
  {| log_appointment_id := fired_appointment f; log_rule_id := fired_rule f |}.

(** A world reached from [w0] in the course of a scan at [now]. *)
Definition scanned (now : Z) (w0 w : World) : Prop :=
  businesses w = businesses w0 ∧ customers w = customers w0
  ∧ appointments w = appointments w0
  ∧ appointment_services w = appointment_services w0
  ∧ automation_rules w = automation_rules w0
  ∧ messages w = messages w0
  ∧ ∃ new,
      reminders w = reminders w0 ++ new
      ∧ length (outbox w) = (length (outbox w0) + length new)%nat
      ∧ automation_logs w
        = automation_logs w0
          ++ (logOf <$> filter (fun f => fired_status f = "submitted") new)
      ∧ Forall (justified now w0) new.

(** The customer rows of a business with a phone number. *)
Definition customersOf (businessId : Z) (phone : string) (w : World)
    : list Customer :=
  filter (fun c => cust_business_id c = businessId ∧ cust_phone c = phone)
         (customers w).


(** ** Sample data: one business in New York, one request for
    2024-06-01T13:00:00Z (slot 52 of day 19875) *)

Definition sampleSettings (k : Z) : Settings :=
  {| reminder_24h := Some true; reminder_2h := Some false;
     no_show_grace_minutes := Some 30; max_appointments_per_slot := Some k |}.

Definition sampleBusiness (k : Z) : Business :=
  {| biz_id := 1; biz_timezone := Some "America/New_York";
     appointment_settings := Some (sampleSettings k) |}.

Definition sampleWorld (k : Z) : World :=
  {| businesses := [sampleBusiness k]; customers := []; appointments := [];
     appointment_services := []; automation_rules := [];
     automation_logs := []; messages := []; outbox := []; reminders := [] |}.

Definition sampleServices : list ServiceItem :=
  [{| service_id := 7; item_duration_minutes := 30 |}].

Definition sampleRequest : BookingRequest :=
  {| req_phone := "15550100"; req_name := "Asha";
     req_services := Some sampleServices;
     req_appointment_utc_time := Some (slotStartInstant 19875 52);
     req_combo_id := None |}.

(** Another customer asking for the same start, for 45 minutes. *)
Definition otherRequest : BookingRequest :=
  {| req_phone := "15550199"; req_name := "";
     req_services := Some [{| service_id := 7; item_duration_minutes := 30 |};
                           {| service_id := 9; item_duration_minutes := 15 |}];
     req_appointment_utc_time := Some (slotStartInstant 19875 52);
     req_combo_id := None |}.

(** An environment in which the store never fails and the gateway
    accepts every message; [failing label e] makes the store call
    [label] fail with [e]. *)
Definition sampleEnv (clock : Z) : Env :=
  {| now := clock;
     gateway := fun _ _ _ => Some (Some "submitted");
     toFormat := fun _ _ _ => "01 Jun, 09:00 AM";
     fault := fun _ => None |}.


(** The same environment with another clock reading. *)
Definition setClock (clock : Z) (env : Env) : Env :=
  {| now := clock; gateway := gateway env; toFormat := toFormat env;
     fault := fault env |}.

(** The sample world after one booking, with reminder rule 5 already
    logged for the new appointment (id 1). *)
Definition sampleBooked : World :=
  set_automation_logs
    (fun _ => [{| log_appointment_id := 1; log_rule_id := 5 |}])
    (run (createAppointment (sampleEnv 0) 1 sampleRequest) (sampleWorld 1)).2.

(** The booked sample appointment with a two-hour reminder rule. *)
Definition sampleRule : AutomationRule :=
  {| rule_id := 5; rule_business_id := 1; rule_type := "reminder_2h";
     offset_minutes := 120;
     message_template := "Reminder: {{service}} on {{appointment_time}}";
     rule_enabled := true |}.

Definition sampleScheduled : World :=
  {| businesses := businesses sampleBooked;
     customers := customers sampleBooked;
     appointments := appointments sampleBooked;
     appointment_services := appointment_services sampleBooked;
     automation_rules := [sampleRule];
     automation_logs := [];
     messages := messages sampleBooked;
     outbox := [];
     reminders := [] |}.

(** The same environment with the gateway unreachable. *)
Definition gatewayDown (env : Env) : Env :=
  {| now := now env; gateway := fun _ _ _ => None; toFormat := toFormat env;
     fault := fault env |}.

(** One failed message (retry count 1, error "timeout") of a known
    customer. *)
Definition sampleFailed : World :=
  {| businesses := [sampleBusiness 1];
     customers := [{| cust_id := 1; cust_business_id := 1;
                      cust_phone := "15550100"; cust_name := Some "Asha" |}];
     appointments := []; appointment_services := [];
     automation_rules := []; automation_logs := [];
     messages := [{| msg_id := 1; msg_customer_id := 1;
                     msg_direction := "out"; msg_content := "See you at 9";
                     msg_status := "failed"; msg_retry_count := 1;
                     msg_error := Some "timeout"; message_type := None |}];
     outbox := []; reminders := [] |}.

(** What calling an identifier that is bound nowhere does. *)
Definition undefinedHelper (id : Z) : M Customer :=
  throw "getCustomerPhone is not defined".

(** A catalogue: two services of business 1, one of business 2. *)
Definition sampleCatalog : Catalog :=
  {| services := [{| svc_id := 7; svc_business_id := 1; svc_name := "Cut";
                     svc_duration_minutes := 30 |};
                  {| svc_id := 9; svc_business_id := 1; svc_name := "Wash";
                     svc_duration_minutes := 15 |};
                  {| svc_id := 11; svc_business_id := 2; svc_name := "Cut";
                     svc_duration_minutes := 30 |}];
     service_combos := []; service_combo_items := [] |}.

(* ================================================================== *)
(** * Part II. Properties                                              *)
(* ================================================================== *)

(** ** Slot grid *)

Lemma ceilDiv_bounds d :
  SLOT_SIZE_MINUTES * (ceilDiv d SLOT_SIZE_MINUTES - 1) < d
  ∧ d ≤ SLOT_SIZE_MINUTES * ceilDiv d SLOT_SIZE_MINUTES.
Proof.
  unfold ceilDiv, SLOT_SIZE_MINUTES.
  pose proof (Z.div_mod (- d) 15 ltac:(lia)) as Hdm.
  pose proof (Z.mod_pos_bound (- d) 15 ltac:(lia)) as Hb.
  lia.
Qed.

Lemma floorDiv_bounds s :
  SLOT_SIZE_MINUTES * floorDiv s SLOT_SIZE_MINUTES ≤ s
  ∧ s < SLOT_SIZE_MINUTES * (floorDiv s SLOT_SIZE_MINUTES + 1).
Proof.
  unfold floorDiv, SLOT_SIZE_MINUTES.
  pose proof (Z.div_mod s 15 ltac:(lia)) as Hdm.
  pose proof (Z.mod_pos_bound s 15 ltac:(lia)) as Hb.
  lia.
Qed.

Lemma getSlotRange_seqZ s d :
  getSlotRange s d
  = seqZ (floorDiv s SLOT_SIZE_MINUTES) (ceilDiv d SLOT_SIZE_MINUTES).
Proof.
  unfold getSlotRange, seqZ, minutesToSlotIndex.
  apply list_fmap_ext; intros; lia.
Qed.

Lemma elem_of_getSlotRange slot s d :
  slot ∈ getSlotRange s d
  ↔ floorDiv s SLOT_SIZE_MINUTES ≤ slot
    < floorDiv s SLOT_SIZE_MINUTES + ceilDiv d SLOT_SIZE_MINUTES.
Proof. rewrite getSlotRange_seqZ. apply elem_of_seqZ. Qed.

Lemma NoDup_getSlotRange s d : NoDup (getSlotRange s d).
Proof. rewrite getSlotRange_seqZ. apply NoDup_seqZ. Qed.

Lemma getSlotRange_overlaps slot s d :
  slot ∈ getSlotRange s d → overlapsSlot slot s d.
Proof.
  rewrite elem_of_getSlotRange. intros [Hlo Hhi].
  pose proof (floorDiv_bounds s) as [Hs1 Hs2].
  pose proof (ceilDiv_bounds d) as [Hd1 Hd2].
  unfold overlapsSlot. unfold SLOT_SIZE_MINUTES in *.
  exists (Z.max s (slot * 15)). lia.
Qed.

Lemma aligned_overlap_in_range slot s d :
  s mod SLOT_SIZE_MINUTES = 0 →
  overlapsSlot slot s d → slot ∈ getSlotRange s d.
Proof.
  intros Hal (m & Hm1 & Hm2). apply elem_of_getSlotRange.
  pose proof (ceilDiv_bounds d) as [Hd1 Hd2].
  unfold floorDiv, SLOT_SIZE_MINUTES in *.
  pose proof (Z.div_mod s 15 ltac:(lia)) as Hdm.
  lia.
Qed.

(** ** Slot load *)

Lemma lookup_bump_fold (slots : list Z) (slotLoad : gmap Z Z) slot :
  NoDup slots →
  fold_left bumpSlot slots slotLoad !! slot
  = if decide (slot ∈ slots) then Some (slotLoadAt slotLoad slot + 1)
    else slotLoad !! slot.
Proof.
  intros Hnd. revert slotLoad.
  induction Hnd as [|x l Hx Hnd IH]; intros slotLoad; simpl.
  - destruct (decide (slot ∈ [])) as [H|H]; [by apply elem_of_nil in H | done].
  - rewrite IH. unfold bumpSlot, slotLoadAt.
    destruct (decide (slot = x)) as [->|Hne].
    + rewrite lookup_insert_eq. simpl.
      destruct (decide (x ∈ l)) as [|_]; [done|].
      destruct (decide (x ∈ x :: l)) as [_|Hn]; [done|].
      exfalso. apply Hn. left.
    + rewrite lookup_insert_ne by done.
      destruct (decide (slot ∈ l)) as [Hin|Hnin];
        destruct (decide (slot ∈ x :: l)) as [Hin'|Hnin']; try done.
      * exfalso. apply Hnin'. by right.
      * apply elem_of_cons in Hin' as [?|?]; done.
Qed.

Lemma buildSlotLoadMap_snoc appointments appt :
  buildSlotLoadMap (appointments ++ [appt])
  = fold_left bumpSlot (slotsOf appt) (buildSlotLoadMap appointments).
Proof. unfold buildSlotLoadMap. by rewrite fold_left_app. Qed.

Lemma occupancy_snoc appointments appt slot :
  occupancy (appointments ++ [appt]) slot
  = occupancy appointments slot + (if decide (slot ∈ slotsOf appt) then 1 else 0).
Proof.
  unfold occupancy. rewrite filter_app, length_app.
  rewrite filter_cons, filter_nil. case_decide; simpl; lia.
Qed.

Lemma occupancy_app l1 l2 slot :
  occupancy (l1 ++ l2) slot = occupancy l1 slot + occupancy l2 slot.
Proof. unfold occupancy. rewrite filter_app, length_app. lia. Qed.

Lemma occupancy_nonneg appointments slot : 0 ≤ occupancy appointments slot.
Proof. unfold occupancy. lia. Qed.

Lemma lookup_buildSlotLoadMap appointments slot :
  buildSlotLoadMap appointments !! slot
  = if decide (occupancy appointments slot = 0) then None
    else Some (occupancy appointments slot).
Proof.
  induction appointments as [|appt appointments IH] using rev_ind.
  - done.
  - rewrite buildSlotLoadMap_snoc, occupancy_snoc.
    rewrite lookup_bump_fold by apply NoDup_getSlotRange.
    unfold slotLoadAt. rewrite IH.
    pose proof (occupancy_nonneg appointments slot).
    repeat case_decide; simpl; try lia; f_equal; lia.
Qed.

Lemma slotLoadAt_buildSlotLoadMap appointments slot :
  slotLoadAt (buildSlotLoadMap appointments) slot = occupancy appointments slot.
Proof.
  unfold slotLoadAt. rewrite lookup_buildSlotLoadMap.
  case_decide; simpl; lia.
Qed.

(** ** The two capacity tests *)

Lemma capacityLoop_forallb slotLoad maxPerSlot startSlotIndex i n :
  capacityLoop slotLoad maxPerSlot startSlotIndex i n
  = forallb (fun slot => bool_decide (slotLoadAt slotLoad slot < maxPerSlot))
      ((fun j : nat => startSlotIndex + i + Z.of_nat j) <$> seq 0 n).
Proof.
  revert i. induction n as [|n IH]; intros i; [done|].
  simpl. rewrite Z.add_0_r. rewrite IH.
  rewrite <- seq_shift, <- list_fmap_compose.
  destruct (decide (maxPerSlot ≤ slotLoadAt slotLoad (startSlotIndex + i)))
    as [Hfull|Hfull].
  - rewrite bool_decide_eq_false_2 by lia. done.
  - rewrite bool_decide_eq_true_2 by lia. simpl. f_equal.
    apply list_fmap_ext. intros; simpl; lia.
Qed.

Lemma capacityCheck_isAvailable slotLoad s d maxPerSlot :
  capacityCheck slotLoad s d maxPerSlot
  = isAvailable slotLoad maxPerSlot (getSlotRange s d).
Proof.
  unfold capacityCheck, isAvailable, getSlotRange, minutesToSlotIndex.
  rewrite capacityLoop_forallb. f_equal.
  apply list_fmap_ext. intros; lia.
Qed.

Lemma isAvailable_true slotLoad maxPerSlot slots :
  isAvailable slotLoad maxPerSlot slots = true
  ↔ ∀ slot, slot ∈ slots → slotLoadAt slotLoad slot < maxPerSlot.
Proof.
  unfold isAvailable. rewrite forallb_forall. split.
  - intros H slot Hin. apply list_elem_of_In in Hin.
    specialize (H slot Hin). by apply bool_decide_eq_true in H.
  - intros H slot Hin. apply bool_decide_eq_true, H. by apply list_elem_of_In.
Qed.

Lemma capacityCheck_true slotLoad s d maxPerSlot :
  capacityCheck slotLoad s d maxPerSlot = true
  ↔ ∀ slot, slot ∈ getSlotRange s d → slotLoadAt slotLoad slot < maxPerSlot.
Proof. rewrite capacityCheck_isAvailable. apply isAvailable_true. Qed.

Lemma capacityCheck_false slotLoad s d maxPerSlot :
  capacityCheck slotLoad s d maxPerSlot = false
  ↔ ∃ slot, slot ∈ getSlotRange s d ∧ maxPerSlot ≤ slotLoadAt slotLoad slot.
Proof.
  rewrite <- not_true_iff_false, capacityCheck_true. split.
  - intros Hn.
    destruct (decide (Forall (fun slot => slotLoadAt slotLoad slot < maxPerSlot)
                             (getSlotRange s d))) as [HF|HF].
    + exfalso. apply Hn. intros slot Hin.
      by apply (proj1 (Forall_forall _ _) HF).
    + apply not_Forall_Exists in HF; [|intros x; apply _].
      apply Exists_exists in HF as (slot & Hin & Hs).
      exists slot. split; [done|]. simpl in Hs. lia.
  - intros (slot & Hin & Hfull) Hall. specialize (Hall slot Hin). lia.
Qed.

(** ** Availability *)

Lemma lookup_availabilityLoop rounds slotLoad d maxPerSlot s0 acc start :
  24 * 60 < s0 + SLOT_SIZE_MINUTES * Z.of_nat rounds + d →
  availabilityLoop rounds slotLoad d maxPerSlot s0 acc !! start
  = if decide (s0 ≤ start ∧ (start - s0) mod SLOT_SIZE_MINUTES = 0
               ∧ start + d ≤ 24 * 60)
    then Some (isAvailable slotLoad maxPerSlot (getSlotRange start d))
    else acc !! start.
Proof.
  unfold SLOT_SIZE_MINUTES.
  revert s0 acc.
  induction rounds as [|rounds IH]; intros s0 acc Hfuel;
    cbn [availabilityLoop]; unfold SLOT_SIZE_MINUTES.
  - rewrite decide_False; [done|]. lia.
  - destruct (decide (s0 + d ≤ 24 * 60)) as [Hgo|Hstop].
    + rewrite IH by lia.
      pose proof (Z.div_mod (start - s0) 15 ltac:(lia)) as Hdm.
      replace (start - (s0 + 15)) with ((start - s0) + (-1) * 15) by lia.
      rewrite Z_mod_plus_full.
      destruct (decide (start = s0)) as [->|Hne].
      * rewrite lookup_insert_eq.
        rewrite decide_False by lia.
        rewrite decide_True; [done|].
        rewrite Z.sub_diag. done.
      * rewrite lookup_insert_ne by done.
        destruct (decide (s0 + 15 ≤ start ∧ (start - s0) mod 15 = 0
                          ∧ start + d ≤ 24 * 60)) as [Hc|Hc].
        -- rewrite decide_True by lia. done.
        -- rewrite decide_False; [done|]. lia.
    + rewrite decide_False; [done|]. lia.
Qed.

Lemma lookup_dailyAvailability slotLoad d maxPerSlot start :
  0 < d →
  dailyAvailability slotLoad d maxPerSlot !! start
  = if decide (candidateStart d start)
    then Some (capacityCheck slotLoad start d maxPerSlot)
    else None.
Proof.
  intros Hd. unfold dailyAvailability.
  rewrite lookup_availabilityLoop
    by (unfold availabilityRounds, SLOT_SIZE_MINUTES; lia).
  rewrite Z.sub_0_r, lookup_empty, capacityCheck_isAvailable.
  unfold candidateStart. repeat case_decide; tauto.
Qed.

(** The bound on the rounds is never what ends the loop: any further
    round leaves the result as it is. *)
Lemma availabilityLoop_rounds_enough extra slotLoad d maxPerSlot :
  0 < d →
  availabilityLoop (availabilityRounds + extra) slotLoad d maxPerSlot 0 ∅
  = dailyAvailability slotLoad d maxPerSlot.
Proof.
  intros Hd. apply map_eq. intros start. unfold dailyAvailability.
  rewrite !lookup_availabilityLoop; [done| |];
    unfold availabilityRounds, SLOT_SIZE_MINUTES; lia.
Qed.

(** ** Claims on the slot grid and the capacity planner *)

(** C2, as stated, fails at a start off the slot boundary: an appointment
    of 10 minutes starting at minute 10 covers the minutes 10..19, hence
    shares minute 15 with slot 1, yet its range is slot 0 alone. *)
Lemma slot_range_misses_overlapped_slot :
  getSlotRange 10 10 = [0] ∧ overlapsSlot 1 10 10 ∧ 1 ∉ getSlotRange 10 10.
Proof.
  split; [reflexivity|]. split.
  - exists 15. unfold SLOT_SIZE_MINUTES. lia.
  - rewrite elem_of_getSlotRange. vm_compute. intros [H1 H2]. by apply H1.
Qed.

(** C2 (amended): the range of an appointment is the contiguous run of
    [ceil (durationMinutes / 15)] slot indices from
    [floor (startMinutes / 15)]; every slot of the range overlaps the
    appointment's interval; when the start lies on a slot boundary the
    range holds every slot the interval overlaps; and [buildSlotLoadMap],
    a function of the appointment list alone, raises by one the load of
    exactly the slots of each appointment's range. *)
Theorem slot_range_and_load (startMinutes durationMinutes : Z) :
  getSlotRange startMinutes durationMinutes
  = seqZ (floorDiv startMinutes SLOT_SIZE_MINUTES)
         (ceilDiv durationMinutes SLOT_SIZE_MINUTES)
  ∧ (SLOT_SIZE_MINUTES * floorDiv startMinutes SLOT_SIZE_MINUTES ≤ startMinutes
     < SLOT_SIZE_MINUTES * (floorDiv startMinutes SLOT_SIZE_MINUTES + 1))
  ∧ (SLOT_SIZE_MINUTES * (ceilDiv durationMinutes SLOT_SIZE_MINUTES - 1)
     < durationMinutes
     ≤ SLOT_SIZE_MINUTES * ceilDiv durationMinutes SLOT_SIZE_MINUTES)
  ∧ (∀ slot, slot ∈ getSlotRange startMinutes durationMinutes →
             overlapsSlot slot startMinutes durationMinutes)
  ∧ (startMinutes mod SLOT_SIZE_MINUTES = 0 →
     ∀ slot, overlapsSlot slot startMinutes durationMinutes →
             slot ∈ getSlotRange startMinutes durationMinutes)
  ∧ (∀ appointments appt slot,
       utcMinutesOfDay (appointment_time appt) = startMinutes →
       duration_minutes appt = durationMinutes →
       slotLoadAt (buildSlotLoadMap (appointments ++ [appt])) slot
       = slotLoadAt (buildSlotLoadMap appointments) slot
         + (if decide (slot ∈ getSlotRange startMinutes durationMinutes)
            then 1 else 0)).
Proof.
  split; [apply getSlotRange_seqZ|].
  split; [apply floorDiv_bounds|].
  split; [apply ceilDiv_bounds|].
  split; [intros slot; apply getSlotRange_overlaps|].
  split; [intros Hal slot; by apply aligned_overlap_in_range|].
  intros appointments appt slot Hs Hd.
  rewrite !slotLoadAt_buildSlotLoadMap, occupancy_snoc.
  unfold slotsOf. by rewrite Hs, Hd.
Qed.

(** The theorem at the scenario of the specification: 13:00 UTC for 30
    minutes occupies slots 52 and 53 (minutes 780-795 and 795-810). *)
Lemma slot_range_and_load_witness :
  780 mod SLOT_SIZE_MINUTES = 0
  ∧ getSlotRange 780 30 = [52; 53]
  ∧ ∀ slot, overlapsSlot slot 780 30 → slot ∈ getSlotRange 780 30.
Proof.
  split; [reflexivity|]. split; [reflexivity|].
  apply (slot_range_and_load 780 30). reflexivity.
Defined.

(** The availability handler is a read-only projection: with a positive
    duration and a date it answers the availability map computed from
    the very load the booking handler computes for that day, and leaves
    the world as it was. *)
Lemma getAvailability_projection env businessId day d w :
  fault env "error" = None → 0 < d →
  run (getAvailability env businessId (Some day) None (Some d)) w
  = (json 200 (JAvailability SLOT_SIZE_MINUTES
                 (dailyAvailability (bookingLoad businessId day w) d
                    (maxPerSlotOf (selectBusiness businessId w)))), w).
Proof.
  intros Hf Hd. unfold getAvailability, run, bind, getWorld, respond.
  rewrite decide_False by lia. by rewrite Hf.
Qed.

(** C10: for every slot-load map, positive duration and capacity, the
    availability projection has an entry exactly for the candidate starts
    (multiples of 15 from 0 with [start + duration <= 1440]) and reports
    such a start available if and only if the capacity loop of the booking
    handler passes for a booking at that minute with that duration. *)
Theorem availability_agrees_with_booking
    (slotLoad : gmap Z Z) (durationMinutes maxPerSlot startMinutes : Z) :
  0 < durationMinutes →
  (is_Some (dailyAvailability slotLoad durationMinutes maxPerSlot !! startMinutes)
   ↔ candidateStart durationMinutes startMinutes)
  ∧ (∀ available,
       dailyAvailability slotLoad durationMinutes maxPerSlot !! startMinutes
       = Some available →
       (available = true
        ↔ capacityCheck slotLoad startMinutes durationMinutes maxPerSlot = true))
  ∧ (capacityCheck slotLoad startMinutes durationMinutes maxPerSlot = true
     ↔ ∀ slot, slot ∈ getSlotRange startMinutes durationMinutes →
               slotLoadAt slotLoad slot < maxPerSlot).
Proof.
  intros Hd. rewrite lookup_dailyAvailability by done.
  split; [|split].
  - case_decide; split; intros H'; try done; by destruct H'.
  - intros available. case_decide; [|done]. intros [= <-]. done.
  - apply capacityCheck_true.
Qed.

Lemma availability_agrees_with_booking_witness :
  dailyAvailability {[52 := 1; 53 := 1]} 30 1 !! 795 = Some false
  ∧ capacityCheck {[52 := 1; 53 := 1]} 795 30 1 = false
  ∧ (false = true ↔ capacityCheck {[52 := 1; 53 := 1]} 795 30 1 = true).
Proof.
  split; [by vm_compute|]. split; [by vm_compute|].
  apply (availability_agrees_with_booking {[52 := 1; 53 := 1]} 30 1 795);
    [lia | by vm_compute].
Defined.

(** ** Clock arithmetic *)

Lemma utcMinutesOfDay_spec t :
  utcMinutesOfDay t = (t mod msPerDay) / msPerMinute
  ∧ 0 ≤ utcMinutesOfDay t < 24 * 60.
Proof.
  unfold utcMinutesOfDay, getUTCHours, getUTCMinutes, msPerDay, msPerHour,
    msPerMinute.
  change 3600000 with (60000 * 60).
  rewrite <- Z.div_div by lia.
  pose proof (Z.rem_mul_r (t / 60000) 60 24 ltac:(lia) ltac:(lia)) as H1.
  pose proof (Z.rem_mul_r t 60000 1440 ltac:(lia) ltac:(lia)) as H2.
  change (60 * 24) with 1440 in H1. change (60000 * 1440) with 86400000 in H2.
  pose proof (Z.mod_pos_bound t 60000 ltac:(lia)).
  pose proof (Z.mod_pos_bound (t / 60000) 1440 ltac:(lia)).
  split; [|lia].
  rewrite H2. symmetry.
  replace (t mod 60000 + 60000 * ((t / 60000) mod 1440))
    with ((t / 60000) mod 1440 * 60000 + t mod 60000) by lia.
  rewrite Z.div_add_l by lia.
  rewrite (Z.div_small (t mod 60000) 60000) by lia. lia.
Qed.

Lemma dayStartOf_bounds t : dayStartOf t ≤ t < dayStartOf t + msPerDay.
Proof.
  unfold dayStartOf, msPerDay.
  pose proof (Z.div_mod t 86400000 ltac:(lia)).
  pose proof (Z.mod_pos_bound t 86400000 ltac:(lia)). lia.
Qed.

(** ** Store helpers *)

Lemma freshId_gt (ids : list Z) x : x ∈ ids → x < freshId ids.
Proof.
  unfold freshId. induction ids as [|y ids IH]; intros Hin.
  - by apply elem_of_nil in Hin.
  - apply elem_of_cons in Hin as [->|Hin]; simpl; [lia|].
    specialize (IH Hin). lia.
Qed.

Lemma filter_all {A} (P : A → Prop) `{!∀ x, Decision (P x)} (l : list A) :
  (∀ x, x ∈ l → P x) → filter P l = l.
Proof.
  induction l as [|x l IH]; intros Hall; [done|].
  rewrite filter_cons, decide_True by (apply Hall; left).
  f_equal. apply IH. intros y Hy. apply Hall. by right.
Qed.

Lemma filter_none {A} (P : A → Prop) `{!∀ x, Decision (P x)} (l : list A) :
  (∀ x, x ∈ l → ¬ P x) → filter P l = [].
Proof.
  induction l as [|x l IH]; intros Hall; [done|].
  rewrite filter_cons, decide_False by (apply Hall; left).
  apply IH. intros y Hy. apply Hall. by right.
Qed.

(** Deleting the row just inserted under a fresh identifier restores
    the table. *)
Lemma rollback_restores (rows : list Appointment) (a : Appointment) :
  appt_id a = freshId (appt_id <$> rows) →
  filter (fun r => appt_id r ≠ appt_id a) (rows ++ [a]) = rows.
Proof.
  intros Hid. rewrite filter_app, filter_cons, filter_nil.
  rewrite decide_False by (intros H; by apply H).
  rewrite app_nil_r. apply filter_all.
  intros r Hr. rewrite Hid.
  assert (appt_id r < freshId (appt_id <$> rows)); [|lia].
  apply freshId_gt. by apply list_elem_of_fmap_2.
Qed.

(** ** Booking *)

Lemma sameButCustomers_refl w : sameButCustomers w w.
Proof. by destruct w. Qed.

Lemma findOrCreateCustomer_result env businessId phone name w :
  match findOrCreateCustomer env businessId phone name w with
  | Next customer w' => sameButCustomers w w'
  | Return r w' =>
      w' = w ∧ ∃ e, fault env "customers.insert" = Some e ∧ r = errorJson 500 e
  | Throw _ _ => False
  end.
Proof.
  unfold findOrCreateCustomer, bind, getWorld, modify, ret, respond.
  destruct (single _) as [customer|].
  - case_decide; simpl; [by destruct w | apply sameButCustomers_refl].
  - destruct (fault env "customers.insert") as [e|]; simpl.
    + split; [done|]. by exists e.
    + by destruct w.
Qed.

Lemma sendAndLogSystemMessage_result env customerId phone content w :
  ∃ w', sendAndLogSystemMessage env customerId phone content w = Next tt w'
        ∧ businesses w' = businesses w
        ∧ customers w' = customers w
        ∧ appointments w' = appointments w
        ∧ appointment_services w' = appointment_services w
        ∧ automation_logs w' = automation_logs w
        ∧ reminders w' = reminders w.
Proof.
  unfold sendAndLogSystemMessage, bind, getWorld, modify, ret,
    sendWhatsAppMessage.
  destruct (fault env "messages.insert"); simpl; eexists; split; done.
Qed.

Lemma persistAppointment_result env businessId customer services t total combo w :
  let appt := newAppointment w businessId (cust_id customer) t total combo in
  match persistAppointment env businessId customer services t
          (utcMinutesOfDay t) total combo w with
  | Next a w' =>
      fault env "insertError" = None ∧ fault env "serviceError" = None
      ∧ a = appt
      ∧ w' = set_appointment_services
               (fun l => l ++ ((fun s =>
                  {| as_appointment_id := appt_id appt;
                     as_service_id := service_id s;
                     as_duration_minutes := item_duration_minutes s |})
                  <$> services))
               (set_appointments (fun l => l ++ [appt]) w)
  | Return r w' =>
      (∃ e, r = errorJson 500 e
            ∧ (fault env "insertError" = Some e
               ∨ fault env "insertError" = None
                 ∧ fault env "serviceError" = Some e))
      ∧ w' = w
  | Throw _ _ => False
  end.
Proof.
  intros appt. unfold persistAppointment, bind, getWorld, modify, ret, respond.
  fold (newAppointment w businessId (cust_id customer) t total combo).
  fold appt.
  destruct (fault env "insertError") as [e|]; simpl.
  - split; [|done]. exists e. split; [done|by left].
  - destruct (fault env "serviceError") as [e|]; simpl.
    + split; [exists e; split; [done|by right]|].
      unfold set_appointments at 1. simpl.
      change (freshId (appt_id <$> appointments w)) with (appt_id appt).
      rewrite rollback_restores by done. by destruct w.
    + done.
Qed.

Lemma sameButCustomers_fields w w' :
  sameButCustomers w w' →
  businesses w' = businesses w ∧ appointments w' = appointments w
  ∧ appointment_services w' = appointment_services w
  ∧ automation_rules w' = automation_rules w
  ∧ automation_logs w' = automation_logs w
  ∧ messages w' = messages w ∧ outbox w' = outbox w
  ∧ reminders w' = reminders w.
Proof. intros ->. done. Qed.


Lemma createAppointment_reached env businessId req w services t business :
  reachesCapacityCheck env businessId req w services t business →
  ∃ customer w1,
    findOrCreateCustomer env businessId (req_phone req) (req_name req) w
    = Next customer w1
    ∧ sameButCustomers w w1
    ∧ let appt := newAppointment w businessId (cust_id customer) t
                    (totalDuration services) (req_combo_id req) in
      let free := capacityCheck (bookingLoad businessId t w)
                    (utcMinutesOfDay t) (totalDuration services)
                    (maxPerSlotOf (Some business)) in
      (free = false →
         run (createAppointment env businessId req) w
         = (errorJson 409 "Selected time slot is fully booked", w1))
      ∧ (free = true → ∀ e, fault env "insertError" = Some e →
         run (createAppointment env businessId req) w = (errorJson 500 e, w1))
      ∧ (free = true → fault env "insertError" = None →
         ∀ e, fault env "serviceError" = Some e →
         run (createAppointment env businessId req) w = (errorJson 500 e, w1))
      ∧ (free = true → fault env "insertError" = None →
         fault env "serviceError" = None →
         ∃ w',
           run (createAppointment env businessId req) w
           = (json 200 (JAppointment appt), w')
           ∧ businesses w' = businesses w
           ∧ appointments w' = appointments w ++ [appt]
           ∧ appointment_services w'
             = appointment_services w ++ lineItems (appt_id appt) services).
Proof.
  intros (Hphone & Hsvc & Hne & Hdur & Ht & Hbiz & Hf1 & Hf2 & Hf3).
  pose proof (findOrCreateCustomer_result env businessId (req_phone req)
                (req_name req) w) as Hc.
  destruct (findOrCreateCustomer _ _ _ _ w) as [customer w1|r w1|] eqn:Hfc;
    [|destruct Hc as [_ (e & He & _)]; congruence|done].
  exists customer, w1. split; [done|]. split; [done|].
  pose proof (sameButCustomers_fields _ _ Hc)
    as (Hb & Ha & Hs & _ & _ & _ & _ & _).
  assert (Hsel : selectBusiness businessId w1 = Some business).
  { unfold selectBusiness in *. by rewrite Hb. }
  pose proof (persistAppointment_result env businessId customer services t
                (totalDuration services) (req_combo_id req) w1) as Hp.
  cbv zeta in Hp |- *.
  remember (run (createAppointment env businessId req) w) as res eqn:Hres.
  unfold createAppointment, run, tryCatch in Hres. rewrite Hsvc, Ht in Hres.
  rewrite decide_False in Hres by (intros [?|?]; done).
  rewrite decide_False in Hres by lia.
  unfold bind at 1 in Hres. rewrite Hfc in Hres.
  unfold bind at 1, getWorld at 1 in Hres. rewrite Hf2, Hsel, Hf3 in Hres.
  unfold bookingLoad. rewrite Ha in Hres.
  destruct (capacityCheck _ _ _ _).
  2:{ unfold respond in Hres. subst res. repeat split; intros; done. }
  split; [done|].
  unfold bind at 1 in Hres.
  destruct (persistAppointment _ _ _ _ _ _ _ _ w1) as [a w2|r w2|]; [| |done].
  - destruct Hp as (Hi1 & Hi2 & -> & ->).
    split; [intros _ e He; congruence|].
    split; [intros _ _ e He; congruence|].
    intros _ _ _. unfold bind at 1 in Hres.
    edestruct sendAndLogSystemMessage_result
      as (w3 & Hsend & Hb3 & _ & Ha3 & Hs3 & _).
    rewrite Hsend in Hres. unfold respond in Hres. subst res.
    eexists. split.
    + unfold newAppointment. by rewrite Ha.
    + rewrite Hb3, Ha3, Hs3. simpl. rewrite Hb, Ha, Hs.
      unfold newAppointment, lineItems. simpl. by rewrite Ha.
  - destruct Hp as [(e & -> & He) ->]. subst res.
    split; [intros _ e' He'; destruct He as [He|[He _]]; congruence|].
    split; [intros _ Hi e' He'; destruct He as [He|[_ He]]; congruence|].
    intros _ Hi Hs'. destruct He as [He|[_ He]]; congruence.
Qed.

(** *** Booking the same slot until it is full *)


Lemma slotStartInstant_minutes day slot :
  0 ≤ slot < 96 →
  utcMinutesOfDay (slotStartInstant day slot) = slot * SLOT_SIZE_MINUTES.
Proof.
  intros Hslot. destruct (utcMinutesOfDay_spec (slotStartInstant day slot))
    as [-> _].
  unfold slotStartInstant, msPerDay, msPerMinute, SLOT_SIZE_MINUTES.
  rewrite Z.add_comm, Z_mod_plus_full. rewrite Z.mod_small by lia.
  replace (slot * 15 * 60000) with (slot * 15 * 60000 + 0) by lia.
  rewrite Z.div_add_l by lia. rewrite Z.div_0_l by lia. lia.
Qed.

Lemma getSlotRange_nonempty s d :
  0 < d → floorDiv s SLOT_SIZE_MINUTES ∈ getSlotRange s d.
Proof.
  intros Hd. apply elem_of_getSlotRange.
  pose proof (ceilDiv_bounds d). unfold SLOT_SIZE_MINUTES in *. lia.
Qed.








(** The scenario of the specification: 13:00 UTC for 30 minutes is
    booked (slots 52 and 53); a second request for 13:15 to 13:45 on the
    same day, capacity 1, is answered 409 because it needs slot 53. *)
Example overlapping_second_booking_rejected :
  let quarterPast :=
    {| req_phone := "15550111"; req_name := "";
       req_services := Some sampleServices;
       req_appointment_utc_time := Some (slotStartInstant 19875 53);
       req_combo_id := None |} in
  let first := run (createAppointment (sampleEnv 0) 1 sampleRequest)
                   (sampleWorld 1) in
  let second := run (createAppointment (sampleEnv 0) 1 quarterPast) first.2 in
  code first.1 = 200
  ∧ slotsOf <$> appointments first.2 = [[52; 53]]
  ∧ second.1 = errorJson 409 "Selected time slot is fully booked"
  ∧ appointments second.2 = appointments first.2.
Proof. by vm_compute. Qed.



(** *** The clock *)

(** Neither handler reads the clock: the instant "now" has no part in
    what they answer or write. *)
Lemma createAppointment_ignores_clock clock env businessId req :
  createAppointment (setClock clock env) businessId req
  = createAppointment env businessId req.
Proof. reflexivity. Qed.

Lemma rescheduleSlot_ignores_clock clock env businessId appointmentId t :
  rescheduleSlot (setClock clock env) businessId appointmentId t
  = rescheduleSlot env businessId appointmentId t.
Proof. reflexivity. Qed.

(** ** Reschedule *)

Lemma rescheduled_rows appointmentId t m d (rows : list Appointment) a :
  a ∈ (fun a => if decide (appt_id a = appointmentId)
                then rescheduled t m d a else a) <$> rows →
  appt_id a = appointmentId →
  appt_status a = "scheduled" ∧ appointment_time a = t.
Proof.
  intros Hin Hid. apply list_elem_of_fmap in Hin as (a0 & -> & _).
  destruct (decide (appt_id a0 = appointmentId)); [done|]. done.
Qed.

Lemma single_elem {A} (rows : list A) x : single rows = Some x → x ∈ rows.
Proof.
  destruct rows as [|y [|z rows]]; simpl; intros [= <-]. left.
Qed.

Lemma rescheduleSlot_success env businessId appointmentId t w r w' :
  run (rescheduleSlot env businessId appointmentId t) w = (r, w') →
  code r = 200 →
  ∃ t' updated m d,
    t = Some t'
    ∧ r = json 200 (JAppointment updated)
    ∧ appointments w'
      = (fun a => if decide (appt_id a = appointmentId)
                  then rescheduled t' m d a else a) <$> appointments w
    ∧ updated ∈ appointments w'
    ∧ appt_id updated = appointmentId
    ∧ automation_logs w'
      = filter (fun l => log_appointment_id l ≠ appointmentId)
               (automation_logs w).
Proof.
  unfold rescheduleSlot, run, tryCatch.
  destruct t as [t'|]; [|by intros [= <- <-]].
  unfold bind at 1, getWorld at 1.
  destruct (fault env "apptError"); [by intros [= <- <-]|].
  destruct (single _) as [appointment|]; [|by intros [= <- <-]].
  case_decide; [by intros [= <- <-]|].
  destruct (fault env "fetchError"); [by intros [= <- <-]|].
  destruct (capacityCheck _ _ _ _); [|by intros [= <- <-]].
  destruct (fault env "updateError"); [by intros [= <- <-]|].
  unfold bind at 1, modify at 1, bind at 1, getWorld at 1.
  match goal with
  | |- context [set_appointments (fmap ?f) w] =>
      set (w1 := set_appointments (fmap f) w)
  end.
  destruct (single (filter _ (appointments w1))) as [updated|] eqn:Hupd;
    [|by intros [= <- <-]].
  destruct (selectBusiness businessId w) as [biz|];
    [|unfold throw, respond; by intros [= <- <-]].
  destruct (single (filter _ (customers w1))) as [customer|];
    [|unfold throw, respond; by intros [= <- <-]].
  unfold bind at 1.
  edestruct sendAndLogSystemMessage_result
    as (w2 & -> & _ & _ & Ha2 & _ & Hl2 & _).
  unfold bind at 1, modify at 1, respond.
  intros [= <- <-] _.
  apply single_elem, list_elem_of_filter in Hupd as [Hid Hin].
  eexists t', updated, _, _.
  split; [done|]. split; [done|].
  simpl. rewrite Ha2, Hl2. done.
Qed.

(** C5: a reschedule answered 200 has deleted every AutomationLog row of
    the appointment, so no rule has a log row for it any more and the
    reminder scan can fire each rule again, has kept the rows of other
    appointments, and has left the appointment with status "scheduled" at
    the new time. *)
Theorem reschedule_clears_logs_and_resets_status
    (env : Env) (businessId appointmentId : Z) (t : option Z)
    (w : World) (r : Response) (w' : World) :
  run (rescheduleSlot env businessId appointmentId t) w = (r, w') →
  code r = 200 →
  (∀ l, l ∈ automation_logs w' → log_appointment_id l ≠ appointmentId)
  ∧ (∀ ruleId, logged appointmentId ruleId w' = 0%nat)
  ∧ (∀ l, l ∈ automation_logs w → log_appointment_id l ≠ appointmentId →
          l ∈ automation_logs w')
  ∧ (∃ updated t',
       t = Some t' ∧ r = json 200 (JAppointment updated)
       ∧ updated ∈ appointments w' ∧ appt_id updated = appointmentId)
  ∧ (∀ a t', a ∈ appointments w' → appt_id a = appointmentId → t = Some t' →
             appt_status a = "scheduled" ∧ appointment_time a = t').
Proof.
  intros Hrun Hcode.
  destruct (rescheduleSlot_success _ _ _ _ _ _ _ Hrun Hcode)
    as (t' & updated & m & d & -> & -> & Ha & Hin & Hid & Hl).
  split; [|split; [|split; [|split]]].
  - intros l. rewrite Hl. by intros [? _]%list_elem_of_filter.
  - intros ruleId. unfold logged. rewrite filter_none; [done|].
    intros l. rewrite Hl. intros [? _]%list_elem_of_filter [? _]. done.
  - intros l Hlin Hne. rewrite Hl. by apply list_elem_of_filter.
  - by exists updated, t'.
  - intros a t0 Hain Haid [= <-]. rewrite Ha in Hain.
    by eapply rescheduled_rows.
Qed.

Lemma reschedule_witness :
  automation_logs sampleBooked = [{| log_appointment_id := 1; log_rule_id := 5 |}]
  ∧ code (run (rescheduleSlot (sampleEnv 0) 1 1
                 (Some (slotStartInstant 19876 40))) sampleBooked).1 = 200
  ∧ ∀ l, l ∈ automation_logs
               (run (rescheduleSlot (sampleEnv 0) 1 1
                       (Some (slotStartInstant 19876 40))) sampleBooked).2 →
         log_appointment_id l ≠ 1.
Proof.
  split; [reflexivity|]. split; [by vm_compute|].
  apply (reschedule_clears_logs_and_resets_status (sampleEnv 0) 1 1
           (Some (slotStartInstant 19876 40)) sampleBooked
           (run (rescheduleSlot (sampleEnv 0) 1 1
                   (Some (slotStartInstant 19876 40))) sampleBooked).1
           (run (rescheduleSlot (sampleEnv 0) 1 1
                   (Some (slotStartInstant 19876 40))) sampleBooked).2).
  - by destruct (run _ _).
  - by vm_compute.
Defined.

(** C7 fails on the code: with the clock at 2024-06-02T00:00:00Z, a
    booking for 2024-06-01T13:00:00Z, eleven hours in the past, is
    answered 200 and its row is written; rescheduling that appointment to
    a day of 2023 is answered 200 as well and moves the row. *)
Theorem booking_and_reschedule_accept_past_time :
  let clock := slotStartInstant 19876 0 in
  let past := slotStartInstant 19875 52 in
  let longPast := slotStartInstant 19600 40 in
  let booked := run (createAppointment (sampleEnv clock) 1 sampleRequest)
                    (sampleWorld 1) in
  let moved := run (rescheduleSlot (sampleEnv clock) 1 1 (Some longPast))
                   booked.2 in
  req_appointment_utc_time sampleRequest = Some past
  ∧ past < clock ∧ longPast < clock
  ∧ code booked.1 = 200
  ∧ appointment_time <$> appointments booked.2 = [past]
  ∧ code moved.1 = 200
  ∧ appointment_time <$> appointments moved.2 = [longPast].
Proof. by vm_compute. Qed.

(** ** Explicit status update *)

Lemma filter_id_fmap (id : Z) (g : Appointment → Appointment)
    (rows : list Appointment) :
  (∀ a, appt_id (g a) = appt_id a) →
  filter (fun a => appt_id a = id) (g <$> rows)
  = g <$> filter (fun a => appt_id a = id) rows.
Proof.
  intros Hg. induction rows as [|a rows IH]; [done|].
  rewrite fmap_cons, !filter_cons, Hg.
  case_decide; [rewrite fmap_cons|]; by rewrite IH.
Qed.

Lemma filter_id_business (id businessId : Z) (rows : list Appointment) a :
  filter (fun a => appt_id a = id) rows = [a] →
  appt_business_id a = businessId →
  filter (fun a => appt_id a = id ∧ appt_business_id a = businessId) rows
  = [a].
Proof.
  intros Hid Hb.
  rewrite (list_filter_iff _
             (fun a => appt_business_id a = businessId ∧ appt_id a = id))
    by (intros x; tauto).
  rewrite <- list_filter_filter.
  rewrite Hid, filter_cons, filter_nil. by rewrite decide_True.
Qed.

(** C9: an explicit status update to completed, no_show or cancelled of
    a scheduled appointment of the caller's business is accepted: the
    answer is 200 with the updated row, that row now carries the target
    status and no other row changes.  Any other target value is answered
    400 "Invalid status" and the world is left as it was.  The transition
    is one-way through this handler: it never writes "scheduled", every
    row it changes ends in one of the three target statuses. *)
Theorem explicit_status_update
    (env : Env) (businessId id : Z) (status : string) (w : World) :
  (status ∈ allowedStatuses →
   fault env "fetchError" = None → fault env "error" = None →
   ∀ appointment,
     filter (fun a => appt_id a = id) (appointments w) = [appointment] →
     appt_business_id appointment = businessId →
     appt_status appointment = "scheduled" →
     ∃ w',
       run (updateStatus env businessId id status) w
       = (json 200 (JAppointment (with_status status appointment)), w')
       ∧ appointments w'
         = (fun a => if decide (appt_id a = id) then with_status status a
                     else a) <$> appointments w
       ∧ filter (fun a => appt_id a = id) (appointments w')
         = [with_status status appointment])
  ∧ (status ∉ allowedStatuses →
     run (updateStatus env businessId id status) w
     = (errorJson 400 "Invalid status", w))
  ∧ (("scheduled" ∉ allowedStatuses)
     ∧ ∀ r w', run (updateStatus env businessId id status) w = (r, w') →
         ∀ a', a' ∈ appointments w' →
               a' ∈ appointments w ∨ appt_status a' ∈ allowedStatuses).
Proof.
  split; [|split; [|split]].
  - intros Hallowed Hf1 Hf2 appointment Hone Hbiz Hsched.
    unfold updateStatus. rewrite decide_True by done.
    unfold run, tryCatch, bind at 1, getWorld at 1. rewrite Hf1, Hf2.
    rewrite (filter_id_business _ _ _ _ Hone Hbiz). simpl.
    unfold bind at 1, modify at 1, bind at 1, getWorld at 1. simpl.
    rewrite filter_id_fmap
      by (intros a; case_decide; done).
    rewrite Hone. simpl. rewrite decide_True
      by (assert (Hin : appointment ∈ filter (fun a => appt_id a = id)
                                       (appointments w))
            by (rewrite Hone; left);
          by apply list_elem_of_filter in Hin as [? _]).
    eexists. split; [done|]. simpl. split; [done|].
    rewrite filter_id_fmap by (intros a; case_decide; done).
    rewrite Hone. simpl. rewrite decide_True; [done|].
    assert (Hin : appointment ∈ filter (fun a => appt_id a = id)
                                  (appointments w)) by (rewrite Hone; left).
    by apply list_elem_of_filter in Hin as [? _].
  - intros Hbad. unfold updateStatus. by rewrite decide_False.
  - unfold allowedStatuses. intros Hin.
    repeat (apply elem_of_cons in Hin as [Hin|Hin]; [done|]).
    by apply elem_of_nil in Hin.
  - intros r w'. unfold updateStatus.
    destruct (decide (status ∈ allowedStatuses)) as [Hallowed|Hbad];
      [|intros [= <- <-] a' Hin; by left].
    unfold run, tryCatch, bind at 1, getWorld at 1.
    destruct (fault env "fetchError");
      [intros [= <- <-] a' Hin; by left|].
    destruct (single _) as [appointment|];
      [|intros [= <- <-] a' Hin; by left].
    destruct (fault env "error");
      [intros [= <- <-] a' Hin; by left|].
    unfold bind at 1, modify at 1, bind at 1, getWorld at 1.
    assert (Hrows : ∀ a', a' ∈ appointments
                (set_appointments (fmap (fun a =>
                   if decide (appt_id a = id) then with_status status a
                   else a)) w) →
              a' ∈ appointments w ∨ appt_status a' ∈ allowedStatuses).
    { simpl. intros a' (a0 & -> & Hin0)%list_elem_of_fmap.
      case_decide; [by right|by left]. }
    destruct (single _); intros [= <- <-]; exact Hrows.
Qed.

Lemma explicit_status_update_witness :
  ∃ w',
    run (updateStatus (sampleEnv 0) 1 1 "completed") sampleBooked
    = (json 200 (JAppointment
         (with_status "completed"
            (newAppointment (sampleWorld 1) 1 1 (slotStartInstant 19875 52)
               30 None))), w')
    ∧ appt_status <$> appointments w' = ["completed"].
Proof.
  destruct (proj1 (explicit_status_update (sampleEnv 0) 1 1 "completed"
                     sampleBooked))
    with (appointment := newAppointment (sampleWorld 1) 1 1
                           (slotStartInstant 19875 52) 30 None)
    as (w' & Hrun & Happ & _).
  - unfold allowedStatuses. left.
  - reflexivity.
  - reflexivity.
  - by vm_compute.
  - reflexivity.
  - reflexivity.
  - exists w'. split; [exact Hrun|]. rewrite Happ. by vm_compute.
Defined.

(** ** Automatic no-show *)

Lemma NoDup_fmap_eq {A B} (f : A → B) (l : list A) x y :
  NoDup (f <$> l) → x ∈ l → y ∈ l → f x = f y → x = y.
Proof.
  induction l as [|z l IH]; intros Hnd Hx Hy Hf.
  - by apply elem_of_nil in Hx.
  - rewrite fmap_cons in Hnd. apply NoDup_cons in Hnd as [Hz Hnd].
    apply elem_of_cons in Hx as [->|Hx]; apply elem_of_cons in Hy as [->|Hy].
    + done.
    + exfalso. apply Hz. rewrite Hf. by apply list_elem_of_fmap_2.
    + exfalso. apply Hz. rewrite <- Hf. by apply list_elem_of_fmap_2.
    + by apply IH.
Qed.

Lemma fmap_ext_in {A B} (f g : A → B) (l : list A) :
  (∀ x, x ∈ l → f x = g x) → f <$> l = g <$> l.
Proof.
  intros Hfg. induction l as [|x l IH]; [done|].
  rewrite !fmap_cons. f_equal; [apply Hfg; left|].
  apply IH. intros y Hy. apply Hfg. by right.
Qed.

Lemma noShowRow_id now business a :
  appt_id (noShowRow now business a) = appt_id a.
Proof. unfold noShowRow. by case_decide. Qed.

Lemma markOverdue_effect env now business w :
  fault env "apptError" = None → fault env "updateError" = None →
  NoDup (appt_id <$> appointments w) →
  ∃ w', markOverdue env now business w = Next tt w'
        ∧ businesses w' = businesses w
        ∧ appointments w' = noShowRow now business <$> appointments w.
Proof.
  intros Hf1 Hf2 Hnd.
  unfold markOverdue, bind, getWorld. rewrite Hf1, Hf2.
  set (mine := filter (fun a => appt_business_id a = biz_id business
                                ∧ appt_status a = "scheduled")
                      (appointments w)).
  assert (Hmine : ∀ a, a ∈ filter (overdue now (graceMinutesOf business)) mine
                       ↔ a ∈ appointments w
                         ∧ appt_business_id a = biz_id business
                         ∧ appt_status a = "scheduled"
                         ∧ overdue now (graceMinutesOf business) a).
  { intros a. unfold mine. rewrite !list_elem_of_filter. tauto. }
  destruct (decide (is_Some None ∨ mine = [])) as [[[? [=]]|Hempty]|Hne].
  - exists w. split; [done|]. split; [done|].
    rewrite <- (list_fmap_id (appointments w)) at 1.
    apply fmap_ext_in. intros a Ha. unfold noShowRow.
    rewrite decide_False; [done|]. intros (Hb & Hs & Ho).
    assert (Hin : a ∈ filter (overdue now (graceMinutesOf business)) mine)
      by (by apply Hmine).
    rewrite Hempty, filter_nil in Hin. by apply elem_of_nil in Hin.
  - case_decide as Hids.
    + exists w. split; [done|]. split; [done|].
      rewrite <- (list_fmap_id (appointments w)) at 1.
      apply fmap_ext_in. intros a Ha. unfold noShowRow.
      rewrite decide_False; [done|]. intros (Hb & Hs & Ho).
      assert (Hin : a ∈ filter (overdue now (graceMinutesOf business)) mine)
        by (by apply Hmine).
      apply fmap_nil_inv in Hids. rewrite Hids in Hin.
      by apply elem_of_nil in Hin.
    + eexists. split; [done|]. split; [done|]. simpl.
      apply fmap_ext_in. intros a Ha. unfold noShowRow.
      destruct (decide (appt_id a ∈ appt_id <$> filter _ mine)) as [Hin|Hin].
      * apply list_elem_of_fmap in Hin as (a0 & Hid & Hin0).
        apply Hmine in Hin0 as (Ha0 & Hcond).
        assert (a = a0) as <- by (by eapply (NoDup_fmap_eq appt_id)).
        by rewrite decide_True.
      * rewrite decide_False; [done|]. intros Hcond. apply Hin.
        apply list_elem_of_fmap_2. by apply Hmine.
Qed.

Lemma forEach_markOverdue env now bs w :
  fault env "apptError" = None → fault env "updateError" = None →
  NoDup (appt_id <$> appointments w) →
  ∃ w', forEach bs (markOverdue env now) w = Next tt w'
        ∧ businesses w' = businesses w
        ∧ appointments w' = noShowRows now bs <$> appointments w.
Proof.
  intros Hf1 Hf2. revert w. induction bs as [|b bs IH]; intros w Hnd.
  - exists w. split; [done|]. split; [done|].
    unfold noShowRows. simpl. by rewrite list_fmap_id.
  - destruct (markOverdue_effect env now b w Hf1 Hf2 Hnd)
      as (w1 & Hstep & Hb1 & Ha1).
    destruct (IH w1) as (w2 & Hrest & Hb2 & Ha2).
    { rewrite Ha1, <- list_fmap_compose.
      erewrite (fmap_ext_in _ appt_id); [done|].
      intros a _. apply noShowRow_id. }
    exists w2. cbn [forEach]. unfold bind. rewrite Hstep, Hrest.
    split; [done|]. split; [congruence|].
    rewrite Ha2, Ha1, <- list_fmap_compose. done.
Qed.

Lemma noShowRows_settled now bs a :
  appt_status a ≠ "scheduled" → noShowRows now bs a = a.
Proof.
  intros Hs. unfold noShowRows. induction bs as [|b bs IH]; [done|].
  simpl. unfold noShowRow at 2. rewrite decide_False by tauto. done.
Qed.

Lemma noShowRows_other now bs a :
  (∀ b, b ∈ bs → biz_id b ≠ appt_business_id a) → noShowRows now bs a = a.
Proof.
  unfold noShowRows. induction bs as [|b bs IH]; intros Hall; [done|].
  simpl. unfold noShowRow at 2.
  rewrite decide_False.
  - apply IH. intros b' Hb'. apply Hall. by right.
  - intros (Hb & _). apply (Hall b); [left|done].
Qed.

Lemma noShowRows_scheduled now bs business a :
  NoDup (biz_id <$> bs) → business ∈ bs →
  biz_id business = appt_business_id a → appt_status a = "scheduled" →
  noShowRows now bs a
  = if decide (overdue now (graceMinutesOf business) a)
    then with_status "no_show" a else a.
Proof.
  intros Hnd Hin Hbiz Hs. induction bs as [|b bs IH].
  - by apply elem_of_nil in Hin.
  - rewrite fmap_cons in Hnd. apply NoDup_cons in Hnd as [Hb Hnd].
    change (noShowRows now (b :: bs) a)
      with (noShowRows now bs (noShowRow now b a)).
    apply elem_of_cons in Hin as [<-|Hin].
    + unfold noShowRow.
      destruct (decide (overdue now (graceMinutesOf business) a)) as [Ho|Ho].
      * rewrite decide_True by done. by apply noShowRows_settled.
      * rewrite decide_False by tauto. apply noShowRows_other.
        intros b' Hb' Heq. apply Hb. rewrite Hbiz, <- Heq.
        by apply list_elem_of_fmap_2.
    + unfold noShowRow at 1. rewrite decide_False; [by apply IH|].
      intros (Heq & _). apply Hb. rewrite <- Heq, <- Hbiz.
      by apply list_elem_of_fmap_2.
Qed.

Lemma noShowRows_id now bs a : appt_id (noShowRows now bs a) = appt_id a.
Proof.
  unfold noShowRows. revert a. induction bs as [|b bs IH]; intros a; [done|].
  simpl. rewrite IH. apply noShowRow_id.
Qed.

Lemma graceMinutes_default business :
  (appointment_settings business = None
   ∨ ∃ settings, appointment_settings business = Some settings
                 ∧ no_show_grace_minutes settings = None) →
  graceMinutesOf business = 30.
Proof.
  unfold graceMinutesOf. intros [->|(settings & -> & ->)]; done.
Qed.

(** C6: one scan of the no-show job, the store answering without error,
    turns a scheduled appointment into no_show exactly when now is
    strictly later than its start plus the grace minutes of its business
    (30 when the setting is absent), and leaves it as it is otherwise:
    after the scan the row of that id is the no_show copy in the first
    case and the unchanged row in the second. *)
Theorem no_show_marking
    (env : Env) (w : World) (a : Appointment) (business : Business)
    (r : Response) (w' : World) :
  noFaults env →
  NoDup (appt_id <$> appointments w) →
  NoDup (biz_id <$> businesses w) →
  a ∈ appointments w → appt_status a = "scheduled" →
  business ∈ businesses w → biz_id business = appt_business_id a →
  run (autoMarkNoShows env) w = (r, w') →
  let graceMinutes :=
    match appointment_settings business with
    | Some settings => default 30 (no_show_grace_minutes settings)
    | None => 30
    end in
  let a' := if decide (appointment_time a + graceMinutes * msPerMinute < now env)
            then with_status "no_show" a else a in
  a' ∈ appointments w'
  ∧ (∀ x, x ∈ appointments w' → appt_id x = appt_id a → x = a')
  ∧ (appointment_time a + graceMinutes * msPerMinute < now env →
     appt_status a' = "no_show")
  ∧ (now env ≤ appointment_time a + graceMinutes * msPerMinute →
     a' = a).
Proof.
  intros Hnf Hnd Hndb Hin Hs Hbin Hbiz Hrun graceMinutes a'.
  unfold autoMarkNoShows, run, tryCatch, bind at 1, getWorld at 1 in Hrun.
  rewrite Hnf in Hrun.
  rewrite decide_False in Hrun.
  2:{ intros [[? [=]]|Hempty]. rewrite Hempty in Hbin.
      by apply elem_of_nil in Hbin. }
  destruct (forEach_markOverdue env (now env) (businesses w) w
              (Hnf _) (Hnf _) Hnd) as (w1 & Hscan & _ & Happ).
  rewrite Hscan in Hrun. injection Hrun as <- <-.
  assert (Hrow : noShowRows (now env) (businesses w) a = a').
  { by rewrite (noShowRows_scheduled _ _ business). }
  split; [|split; [|split]].
  - rewrite Happ, <- Hrow. by apply list_elem_of_fmap_2.
  - intros x Hx Hid. rewrite Happ in Hx.
    apply list_elem_of_fmap in Hx as (a0 & -> & Ha0).
    assert (Hid0 : appt_id a0 = appt_id a)
      by (by rewrite <- Hid, noShowRows_id).
    assert (a0 = a) as -> by (by eapply (NoDup_fmap_eq appt_id)).
    done.
  - intros Hlate. unfold a'. by rewrite decide_True.
  - intros Hearly. unfold a'. rewrite decide_False; [done|lia].
Qed.

(** The booked sample appointment (13:00, grace 30 minutes): a scan one
    millisecond after 13:30 marks it, a scan at 13:30 sharp does not. *)
Lemma no_show_marking_witness :
  let a := newAppointment (sampleWorld 1) 1 1 (slotStartInstant 19875 52)
             30 None in
  let late := sampleEnv (slotStartInstant 19875 52 + 30 * msPerMinute + 1) in
  a ∈ appointments sampleBooked
  ∧ with_status "no_show" a
    ∈ appointments (run (autoMarkNoShows late) sampleBooked).2.
Proof.
  intros a late. split; [vm_compute; left|].
  pose proof (no_show_marking late sampleBooked a (sampleBusiness 1)
                (run (autoMarkNoShows late) sampleBooked).1
                (run (autoMarkNoShows late) sampleBooked).2) as H.
  cbv zeta in H. apply H.
  - intros label. reflexivity.
  - apply (bool_decide_unpack _). by vm_compute.
  - apply (bool_decide_unpack _). by vm_compute.
  - vm_compute. left.
  - reflexivity.
  - vm_compute. left.
  - reflexivity.
  - by destruct (run _ _).
Defined.

Example no_show_not_before_grace_ends :
  let onTime := sampleEnv (slotStartInstant 19875 52 + 30 * msPerMinute) in
  appt_status <$> appointments (run (autoMarkNoShows onTime) sampleBooked).2
  = ["scheduled"].
Proof. by vm_compute. Qed.

(** ** Reminder scan *)

Lemma preserves_ret {A} P (a : A) : preserves P (ret a).
Proof. by intros w Hw. Qed.

Lemma preserves_respond {A} P r : preserves P (@respond A r).
Proof. by intros w Hw. Qed.

Lemma preserves_bind {A B} P (m : M A) (k : A → M B) :
  preserves P m → (∀ a, preserves P (k a)) → preserves P (bind m k).
Proof.
  intros Hm Hk w Hw. unfold bind. specialize (Hm w Hw).
  destruct (m w) as [a w1|r w1|e w1]; [by apply Hk|done|done].
Qed.

Lemma preserves_getWorld P {B} (k : World → M B) :
  (∀ w, preserves P (k w)) → preserves P (bind getWorld k).
Proof. intros Hk. apply preserves_bind; [by intros w Hw|done]. Qed.

Lemma preserves_tryCatch {A} P (m : M A) h :
  preserves P m → (∀ e, preserves P (h e)) → preserves P (tryCatch m h).
Proof.
  intros Hm Hh w Hw. unfold tryCatch. specialize (Hm w Hw).
  destruct (m w) as [a w1|r w1|e w1]; [done|done|by apply Hh].
Qed.

Lemma preserves_forEach {A} P (xs : list A) body :
  (∀ x, preserves P (body x)) → preserves P (forEach xs body).
Proof.
  intros Hbody. induction xs as [|x xs IH]; [apply preserves_ret|].
  cbn [forEach]. apply preserves_bind; [apply Hbody|by intros _].
Qed.

Lemma length_filter_snoc {A} (P : A → Prop) `{!∀ x, Decision (P x)}
    (l : list A) x :
  length (filter P (l ++ [x]))
  = (length (filter P l) + (if decide (P x) then 1 else 0))%nat.
Proof.
  rewrite filter_app, length_app, filter_cons, filter_nil.
  by case_decide.
Qed.

Lemma single_length {A} (rows : list A) :
  single rows = None ↔ length rows ≠ 1%nat.
Proof. destruct rows as [|x [|y rows]]; simpl; split; intros; done. Qed.

(** What one firing does. *)
Lemma fireRule_skips env business rule appt w :
  logged (appt_id appt) (rule_id rule) w = 1%nat →
  fireRule env business rule appt w = Next tt w.
Proof.
  unfold logged, fireRule, bind, getWorld. intros Hone.
  destruct (single _) eqn:Hs; [done|].
  apply single_length in Hs. done.
Qed.

Lemma fireRule_dispatches env business rule appt w customer :
  logged (appt_id appt) (rule_id rule) w = 0%nat →
  single (filter (fun c => cust_id c = appt_customer_id appt) (customers w))
  = Some customer →
  ∃ text status w',
    fireRule env business rule appt w = Next tt w'
    ∧ customers w' = customers w
    ∧ outbox w' = outbox w ++ [{| dsp_phone := cust_phone customer;
                                  dsp_text := text; dsp_status := status |}]
    ∧ reminders w' = reminders w ++ [{| fired_appointment := appt_id appt;
                                        fired_rule := rule_id rule;
                                        fired_status := status |}]
    ∧ (status ≠ "submitted" → automation_logs w' = automation_logs w)
    ∧ (status = "submitted" →
       automation_logs w'
       = automation_logs w ++ [{| log_appointment_id := appt_id appt;
                                  log_rule_id := rule_id rule |}]).
Proof.
  unfold logged, fireRule, bind, getWorld. intros Hzero Hcust.
  destruct (single (filter _ (automation_logs w))) eqn:Hs.
  { apply single_elem in Hs.
    destruct (filter _ (automation_logs w)); [by apply elem_of_nil in Hs|done]. }
  rewrite Hcust. unfold sendWhatsAppMessage, modify.
  set (status := deliveryStatus _ _ _ _).
  destruct (decide (status = "submitted")) as [Hsub|Hsub].
  - eexists _, status, _. split; [done|]. simpl. by repeat split.
  - eexists _, status, _. unfold ret. split; [done|]. simpl. by repeat split.
Qed.

Lemma fireRule_onceOnly env business rule appt :
  preserves onceOnly (fireRule env business rule appt).
Proof.
  intros w Hinv. unfold fireRule, bind, getWorld.
  destruct (single (filter _ (automation_logs w))) eqn:Hs; [done|].
  destruct (single (filter _ (customers w))); [|done].
  unfold sendWhatsAppMessage, modify.
  set (status := deliveryStatus _ _ _ _).
  apply single_length in Hs.
  assert (Hzero : logged (appt_id appt) (rule_id rule) w = 0%nat).
  { destruct (Hinv (appt_id appt) (rule_id rule)) as [_ Hle].
    unfold logged in *. lia. }
  destruct (decide (status = "submitted")) as [Hsub|Hsub].
  - intros a r. destruct (Hinv a r) as [H1 H2].
    unfold sentFor, logged in *. simpl. rewrite !length_filter_snoc. simpl.
    destruct (decide (appt_id appt = a ∧ rule_id rule = r)) as [[<- <-]|Hne].
    + rewrite !decide_True by done. lia.
    + rewrite !decide_False by tauto. lia.
  - unfold ret. intros a r. destruct (Hinv a r) as [H1 H2].
    unfold sentFor, logged in *. simpl. rewrite !length_filter_snoc. simpl.
    rewrite decide_False by tauto. lia.
Qed.

Lemma automationScan_onceOnly env : preserves onceOnly (automationScan env).
Proof.
  unfold automationScan. apply preserves_tryCatch; [|intros; apply preserves_ret].
  apply preserves_getWorld. intros w.
  case_decide; [apply preserves_respond|].
  apply preserves_forEach. intros business. unfold scanBusiness.
  apply preserves_getWorld. intros w1.
  case_decide; [apply preserves_ret|].
  apply preserves_forEach. intros rule. unfold scanRule.
  apply preserves_getWorld. intros w2.
  case_decide; [apply preserves_ret|].
  apply preserves_forEach. intros appt. apply fireRule_onceOnly.
Qed.

Lemma run_preserves {A} P (m : M A) w :
  preserves P m → P w → P (run m w).2.
Proof.
  intros Hm Hw. specialize (Hm w Hw). unfold run.
  by destruct (m w).
Qed.

(** C3: the automation scan is idempotent.  From a store with at most
    one log row per (appointment, rule) pair and no reminder accepted
    without a log row, two scans in a row (whatever the clock readings and
    whatever the gateway answers) leave, for every pair, at most one
    accepted reminder and at most one AutomationLog row.  A firing for a
    pair that has its log row does nothing.  A firing for a pair without
    log row dispatches once; when the dispatch is not "submitted" the log
    table is left as it was, so the pair still has no row and the next
    firing dispatches again; when it is "submitted" exactly the row of the
    pair is added. *)
Theorem reminder_scan_idempotent (env1 env2 : Env) (w : World) :
  onceOnly w →
  let w2 := (run (automationScan env2) (run (automationScan env1) w).2).2 in
  (∀ a r, (sentFor a r w2 ≤ 1)%nat ∧ (logged a r w2 ≤ 1)%nat)
  ∧ (∀ env business rule appt w0,
       logged (appt_id appt) (rule_id rule) w0 = 1%nat →
       fireRule env business rule appt w0 = Next tt w0)
  ∧ (∀ env business rule appt w0 customer,
       logged (appt_id appt) (rule_id rule) w0 = 0%nat →
       single (filter (fun c => cust_id c = appt_customer_id appt)
                      (customers w0)) = Some customer →
       ∃ text status w',
         fireRule env business rule appt w0 = Next tt w'
         ∧ outbox w'
           = outbox w0 ++ [{| dsp_phone := cust_phone customer;
                              dsp_text := text; dsp_status := status |}]
         ∧ (status ≠ "submitted" →
            automation_logs w' = automation_logs w0
            ∧ logged (appt_id appt) (rule_id rule) w' = 0%nat
            ∧ customers w' = customers w0)
         ∧ (status = "submitted" →
            automation_logs w'
            = automation_logs w0 ++ [{| log_appointment_id := appt_id appt;
                                        log_rule_id := rule_id rule |}]
            ∧ logged (appt_id appt) (rule_id rule) w' = 1%nat)).
Proof.
  intros Hinv w2. split; [|split].
  - assert (Hw2 : onceOnly w2).
    { apply run_preserves; [apply automationScan_onceOnly|].
      apply run_preserves; [apply automationScan_onceOnly|done]. }
    intros a r. destruct (Hw2 a r). lia.
  - intros. by apply fireRule_skips.
  - intros env business rule appt w0 customer Hzero Hcust.
    destruct (fireRule_dispatches env business rule appt w0 customer Hzero Hcust)
      as (text & status & w' & Hrun & Hc & Ho & Hr & Hfail & Hok).
    exists text, status, w'. split; [done|]. split; [done|]. split.
    + intros Hne. specialize (Hfail Hne). split; [done|]. split; [|done].
      unfold logged in *. by rewrite Hfail.
    + intros Heq. specialize (Hok Heq). split; [done|].
      unfold logged in *. rewrite Hok, length_filter_snoc, Hzero. simpl.
      by rewrite decide_True.
Qed.

Lemma reminder_scan_witness :
  let first := slotStartInstant 19875 52 - 120 * msPerMinute + 10000 in
  let w2 := (run (automationScan (sampleEnv (first + 30000)))
               (run (automationScan (sampleEnv first)) sampleScheduled).2).2 in
  (sentFor 1 5 w2 ≤ 1)%nat ∧ (logged 1 5 w2 ≤ 1)%nat ∧ logged 1 5 w2 = 1%nat.
Proof.
  intros first w2.
  destruct (proj1 (reminder_scan_idempotent (sampleEnv first)
                     (sampleEnv (first + 30000)) sampleScheduled
                     ltac:(intros a r; unfold sentFor, logged; simpl; lia))
              1 5) as [H1 H2].
  split; [exact H1|]. split; [exact H2|]. by vm_compute.
Defined.

(** A failed dispatch is retried by the next scan of the same window,
    and once accepted is never repeated. *)
Example reminder_retried_then_sent_once :
  let first := slotStartInstant 19875 52 - 120 * msPerMinute + 10000 in
  let w1 := (run (automationScan (gatewayDown (sampleEnv first)))
               sampleScheduled).2 in
  let w2 := (run (automationScan (sampleEnv (first + 30000))) w1).2 in
  let w3 := (run (automationScan (sampleEnv (first + 40000))) w2).2 in
  automation_logs w1 = [] ∧ fired_status <$> reminders w1 = ["failed"]
  ∧ automation_logs w2 = [{| log_appointment_id := 1; log_rule_id := 5 |}]
  ∧ fired_status <$> reminders w2 = ["failed"; "submitted"]
  ∧ dsp_text <$> outbox w2
    = ["Reminder: your service on 01 Jun, 09:00 AM";
       "Reminder: your service on 01 Jun, 09:00 AM"]
  ∧ w3 = w2.
Proof. by vm_compute. Qed.

(** ** Delivery retry *)

Lemma retryBatch_bounded rows :
  (length (retryBatch rows) ≤ 10)%nat
  ∧ ∀ m, m ∈ retryBatch rows →
         m ∈ rows ∧ msg_status m = "failed" ∧ msg_retry_count m < 3.
Proof.
  unfold retryBatch. split.
  - rewrite length_take. lia.
  - intros m Hin. apply subseteq_take in Hin.
    apply list_elem_of_filter in Hin. tauto.
Qed.

(** A message that has reached three retries is never picked again. *)
Lemma retryBatch_exhausted rows m :
  3 ≤ msg_retry_count m → m ∉ retryBatch rows.
Proof.
  intros Hmax Hin. apply retryBatch_bounded in Hin as (_ & _ & Hlt). lia.
Qed.

(** Whatever the gateway answers, a message whose customer is found is
    marked "sent": the status [sendWhatsAppMessage] returns is dropped,
    and the function never throws. *)
Lemma retryMessage_marks_sent env getCustomerPhone msg w :
  (∀ w0, ∃ customer,
     getCustomerPhone (msg_customer_id msg) w0 = Next customer w0) →
  ∃ w', retryMessage env getCustomerPhone msg w = Next tt w'
        ∧ ∀ m, m ∈ messages w' → msg_id m = msg_id msg →
               msg_status m = "sent".
Proof.
  intros Hget. unfold retryMessage, tryCatch, bind at 1, updateMessage at 1,
    modify at 1, bind at 1.
  match goal with
  | |- context [getCustomerPhone _ ?w0] => destruct (Hget w0) as (c & ->)
  end.
  unfold bind, sendWhatsAppMessage, updateMessage, modify.
  eexists. split; [done|]. simpl.
  intros m Hin Hid.
  apply list_elem_of_fmap in Hin as (m0 & -> & Hin).
  case_decide as Hm0; [done|].
  exfalso. apply Hm0.
  apply list_elem_of_fmap in Hin as (m1 & -> & Hin). simpl in Hid.
  case_decide; simpl in *; done.
Qed.

(** C8 fails on the code: with the gateway unreachable the resend of the
    sample message fails ([sendWhatsAppMessage] reports "failed"), yet the
    job marks the message "sent" and leaves retry count and error text as
    they were.  With the helper unbound, as in the repository, no resend
    is attempted at all: every picked message goes back to "failed" with
    one more retry and the reference error as text. *)
Theorem retry_marks_failed_resend_as_sent :
  let w1 := (run (retryFailedMessages (gatewayDown (sampleEnv 0)) lookupCustomer)
               sampleFailed).2 in
  let w2 := (run (retryFailedMessages (sampleEnv 0) undefinedHelper)
               sampleFailed).2 in
  dsp_status <$> outbox w1 = ["failed"]
  ∧ msg_status <$> messages w1 = ["sent"]
  ∧ msg_retry_count <$> messages w1 = [1]
  ∧ msg_error <$> messages w1 = [Some "timeout"]
  ∧ outbox w2 = []
  ∧ msg_status <$> messages w2 = ["failed"]
  ∧ msg_retry_count <$> messages w2 = [2]
  ∧ msg_error <$> messages w2 = [Some "getCustomerPhone is not defined"].
Proof. by vm_compute. Qed.

(* ================================================================== *)
(** * Part III. Further properties of the code                         *)
(* ================================================================== *)

(** ** Slot load as a count *)

Lemma occupancy_Permutation l1 l2 slot :
  l1 ≡ₚ l2 → occupancy l1 slot = occupancy l2 slot.
Proof. intros Hp. unfold occupancy. by rewrite Hp. Qed.

(** X1: [buildSlotLoadMap] counts.  The load it records for a slot is
    the number of appointments of the list whose range holds the slot; a
    slot is a key of the map exactly when some appointment covers it, and
    a recorded load is at least 1 and at most the number of
    appointments. *)
Theorem buildSlotLoadMap_counts (appointments : list Appointment) (slot : Z) :
  slotLoadAt (buildSlotLoadMap appointments) slot
  = Z.of_nat (length (filter
      (fun a => slot ∈ getSlotRange (utcMinutesOfDay (appointment_time a))
                                    (duration_minutes a)) appointments))
  ∧ (is_Some (buildSlotLoadMap appointments !! slot)
     ↔ ∃ a, a ∈ appointments
            ∧ slot ∈ getSlotRange (utcMinutesOfDay (appointment_time a))
                                  (duration_minutes a))
  ∧ (∀ load, buildSlotLoadMap appointments !! slot = Some load →
             1 ≤ load ≤ Z.of_nat (length appointments)).
Proof.
  split; [apply slotLoadAt_buildSlotLoadMap|].
  rewrite lookup_buildSlotLoadMap.
  pose proof (occupancy_nonneg appointments slot) as Hnn.
  assert (Hpos : occupancy appointments slot ≠ 0
                 ↔ ∃ a, a ∈ appointments ∧ slot ∈ slotsOf a).
  { unfold occupancy. split.
    - intros Hne.
      destruct (filter (fun a => slot ∈ slotsOf a) appointments)
        as [|a l] eqn:Hf; [done|].
      exists a. assert (Hin : a ∈ filter (fun a => slot ∈ slotsOf a) appointments)
        by (rewrite Hf; left).
      apply list_elem_of_filter in Hin. tauto.
    - intros (a & Hin & Hs) Hz.
      assert (Hin' : a ∈ filter (fun a => slot ∈ slotsOf a) appointments)
        by (by apply list_elem_of_filter).
      destruct (filter _ appointments); [by apply elem_of_nil in Hin'|done]. }
  split.
  - case_decide as Hz; split.
    + by intros [? ?].
    + intros Hex. by apply Hpos in Hex.
    + intros _. by apply Hpos.
    + by intros _.
  - intros load. case_decide; [done|]. intros [= <-].
    split; [lia|]. unfold occupancy.
    pose proof (length_filter (fun a => slot ∈ slotsOf a) appointments). lia.
Qed.

(** X2: the load map does not depend on the order in which the store
    returns the appointments. *)
Theorem buildSlotLoadMap_order_irrelevant (l1 l2 : list Appointment) :
  l1 ≡ₚ l2 → buildSlotLoadMap l1 = buildSlotLoadMap l2.
Proof.
  intros Hp. apply map_eq. intros slot.
  rewrite !lookup_buildSlotLoadMap. by rewrite (occupancy_Permutation l1 l2).
Qed.

Lemma buildSlotLoadMap_order_witness :
  buildSlotLoadMap
    [newAppointment (sampleWorld 1) 1 1 (slotStartInstant 19875 52) 30 None;
     newAppointment (sampleWorld 1) 1 2 (slotStartInstant 19875 53) 15 None]
  = buildSlotLoadMap
      [newAppointment (sampleWorld 1) 1 2 (slotStartInstant 19875 53) 15 None;
       newAppointment (sampleWorld 1) 1 1 (slotStartInstant 19875 52) 30 None].
Proof.
  apply buildSlotLoadMap_order_irrelevant. apply Permutation_swap.
Defined.

(** ** Availability shrinks as the day fills *)

Lemma occupancy_app_le l more slot :
  occupancy l slot ≤ occupancy (l ++ more) slot.
Proof.
  rewrite occupancy_app. pose proof (occupancy_nonneg more slot). lia.
Qed.

(** X3: more appointments or a lower capacity never open a start: a
    start reported available with the appointments [appointments ++ more]
    and capacity [m'] is reported available with [appointments] alone and
    any capacity [m >= m']. *)
Theorem availability_shrinks_as_day_fills
    (appointments more : list Appointment) (d m m' start : Z) :
  0 < d → m' ≤ m →
  dailyAvailability (buildSlotLoadMap (appointments ++ more)) d m' !! start
  = Some true →
  dailyAvailability (buildSlotLoadMap appointments) d m !! start = Some true.
Proof.
  intros Hd Hm. rewrite !lookup_dailyAvailability by done.
  case_decide; [|done]. intros [= Hfree]. f_equal.
  apply capacityCheck_true. intros slot Hin.
  apply capacityCheck_true with (slot := slot) in Hfree; [|done].
  rewrite slotLoadAt_buildSlotLoadMap in *.
  pose proof (occupancy_app_le appointments more slot). lia.
Qed.

Lemma availability_shrinks_witness :
  dailyAvailability (buildSlotLoadMap []) 30 2 !! 810 = Some true.
Proof.
  apply (availability_shrinks_as_day_fills []
           [newAppointment (sampleWorld 1) 1 1 (slotStartInstant 19875 52)
              30 None] 30 2 1 810); [lia|lia|by vm_compute].
Defined.

(** ** The availability handler *)

(** X4: the availability handler never writes.  It checks the duration
    before the date: an absent or non-positive duration is answered 400
    whatever the date; a duration above 1440 minutes is answered 200 with
    no start at all; otherwise the answer is the availability map for the
    load of that day, the appointment named by [excludeAppointmentId]
    left out, with capacity 1 when the business row or its setting is
    missing. *)
Theorem getAvailability_read_only
    (env : Env) (businessId : Z) (date excludeAppointmentId duration : option Z)
    (w : World) :
  (run (getAvailability env businessId date excludeAppointmentId duration) w).2 = w
  ∧ ((duration = None ∨ ∃ d, duration = Some d ∧ d ≤ 0) →
     (run (getAvailability env businessId date excludeAppointmentId duration) w).1
     = errorJson 400 "duration_minutes is required")
  ∧ (∀ d day, duration = Some d → 0 < d → date = Some day →
       fault env "error" = None →
       (run (getAvailability env businessId date excludeAppointmentId duration) w).1
       = json 200 (JAvailability SLOT_SIZE_MINUTES
           (dailyAvailability
              (buildSlotLoadMap
                 (scheduledOnDay businessId day excludeAppointmentId
                    (appointments w)))
              d (maxPerSlotOf (selectBusiness businessId w))))
       ∧ (24 * 60 < d →
          dailyAvailability
            (buildSlotLoadMap
               (scheduledOnDay businessId day excludeAppointmentId
                  (appointments w)))
            d (maxPerSlotOf (selectBusiness businessId w)) = ∅)).
Proof.
  unfold getAvailability, run, bind, getWorld, respond.
  split; [|split].
  - destruct duration as [d|]; [|done]. case_decide; [done|].
    destruct date; [|done]. by destruct (fault env "error").
  - intros [->|(d & -> & Hd)]; [done|]. by rewrite decide_True.
  - intros d day -> Hd -> Hf. rewrite decide_False by lia. rewrite Hf.
    split; [done|]. intros Hlong. apply map_eq. intros start.
    rewrite lookup_dailyAvailability, lookup_empty by done.
    rewrite decide_False; [done|]. unfold candidateStart. lia.
Qed.

(** ** Customer resolution *)

Lemma NoDup_snoc_fresh (ids : list Z) : NoDup ids → NoDup (ids ++ [freshId ids]).
Proof.
  intros Hnd. apply NoDup_app. split; [done|]. split; [|apply NoDup_singleton].
  intros x Hx [->|[]%elem_of_nil]%elem_of_cons.
  apply freshId_gt in Hx. lia.
Qed.

(** X5: customer resolution never overwrites a name.  With unique
    customer ids, the customer it yields belongs to the requested
    business and phone; every row that had a non-empty name is still in
    the table as it was; the table grows by at most one row and keeps
    unique ids; and when the request carries a name, the customer has a
    non-empty name afterwards.  When the store refuses the insert of a new
    customer, nothing is written. *)
Theorem findOrCreateCustomer_keeps_names
    (env : Env) (businessId : Z) (phone name : string) (w : World) :
  NoDup (cust_id <$> customers w) →
  match findOrCreateCustomer env businessId phone name w with
  | Next customer w' =>
      cust_business_id customer = businessId ∧ cust_phone customer = phone
      ∧ (∀ c n, c ∈ customers w → cust_name c = Some n → n ≠ "" →
                c ∈ customers w')
      ∧ (length (customers w) ≤ length (customers w')
         ≤ S (length (customers w)))%nat
      ∧ NoDup (cust_id <$> customers w')
      ∧ (name ≠ "" →
         ∃ c n, c ∈ customers w' ∧ cust_id c = cust_id customer
                ∧ cust_name c = Some n ∧ n ≠ "")
  | Return r w' => w' = w
  | Throw _ _ => False
  end.
Proof.
  intros Hnd. unfold findOrCreateCustomer, bind, getWorld, modify, ret, respond.
  destruct (single _) as [customer|] eqn:Hsingle.
  - apply single_elem, list_elem_of_filter in Hsingle as [[Hb Hp] Hin].
    case_decide as Hfill.
    + destruct Hfill as [Hnoname Hname]. simpl.
      split; [done|]. split; [done|]. split.
      { intros c n Hc Hn Hne. apply list_elem_of_fmap. exists c. split; [|done].
        rewrite decide_False; [done|]. intros Hid.
        assert (c = customer) as -> by (by eapply (NoDup_fmap_eq cust_id)).
        destruct Hnoname as [Hn'|Hn']; rewrite Hn' in Hn; [done|].
        by injection Hn as <-. }
      split; [rewrite length_fmap; lia|]. split.
      { rewrite <- list_fmap_compose.
        erewrite (fmap_ext_in _ cust_id); [done|].
        intros c _. simpl. by case_decide. }
      intros _. exists (with_cust_name name customer), name.
      split; [|done]. apply list_elem_of_fmap. exists customer.
      split; [|done]. by rewrite decide_True.
    + split; [done|]. split; [done|]. split; [done|].
      split; [lia|]. split; [done|]. intros Hname.
      destruct (cust_name customer) as [n|] eqn:Hn.
      * exists customer, n. split; [done|]. split; [done|]. split; [done|].
        intros ->. apply Hfill. split; [by right|done].
      * exfalso. apply Hfill. split; [by left|done].
  - destruct (fault env "customers.insert") as [e|]; [done|]. simpl.
    split; [done|]. split; [done|]. split.
    { intros c n Hc _ _. apply elem_of_app. by left. }
    split; [rewrite length_app; simpl; lia|]. split.
    { rewrite fmap_app. simpl. by apply NoDup_snoc_fresh. }
    intros Hname. eexists _, name. split; [apply elem_of_app; right; left|].
    simpl. rewrite decide_False by done. done.
Qed.

Lemma findOrCreateCustomer_witness :
  NoDup (cust_id <$> customers sampleFailed)
  ∧ ∀ customer w',
      findOrCreateCustomer (sampleEnv 0) 1 "15550100" "Another name"
        sampleFailed = Next customer w' →
      cust_phone customer = "15550100"
      ∧ NoDup (cust_id <$> customers w').
Proof.
  assert (Hnd : NoDup (cust_id <$> customers sampleFailed))
    by (apply (bool_decide_unpack _); by vm_compute).
  split; [exact Hnd|]. intros customer w' Heq.
  pose proof (findOrCreateCustomer_keeps_names (sampleEnv 0) 1 "15550100"
                "Another name" sampleFailed Hnd) as H.
  rewrite Heq in H. tauto.
Defined.

(** ** Booking: validation and bookkeeping *)







(** ** Reschedule: capacity without the appointment's own row *)




(** The booked sample appointment alone on its day, capacity 1: moving
    it a quarter of an hour later, onto a slot it occupies itself, is
    accepted. *)
Example reschedule_onto_own_slot :
  let moved := run (rescheduleSlot (sampleEnv 0) 1 1
                      (Some (slotStartInstant 19875 53))) sampleBooked in
  code moved.1 = 200
  ∧ slotsOf <$> appointments sampleBooked = [[52; 53]]
  ∧ slotsOf <$> appointments moved.2 = [[53; 54]].
Proof. by vm_compute. Qed.

(** ** Status update and reschedule: what is written, and for whom *)

Lemma updateStatus_cases env businessId id status w r w' :
  run (updateStatus env businessId id status) w = (r, w') →
  (w' = w ∧ code r ≠ 200)
  ∨ (∃ appointment,
       status ∈ allowedStatuses
       ∧ single (filter (fun a => appt_id a = id
                                  ∧ appt_business_id a = businessId)
                        (appointments w)) = Some appointment
       ∧ w' = set_appointments (fmap (fun a =>
                if decide (appt_id a = id) then with_status status a
                else a)) w).
Proof.
  unfold updateStatus.
  destruct (decide (status ∈ allowedStatuses)) as [Hallowed|Hbad];
    [|intros [= <- <-]; by left].
  unfold run, tryCatch, bind at 1, getWorld at 1.
  destruct (fault env "fetchError"); [intros [= <- <-]; by left|].
  destruct (single _) as [appointment|] eqn:Hs; [|intros [= <- <-]; by left].
  destruct (fault env "error"); [intros [= <- <-]; by left|].
  unfold bind at 1, modify at 1, bind at 1, getWorld at 1.
  intros Hrun. right. exists appointment. split; [done|]. split; [done|].
  match goal with
  | _ : context [set_appointments (fmap ?f) w] |- _ =>
      set (w1 := set_appointments (fmap f) w) in *
  end.
  destruct (single (filter _ (appointments w1))); by injection Hrun as <- <-.
Qed.

Lemma rescheduleSlot_cases env businessId appointmentId t w r w' :
  run (rescheduleSlot env businessId appointmentId t) w = (r, w') →
  (w' = w ∧ (code r = 400 ∨ code r = 404 ∨ code r = 409 ∨ code r = 500))
  ∨ (∃ t' appointment d,
       t = Some t'
       ∧ single (filter (fun a => appt_id a = appointmentId
                                  ∧ appt_business_id a = businessId)
                        (appointments w)) = Some appointment
       ∧ (code r = 200 ∨ code r = 500)
       ∧ appointments w'
         = (fun a => if decide (appt_id a = appointmentId)
                     then rescheduled t' (utcMinutesOfDay t') d a else a)
           <$> appointments w
       ∧ (code r ≠ 200 →
          w' = set_appointments (fun _ => appointments w') w)).
Proof.
  unfold rescheduleSlot, run, tryCatch.
  destruct t as [t'|]; [|intros [= <- <-]; left; simpl; tauto].
  unfold bind at 1, getWorld at 1.
  destruct (fault env "apptError"); [intros [= <- <-]; left; simpl; tauto|].
  destruct (single _) as [appointment|] eqn:Hs;
    [|intros [= <- <-]; left; simpl; tauto].
  case_decide; [intros [= <- <-]; left; simpl; tauto|].
  destruct (fault env "fetchError"); [intros [= <- <-]; left; simpl; tauto|].
  destruct (capacityCheck _ _ _ _); [|intros [= <- <-]; left; simpl; tauto].
  destruct (fault env "updateError"); [intros [= <- <-]; left; simpl; tauto|].
  unfold bind at 1, modify at 1, bind at 1, getWorld at 1.
  match goal with
  | |- context [set_appointments (fmap ?f) w] =>
      set (w1 := set_appointments (fmap f) w)
  end.
  intros Hrun. right. eexists t', appointment, _.
  split; [done|]. split; [done|].
  revert Hrun.
  destruct (single (filter _ (appointments w1))) as [updated|];
    [|intros [= <- <-]; simpl; tauto].
  destruct (selectBusiness businessId w) as [biz|];
    [|unfold throw, respond; intros [= <- <-]; simpl; tauto].
  destruct (single (filter _ (customers w1))) as [customer|];
    [|unfold throw, respond; intros [= <- <-]; simpl; tauto].
  unfold bind at 1.
  edestruct sendAndLogSystemMessage_result
    as (w2 & -> & _ & _ & Ha2 & _).
  unfold bind at 1, modify at 1, respond.
  intros [= <- <-]. simpl. rewrite Ha2. simpl. tauto.
Qed.

Lemma filter_fmap_fixed {A} (P : A → Prop) `{!∀ x, Decision (P x)}
    (g : A → A) (l : list A) :
  (∀ a, a ∈ l → P a → g a = a) →
  (∀ a, a ∈ l → ¬ P a → ¬ P (g a)) →
  filter P (g <$> l) = filter P l.
Proof.
  induction l as [|x l IH]; intros Hfix Hout; [done|].
  rewrite fmap_cons, !filter_cons.
  rewrite IH;
    [|intros; apply Hfix; [by right|done]|intros; apply Hout; [by right|done]].
  destruct (decide (P x)) as [Hx|Hx].
  - rewrite Hfix by (done || left). by rewrite decide_True.
  - rewrite decide_False; [done|]. apply Hout; [left|done].
Qed.

Lemma verified_row_owner businessId id (rows : list Appointment) appointment a :
  NoDup (appt_id <$> rows) →
  single (filter (fun a => appt_id a = id ∧ appt_business_id a = businessId)
                 rows) = Some appointment →
  a ∈ rows → appt_id a = id → appt_business_id a = businessId.
Proof.
  intros Hnd Hs Hin Hid.
  apply single_elem, list_elem_of_filter in Hs as [[Hid' Hb] Hin'].
  rewrite (NoDup_fmap_eq appt_id rows a appointment); try done.
  by rewrite Hid.
Qed.

Lemma other_rows_fixed businessId id (g : Appointment → Appointment)
    (rows : list Appointment) appointment :
  NoDup (appt_id <$> rows) →
  single (filter (fun a => appt_id a = id ∧ appt_business_id a = businessId)
                 rows) = Some appointment →
  (∀ a, appt_business_id (g a) = appt_business_id a) →
  filter (fun a => appt_business_id a ≠ businessId)
    ((fun a => if decide (appt_id a = id) then g a else a) <$> rows)
  = filter (fun a => appt_business_id a ≠ businessId) rows.
Proof.
  intros Hnd Hs Hg. apply filter_fmap_fixed.
  - intros a Hin Hb. case_decide as Hid; [|done].
    exfalso. apply Hb.
    by apply (verified_row_owner businessId id rows appointment a).
  - intros a _ Hb. case_decide; [rewrite Hg|]; done.
Qed.

(** X9: a reschedule that is not answered 200 sends no message and
    deletes no reminder log: every table but the appointments is as it
    was, the answer is 400, 404, 409 or 500, and unless it is 500 the
    appointments are untouched as well. *)
Theorem reschedule_failure_writes_nothing_else
    (env : Env) (businessId appointmentId : Z) (t : option Z)
    (w : World) (r : Response) (w' : World) :
  run (rescheduleSlot env businessId appointmentId t) w = (r, w') →
  code r ≠ 200 →
  (code r = 400 ∨ code r = 404 ∨ code r = 409 ∨ code r = 500)
  ∧ w' = set_appointments (fun _ => appointments w') w
  ∧ (code r ≠ 500 → w' = w).
Proof.
  intros Hrun H200.
  destruct (rescheduleSlot_cases _ _ _ _ _ _ _ Hrun)
    as [[-> Hcode]|(t' & appointment & d & -> & _ & Hcode & _ & Hw)].
  - split; [done|]. split; [by destruct w|done].
  - destruct Hcode as [?|H500]; [done|].
    split; [tauto|]. split; [by apply Hw|done].
Qed.

Lemma reschedule_failure_witness :
  (run (rescheduleSlot (sampleEnv 0) 1 1 None) sampleBooked).2 = sampleBooked.
Proof.
  destruct (reschedule_failure_writes_nothing_else (sampleEnv 0) 1 1 None
              sampleBooked
              (run (rescheduleSlot (sampleEnv 0) 1 1 None) sampleBooked).1
              (run (rescheduleSlot (sampleEnv 0) 1 1 None) sampleBooked).2)
    as (_ & _ & Hsame).
  - by destruct (run _ _).
  - by vm_compute.
  - apply Hsame. by vm_compute.
Defined.

(** X10: the two handlers that update an appointment stay inside the
    caller's business.  With unique appointment ids, the rows of every
    other business are the same after a status update and after a
    reschedule, whatever the request and the outcome; and an id whose row
    belongs to another business is answered 404 "Appointment not found"
    with the world untouched, as if the appointment did not exist. *)
Theorem updates_stay_inside_the_business
    (env : Env) (businessId id : Z) (status : string) (t : option Z)
    (w : World) :
  NoDup (appt_id <$> appointments w) →
  let others := filter (fun a => appt_business_id a ≠ businessId) in
  others (appointments (run (updateStatus env businessId id status) w).2)
  = others (appointments w)
  ∧ others (appointments (run (rescheduleSlot env businessId id t) w).2)
    = others (appointments w)
  ∧ ((∀ a, a ∈ appointments w → appt_id a = id →
           appt_business_id a ≠ businessId) →
     (status ∈ allowedStatuses →
      run (updateStatus env businessId id status) w
      = (errorJson 404 "Appointment not found", w))
     ∧ (∀ t', run (rescheduleSlot env businessId id (Some t')) w
              = (errorJson 404 "Appointment not found", w))).
Proof.
  intros Hnd others. split; [|split].
  - destruct (run (updateStatus env businessId id status) w)
      as [r w'] eqn:Hrun.
    destruct (updateStatus_cases _ _ _ _ _ _ _ Hrun)
      as [[-> _]|(appointment & _ & Hs & ->)]; [done|].
    simpl. unfold others. by eapply other_rows_fixed.
  - destruct (run (rescheduleSlot env businessId id t) w) as [r w'] eqn:Hrun.
    destruct (rescheduleSlot_cases _ _ _ _ _ _ _ Hrun)
      as [[-> _]|(t' & appointment & d & _ & Hs & _ & Ha & _)]; [done|].
    simpl. rewrite Ha. unfold others. by eapply other_rows_fixed.
  - intros Hforeign.
    assert (Hnone : filter (fun a => appt_id a = id
                                     ∧ appt_business_id a = businessId)
                           (appointments w) = []).
    { apply filter_none. intros a Hin [Hid Hb]. by apply (Hforeign a). }
    split.
    + intros Hallowed. unfold updateStatus. rewrite decide_True by done.
      unfold run, tryCatch, bind at 1, getWorld at 1. rewrite Hnone.
      by destruct (fault env "fetchError").
    + intros t'. unfold rescheduleSlot, run, tryCatch, bind at 1,
        getWorld at 1. rewrite Hnone.
      by destruct (fault env "apptError").
Qed.

Lemma updates_stay_inside_witness :
  filter (fun a => appt_business_id a ≠ 2)
    (appointments (run (updateStatus (sampleEnv 0) 2 1 "cancelled")
                     sampleBooked).2)
  = appointments sampleBooked.
Proof.
  destruct (updates_stay_inside_the_business (sampleEnv 0) 2 1 "cancelled"
              None sampleBooked) as (Hsame & _).
  - vm_compute. apply NoDup_singleton.
  - rewrite Hsame. by vm_compute.
Defined.

Lemma updateStatus_accepts env businessId id status w appointment :
  status ∈ allowedStatuses →
  fault env "fetchError" = None → fault env "error" = None →
  filter (fun a => appt_id a = id) (appointments w) = [appointment] →
  appt_business_id appointment = businessId →
  run (updateStatus env businessId id status) w
  = (json 200 (JAppointment (with_status status appointment)),
     set_appointments (fmap (fun a =>
       if decide (appt_id a = id) then with_status status a else a)) w).
Proof.
  intros Hallowed Hf1 Hf2 Hone Hbiz.
  assert (Hid : appt_id appointment = id).
  { assert (Hin : appointment ∈ filter (fun a => appt_id a = id)
                                  (appointments w)) by (rewrite Hone; left).
    by apply list_elem_of_filter in Hin as [? _]. }
  unfold updateStatus. rewrite decide_True by done.
  unfold run, tryCatch, bind at 1, getWorld at 1. rewrite Hf1, Hf2.
  rewrite (filter_id_business _ _ _ _ Hone Hbiz). simpl.
  unfold bind at 1, modify at 1, bind at 1, getWorld at 1. simpl.
  rewrite filter_id_fmap by (intros a; case_decide; done).
  rewrite Hone. simpl. by rewrite decide_True.
Qed.

(** X11: the status handler does not look at the current status.  An
    appointment of the caller's business, whatever its status, takes any
    of the three target statuses; sending the same update again changes
    nothing and is answered the same; and after one update another target
    is accepted as well, so a completed appointment can still be set to
    cancelled or no_show. *)
Theorem status_update_ignores_current_status
    (env : Env) (businessId id : Z) (status : string) (w : World)
    (appointment : Appointment) :
  status ∈ allowedStatuses →
  fault env "fetchError" = None → fault env "error" = None →
  filter (fun a => appt_id a = id) (appointments w) = [appointment] →
  appt_business_id appointment = businessId →
  let once := run (updateStatus env businessId id status) w in
  once.1 = json 200 (JAppointment (with_status status appointment))
  ∧ run (updateStatus env businessId id status) once.2 = once
  ∧ ∀ status', status' ∈ allowedStatuses →
      (run (updateStatus env businessId id status') once.2).1
      = json 200 (JAppointment (with_status status' appointment)).
Proof.
  intros Hallowed Hf1 Hf2 Hone Hbiz once.
  unfold once.
  rewrite (updateStatus_accepts env businessId id status w appointment)
    by done.
  simpl.
  set (g := fun a => if decide (appt_id a = id) then with_status status a
                     else a).
  assert (Hone' : filter (fun a => appt_id a = id)
                    (appointments (set_appointments (fmap g) w))
                  = [with_status status appointment]).
  { simpl. unfold g. rewrite filter_id_fmap by (intros a; case_decide; done).
    rewrite Hone. simpl. rewrite decide_True; [done|].
    assert (Hin : appointment ∈ filter (fun a => appt_id a = id)
                                  (appointments w)) by (rewrite Hone; left).
    by apply list_elem_of_filter in Hin as [? _]. }
  split; [done|]. split.
  - rewrite (updateStatus_accepts env businessId id status _
               (with_status status appointment)) by done.
    f_equal. destruct w; unfold set_appointments; simpl. f_equal.
    rewrite <- list_fmap_compose. apply fmap_ext_in.
    intros a _. unfold g. simpl.
    destruct (decide (appt_id a = id)) as [Hid|Hid]; simpl;
      [by rewrite decide_True|by rewrite decide_False].
  - intros status' Hallowed'.
    by rewrite (updateStatus_accepts env businessId id status' _
                  (with_status status appointment)).
Qed.

Lemma status_update_witness :
  (run (updateStatus (sampleEnv 0) 1 1 "cancelled")
     (run (updateStatus (sampleEnv 0) 1 1 "completed") sampleBooked).2).1
  = json 200 (JAppointment
      (with_status "cancelled"
         (newAppointment (sampleWorld 1) 1 1 (slotStartInstant 19875 52)
            30 None))).
Proof.
  destruct (status_update_ignores_current_status (sampleEnv 0) 1 1 "completed"
              sampleBooked
              (newAppointment (sampleWorld 1) 1 1 (slotStartInstant 19875 52)
                 30 None)) as (_ & _ & Hnext);
    [unfold allowedStatuses; left|done|done|by vm_compute|done|].
  apply Hnext. unfold allowedStatuses. right. right. left.
Defined.

Lemma split_by_id (rows : list Appointment) a :
  NoDup (appt_id <$> rows) → a ∈ rows →
  ∃ l1 l2, rows = l1 ++ a :: l2
           ∧ (∀ x, x ∈ l1 → appt_id x ≠ appt_id a)
           ∧ (∀ x, x ∈ l2 → appt_id x ≠ appt_id a).
Proof.
  intros Hnd Hin. apply list_elem_of_split in Hin as (l1 & l2 & ->).
  exists l1, l2. split; [done|].
  rewrite fmap_app, fmap_cons in Hnd.
  apply NoDup_app in Hnd as (_ & Hdisj & Hnd2).
  apply NoDup_cons in Hnd2 as [Hnot _].
  split.
  - intros x Hx Heq. apply (Hdisj (appt_id x)).
    + by apply list_elem_of_fmap_2.
    + rewrite Heq. left.
  - intros x Hx Heq. apply Hnot. rewrite <- Heq. by apply list_elem_of_fmap_2.
Qed.

Lemma occupancy_cons appt appointments slot :
  occupancy (appt :: appointments) slot
  = (if decide (slot ∈ slotsOf appt) then 1 else 0)
    + occupancy appointments slot.
Proof.
  unfold occupancy. rewrite filter_cons. case_decide; simpl length; lia.
Qed.

(** X12: a status update gives the slots back.  After a scheduled
    appointment of the business has been set to completed, no_show or
    cancelled, the load a booking on any day is checked against is, on
    every slot, the load before minus one where the appointment lies on
    that day and covers the slot, and the same elsewhere. *)
Theorem status_update_frees_slots
    (env : Env) (businessId id : Z) (status : string) (w : World)
    (appointment : Appointment) (t slot : Z) :
  NoDup (appt_id <$> appointments w) →
  status ∈ allowedStatuses →
  fault env "fetchError" = None → fault env "error" = None →
  appointment ∈ appointments w → appt_id appointment = id →
  appt_business_id appointment = businessId →
  appt_status appointment = "scheduled" →
  slotLoadAt
    (bookingLoad businessId t
       (run (updateStatus env businessId id status) w).2) slot
  = slotLoadAt (bookingLoad businessId t w) slot
    - (if decide ((dayStartOf t ≤ appointment_time appointment
                   ∧ appointment_time appointment ≤ dayEndOf t)
                  ∧ slot ∈ slotsOf appointment) then 1 else 0).
Proof.
  intros Hnd Hallowed Hf1 Hf2 Hin Hid Hbiz Hsched.
  destruct (split_by_id _ _ Hnd Hin) as (l1 & l2 & Hrows & Hl1 & Hl2).
  rewrite Hid in Hl1, Hl2.
  assert (Hone : filter (fun a => appt_id a = id) (appointments w)
                 = [appointment]).
  { rewrite Hrows, filter_app, filter_cons, decide_True by done.
    by rewrite !filter_none by done. }
  rewrite (updateStatus_accepts env businessId id status w appointment)
    by done.
  assert (Hneq : status ≠ "scheduled").
  { intros ->. unfold allowedStatuses in Hallowed.
    repeat (apply elem_of_cons in Hallowed as [Hallowed|Hallowed]; [done|]).
    by apply elem_of_nil in Hallowed. }
  unfold bookingLoad. rewrite !slotLoadAt_buildSlotLoadMap. simpl.
  rewrite Hrows, fmap_app, fmap_cons, decide_True by done.
  assert (Hkeep : ∀ l : list Appointment,
            (∀ x, x ∈ l → appt_id x ≠ id) →
            (fun a => if decide (appt_id a = id) then with_status status a
                      else a) <$> l = l).
  { intros l Hl. rewrite <- (list_fmap_id l) at 2. apply fmap_ext_in.
    intros x Hx. rewrite decide_False; [done|by apply Hl]. }
  rewrite !Hkeep by done.
  unfold scheduledOnDay, scheduledBetween.
  match goal with |- context [filter ?P _] => set (Q := P) end.
  rewrite !filter_app, !filter_cons.
  rewrite (decide_False (P := Q (with_status status appointment)))
    by (unfold Q; simpl; tauto).
  rewrite !occupancy_app.
  destruct (decide (Q appointment)) as [HQ|HQ].
  - rewrite occupancy_cons.
    destruct HQ as (_ & _ & Hfrom & Hto & _).
    destruct (decide (slot ∈ slotsOf appointment)).
    + rewrite decide_True by done. lia.
    + rewrite decide_False by tauto. lia.
  - rewrite decide_False; [lia|].
    intros [[Hfrom Hto] _]. apply HQ. unfold Q. by repeat split.
Qed.

Lemma status_update_frees_witness :
  slotLoadAt
    (bookingLoad 1 (slotStartInstant 19875 52)
       (run (updateStatus (sampleEnv 0) 1 1 "cancelled") sampleBooked).2) 52
  = slotLoadAt (bookingLoad 1 (slotStartInstant 19875 52) sampleBooked) 52 - 1.
Proof.
  rewrite (status_update_frees_slots (sampleEnv 0) 1 1 "cancelled"
             sampleBooked
             (newAppointment (sampleWorld 1) 1 1 (slotStartInstant 19875 52)
                30 None));
    [by vm_compute|vm_compute; apply NoDup_singleton
    |unfold allowedStatuses; right; right; left
    |done|done|vm_compute; left|done|done|done].
Defined.

(** The slot that was full is bookable again once its appointment is
    cancelled. *)
Example cancelled_slot_can_be_booked_again :
  let full := run (createAppointment (sampleEnv 0) 1 otherRequest) sampleBooked in
  let cancelled := run (updateStatus (sampleEnv 0) 1 1 "cancelled") sampleBooked in
  let again := run (createAppointment (sampleEnv 0) 1 otherRequest) cancelled.2 in
  code full.1 = 409 ∧ code cancelled.1 = 200 ∧ code again.1 = 200.
Proof. by vm_compute. Qed.

(** ** The no-show scan under store errors, and run again *)

Lemma sameButAppointments_refl w : sameButAppointments w w.
Proof. unfold sameButAppointments. by destruct w. Qed.

Lemma sameButAppointments_trans w1 w2 w3 :
  sameButAppointments w1 w2 → sameButAppointments w2 w3 →
  sameButAppointments w1 w3.
Proof.
  unfold sameButAppointments, set_appointments.
  destruct w1, w2, w3; simpl. intros [=] [=]. by subst.
Qed.

Lemma markOverdue_step env now business w :
  NoDup (appt_id <$> appointments w) →
  ∃ w', markOverdue env now business w = Next tt w'
        ∧ sameButAppointments w w'
        ∧ (appointments w' = appointments w
           ∨ appointments w' = noShowRow now business <$> appointments w).
Proof.
  intros Hnd.
  destruct (fault env "apptError") as [e1|] eqn:Hf1.
  { exists w. unfold markOverdue, bind, getWorld. rewrite Hf1.
    rewrite decide_True by (left; eauto).
    split; [done|]. split; [apply sameButAppointments_refl|by left]. }
  destruct (fault env "updateError") as [e2|] eqn:Hf2.
  { exists w. unfold markOverdue, bind, getWorld. rewrite Hf1, Hf2.
    split; [by repeat case_decide|].
    split; [apply sameButAppointments_refl|by left]. }
  destruct (markOverdue_effect env now business w Hf1 Hf2 Hnd)
    as (w' & Hstep & _ & Ha).
  exists w'. split; [done|]. split; [|by right].
  revert Hstep. unfold markOverdue, bind, getWorld. rewrite Hf1, Hf2.
  repeat case_decide; unfold ret, modify; intros [= <-];
    first [apply sameButAppointments_refl
          |unfold sameButAppointments; by destruct w].
Qed.

Lemma markedBy_step now b bs a a' :
  markedBy now bs (noShowRow now b a) a' → markedBy now (b :: bs) a a'.
Proof.
  unfold noShowRow. case_decide as Hc.
  - destruct Hc as (Hb & Hs & Ho).
    intros [->|(Hs' & _)]; [|done].
    right. split; [done|]. split; [done|].
    exists b. split; [left|]. done.
  - intros [->|(Hs & -> & b' & Hin & Hrest)]; [by left|].
    right. split; [done|]. split; [done|].
    exists b'. split; [by right|done].
Qed.

Lemma markedBy_weaken now b bs a a' :
  markedBy now bs a a' → markedBy now (b :: bs) a a'.
Proof.
  intros [->|(Hs & -> & b' & Hin & Hrest)]; [by left|].
  right. split; [done|]. split; [done|].
  exists b'. split; [by right|done].
Qed.

Lemma forEach_markOverdue_any env now bs w :
  NoDup (appt_id <$> appointments w) →
  ∃ w', forEach bs (markOverdue env now) w = Next tt w'
        ∧ sameButAppointments w w'
        ∧ Forall2 (markedBy now bs) (appointments w) (appointments w').
Proof.
  revert w. induction bs as [|b bs IH]; intros w Hnd.
  - exists w. split; [done|]. split; [apply sameButAppointments_refl|].
    apply Forall_Forall2_diag, Forall_forall. intros a _. by left.
  - destruct (markOverdue_step env now b w Hnd) as (w1 & Hstep & Hsame1 & Ha1).
    destruct (IH w1) as (w2 & Hrest & Hsame2 & Hall).
    { destruct Ha1 as [->| ->]; [done|].
      rewrite <- list_fmap_compose.
      erewrite (fmap_ext_in _ appt_id); [done|].
      intros a _. apply noShowRow_id. }
    exists w2. cbn [forEach]. unfold bind. rewrite Hstep, Hrest.
    split; [done|].
    split; [by apply (sameButAppointments_trans w w1 w2)|].
    destruct Ha1 as [Ha1|Ha1]; rewrite Ha1 in Hall.
    + eapply Forall2_impl; [exact Hall|]. intros a a'. apply markedBy_weaken.
    + rewrite Forall2_fmap_l in Hall.
      eapply Forall2_impl; [exact Hall|]. intros a a'. apply markedBy_step.
Qed.

(** X13: whatever errors the store reports during a scan, the no-show
    job touches nothing but appointment rows, and each row after the scan
    is either the row as it was or the no_show copy of a row that was
    scheduled and whose start plus the grace minutes of a business with
    its business id lies strictly before now.  It never changes a row that
    is completed, cancelled or already no_show, never a row that is not
    overdue, and never any field but the status. *)
Theorem no_show_scan_marks_only_overdue (env : Env) (w : World) :
  NoDup (appt_id <$> appointments w) →
  let w' := (run (autoMarkNoShows env) w).2 in
  w' = set_appointments (fun _ => appointments w') w
  ∧ Forall2
      (fun a a' =>
         a' = a
         ∨ (appt_status a = "scheduled" ∧ a' = with_status "no_show" a
            ∧ ∃ b, b ∈ businesses w ∧ biz_id b = appt_business_id a
                   ∧ appointment_time a + graceMinutesOf b * msPerMinute
                     < now env))
      (appointments w) (appointments w').
Proof.
  intros Hnd. cbv zeta.
  assert (Hsame : Forall2 (markedBy (now env) (businesses w))
                    (appointments w) (appointments w)).
  { apply Forall_Forall2_diag, Forall_forall. intros a _. by left. }
  destruct (run (autoMarkNoShows env) w) as [r w'] eqn:Hrun. simpl.
  revert Hrun.
  unfold autoMarkNoShows, run, tryCatch, bind at 1, getWorld at 1.
  case_decide.
  - intros [= <- <-]. split; [by destruct w|done].
  - destruct (forEach_markOverdue_any env (now env) (businesses w) w Hnd)
      as (w1 & -> & Hfr & Hall). by intros [= <- <-].
Qed.

Lemma no_show_scan_witness :
  (run (autoMarkNoShows (sampleEnv 0)) sampleBooked).2 = sampleBooked.
Proof.
  destruct (no_show_scan_marks_only_overdue (sampleEnv 0) sampleBooked)
    as [Hframe _].
  - vm_compute. apply NoDup_singleton.
  - rewrite Hframe. by vm_compute.
Defined.

Lemma noShowRows_spec now bs a :
  noShowRows now bs a
  = if decide (Exists (fun b => appt_business_id a = biz_id b
                                ∧ appt_status a = "scheduled"
                                ∧ overdue now (graceMinutesOf b) a) bs)
    then with_status "no_show" a else a.
Proof.
  revert a. induction bs as [|b bs IH]; intros a.
  - rewrite decide_False; [done|]. by intros ?%Exists_nil.
  - change (noShowRows now (b :: bs) a)
      with (noShowRows now bs (noShowRow now b a)).
    unfold noShowRow. case_decide as Hc.
    + rewrite noShowRows_settled by done.
      rewrite decide_True; [done|]. by apply Exists_cons_hd.
    + rewrite IH. apply decide_ext. rewrite Exists_cons. tauto.
Qed.

Lemma noShowRows_later now1 now2 bs a :
  now1 ≤ now2 →
  noShowRows now2 bs (noShowRows now1 bs a) = noShowRows now2 bs a.
Proof.
  intros Hle. rewrite (noShowRows_spec now1).
  case_decide as Hex; [|done].
  rewrite noShowRows_settled by done.
  rewrite noShowRows_spec, decide_True; [done|].
  eapply Exists_impl; [done|]. unfold overdue. intros b (?&?&?).
  repeat split; try done. lia.
Qed.

Lemma autoMarkNoShows_world env w :
  fault env "bizError" = None →
  fault env "apptError" = None → fault env "updateError" = None →
  NoDup (appt_id <$> appointments w) →
  (run (autoMarkNoShows env) w).2
  = set_appointments (fmap (noShowRows (now env) (businesses w))) w.
Proof.
  intros Hf0 Hf1 Hf2 Hnd.
  unfold autoMarkNoShows, run, tryCatch, bind at 1, getWorld at 1.
  rewrite Hf0.
  destruct (decide (is_Some None ∨ businesses w = []))
    as [[[? [=]]|Hempty]|Hne].
  - simpl. rewrite Hempty. unfold noShowRows. simpl.
    destruct w; unfold set_appointments; simpl. by rewrite list_fmap_id.
  - destruct (forEach_markOverdue env (now env) (businesses w) w Hf1 Hf2 Hnd)
      as (w1 & Hscan & _ & Ha).
    destruct (forEach_markOverdue_any env (now env) (businesses w) w Hnd)
      as (w1' & Hscan' & Hfr & _).
    rewrite Hscan in Hscan'. injection Hscan' as <-.
    rewrite Hscan. simpl. rewrite Hfr, Ha. by destruct w.
Qed.

(** X14: scans of the no-show job compose.  With unique appointment
    ids and a store that reports no error, a scan after an earlier scan
    leaves the world the later scan alone would have left, so a scan that
    was missed is made up by the next one, and running the scan twice at
    the same instant changes nothing the second time. *)
Theorem no_show_scans_compose (env1 env2 : Env) (w : World) :
  (∀ label, fault env1 label = None) → (∀ label, fault env2 label = None) →
  NoDup (appt_id <$> appointments w) →
  now env1 ≤ now env2 →
  (run (autoMarkNoShows env2) (run (autoMarkNoShows env1) w).2).2
  = (run (autoMarkNoShows env2) w).2
  ∧ (run (autoMarkNoShows env1) (run (autoMarkNoShows env1) w).2).2
    = (run (autoMarkNoShows env1) w).2.
Proof.
  intros Hnf1 Hnf2 Hnd Hle.
  assert (Hnd1 : NoDup (appt_id <$> appointments
                          (run (autoMarkNoShows env1) w).2)).
  { rewrite autoMarkNoShows_world by done. simpl.
    rewrite <- list_fmap_compose.
    erewrite (fmap_ext_in _ appt_id); [done|].
    intros a _. apply noShowRows_id. }
  split.
  - rewrite (autoMarkNoShows_world env2 (run _ w).2) by done.
    rewrite !autoMarkNoShows_world by done.
    destruct w; unfold set_appointments; simpl. f_equal.
    rewrite <- list_fmap_compose. apply fmap_ext_in.
    intros a _. by apply noShowRows_later.
  - rewrite (autoMarkNoShows_world env1 (run _ w).2) by done.
    rewrite !autoMarkNoShows_world by done.
    destruct w; unfold set_appointments; simpl. f_equal.
    rewrite <- list_fmap_compose. apply fmap_ext_in.
    intros a _. by apply noShowRows_later.
Qed.

Lemma no_show_scans_witness :
  (run (autoMarkNoShows (sampleEnv (slotStartInstant 19875 60)))
     (run (autoMarkNoShows (sampleEnv (slotStartInstant 19875 40)))
        sampleBooked).2).2
  = (run (autoMarkNoShows (sampleEnv (slotStartInstant 19875 60)))
       sampleBooked).2.
Proof.
  apply (no_show_scans_compose (sampleEnv (slotStartInstant 19875 40))
           (sampleEnv (slotStartInstant 19875 60)) sampleBooked);
    [done|done|vm_compute; apply NoDup_singleton|by vm_compute].
Defined.

(** ** Archiving (daily at 3 AM), and the listings of what is ahead *)

Lemma archiveJob_world env stamp w :
  (run (archiveJob env stamp) w).2
  = match fault env "error" with
    | Some _ => w
    | None => set_appointments (fmap (fun a =>
                if decide (archivable (now env - 5 * msPerDay) a)
                then with_archived stamp a else a)) w
    end.
Proof.
  unfold archiveJob, run, tryCatch. by destruct (fault env "error").
Qed.

Lemma archived_not_archivable cutoff cutoff' stamp a :
  ¬ archivable cutoff'
      (if decide (archivable cutoff a) then with_archived stamp a else a)
  ∨ ¬ archivable cutoff a ∧ archivable cutoff' a.
Proof.
  case_decide as Hc.
  - left. by intros (_ & _ & [=]).
  - destruct (decide (archivable cutoff' a)); [by right|by left].
Qed.


Lemma upcoming_filter_fixed (P : Appointment → Prop)
    `{!∀ a, Decision (P a)} cutoff stamp (rows : list Appointment) :
  (∀ a, P a → appt_status a = "scheduled") →
  (∀ a, P (with_archived stamp a) → appt_status a = "scheduled") →
  filter P ((fun a => if decide (archivable cutoff a)
                      then with_archived stamp a else a) <$> rows)
  = filter P rows.
Proof.
  intros HP HP'. apply filter_fmap_fixed.
  - intros a _ Ha. rewrite decide_False; [done|].
    intros (Hs & _). rewrite (HP a Ha) in Hs.
    repeat (apply elem_of_cons in Hs as [Hs|Hs]; [done|]).
    by apply elem_of_nil in Hs.
  - intros a _ Hna. case_decide as Hc; [|done].
    intros Hp. destruct Hc as (Hs & _). rewrite (HP' a Hp) in Hs.
    repeat (apply elem_of_cons in Hs as [Hs|Hs]; [done|]).
    by apply elem_of_nil in Hs.
Qed.

(** X16: archiving is invisible to everything that looks at scheduled
    appointments.  After a run of the archive job the load a booking or a
    reschedule is checked against, the availability map, the list of
    upcoming appointments and the next appointment of a customer are what
    they were before it. *)
Theorem archiving_leaves_schedule_views (env : Env) (stamp : Z) (w : World)
    (env' : Env) (businessId t : Z) (exclude : option Z)
    (customerId : option Z) :
  let w' := (run (archiveJob env stamp) w).2 in
  scheduledOnDay businessId t exclude (appointments w')
  = scheduledOnDay businessId t exclude (appointments w)
  ∧ bookingLoad businessId t w' = bookingLoad businessId t w
  ∧ upcomingAppointments env' businessId w'
    = upcomingAppointments env' businessId w
  ∧ nextAppointment env' businessId customerId w'
    = nextAppointment env' businessId customerId w.
Proof.
  cbv zeta. rewrite archiveJob_world.
  destruct (fault env "error"); [done|].
  assert (Hday : ∀ exclude,
            scheduledOnDay businessId t exclude
              (appointments (set_appointments (fmap (fun a =>
                 if decide (archivable (now env - 5 * msPerDay) a)
                 then with_archived stamp a else a)) w))
            = scheduledOnDay businessId t exclude (appointments w)).
  { intros ex. unfold scheduledOnDay, scheduledBetween. simpl.
    apply upcoming_filter_fixed; simpl; tauto. }
  split; [apply Hday|].
  split; [unfold bookingLoad; by rewrite Hday|].
  split.
  - unfold upcomingAppointments. destruct (fault env' "error"); [done|].
    simpl. f_equal. f_equal. apply upcoming_filter_fixed; simpl; tauto.
  - unfold nextAppointment. destruct customerId as [c|]; [|done].
    destruct (fault env' "error"); [done|].
    simpl. do 3 f_equal. apply upcoming_filter_fixed; simpl; tauto.
Qed.


(** X17: the upcoming list.  Unless the store reports an error, which
    is answered 500, GET /appointments/upcoming sends exactly the
    appointments of the caller's business that are scheduled, start at now
    or later and are not archived, each as often as the table holds it,
    in ascending order of their start. *)
Theorem upcoming_lists_what_is_ahead (env : Env) (businessId : Z) (w : World) :
  match upcomingAppointments env businessId w with
  | inl r => ∃ e, fault env "error" = Some e ∧ r = errorJson 500 e
  | inr rows =>
      fault env "error" = None
      ∧ (∀ a, a ∈ rows
              ↔ a ∈ appointments w
                ∧ appt_business_id a = businessId
                ∧ appt_status a = "scheduled"
                ∧ now env ≤ appointment_time a
                ∧ archived_at a = None)
      ∧ rows ≡ₚ filter (fun a => appt_business_id a = businessId
                                 ∧ appt_status a = "scheduled"
                                 ∧ now env ≤ appointment_time a
                                 ∧ archived_at a = None) (appointments w)
      ∧ StronglySorted
          (fun a a' => appointment_time a ≤ appointment_time a') rows
  end.
Proof.
  unfold upcomingAppointments.
  destruct (fault env "error") as [e|]; [by exists e|].
  split; [done|]. split; [|split].
  - intros a. rewrite merge_sort_Permutation, list_elem_of_filter. tauto.
  - apply merge_sort_Permutation.
  - apply (StronglySorted_merge_sort earlierOrSame).
Qed.


Lemma scheduledFirst_fold (data upcoming past : list Appointment) :
  fold_left (fun '(upcoming, past) appt =>
               if decide (appt_status appt = "scheduled")
               then (upcoming ++ [appt], past)
               else (upcoming, past ++ [appt]))
            data (upcoming, past)
  = (upcoming ++ filter (fun a => appt_status a = "scheduled") data,
     past ++ filter (fun a => appt_status a ≠ "scheduled") data).
Proof.
  revert upcoming past. induction data as [|a data IH]; intros upcoming past.
  - simpl. by rewrite !app_nil_r.
  - cbn [fold_left]. rewrite !filter_cons.
    destruct (decide (appt_status a = "scheduled")) as [Hs|Hs].
    + rewrite IH, decide_False by tauto. by rewrite <- app_assoc.
    + rewrite IH, decide_True by done. by rewrite <- app_assoc.
Qed.

(** X19: the reorder of GET /appointments is a stable partition by
    status.  Whatever order the query returned the rows in, the array sent
    is the scheduled rows in that order followed by the other rows in that
    order: no row is lost or repeated, no scheduled row comes after a row
    that is not scheduled, and the start time plays no part, so a
    scheduled appointment in the past stays in the first group. *)
Theorem scheduled_rows_come_first (data : list Appointment) :
  scheduledFirst data
  = filter (fun a => appt_status a = "scheduled") data
    ++ filter (fun a => appt_status a ≠ "scheduled") data
  ∧ scheduledFirst data ≡ₚ data
  ∧ (∀ i j a a', scheduledFirst data !! i = Some a →
                 scheduledFirst data !! j = Some a' →
                 appt_status a ≠ "scheduled" → appt_status a' = "scheduled" →
                 (j < i)%nat)
  ∧ scheduledFirst (scheduledFirst data) = scheduledFirst data.
Proof.
  assert (Heq : ∀ data, scheduledFirst data
            = filter (fun a => appt_status a = "scheduled") data
              ++ filter (fun a => appt_status a ≠ "scheduled") data).
  { intros l. unfold scheduledFirst. by rewrite scheduledFirst_fold. }
  split; [apply Heq|]. split; [|split].
  - rewrite Heq. induction data as [|a data IH]; [done|].
    rewrite !filter_cons.
    destruct (decide (appt_status a = "scheduled")).
    + rewrite decide_False by tauto. simpl. by rewrite IH.
    + rewrite decide_True by done. rewrite <- Permutation_middle.
      by rewrite IH.
  - intros i j a a'. rewrite Heq.
    set (first := filter (fun a => appt_status a = "scheduled") data).
    set (second := filter (fun a => appt_status a ≠ "scheduled") data).
    intros Hi Hj Ha Ha'.
    apply lookup_app_Some in Hi as [Hi|[Hlen Hi]].
    { apply list_elem_of_lookup_2, list_elem_of_filter in Hi as [? _]. done. }
    apply lookup_app_Some in Hj as [Hj|[_ Hj]].
    { apply lookup_lt_Some in Hj. lia. }
    apply list_elem_of_lookup_2, list_elem_of_filter in Hj as [? _]. done.
  - rewrite (Heq (scheduledFirst data)), Heq.
    set (first := filter (fun a => appt_status a = "scheduled") data).
    set (second := filter (fun a => appt_status a ≠ "scheduled") data).
    rewrite !filter_app.
    rewrite (filter_all _ first)
      by (intros a [? _]%list_elem_of_filter; done).
    rewrite (filter_none _ second)
      by (intros a [? _]%list_elem_of_filter; tauto).
    rewrite (filter_none _ first)
      by (intros a [? _]%list_elem_of_filter; tauto).
    rewrite (filter_all _ second)
      by (intros a [? _]%list_elem_of_filter; done).
    by rewrite app_nil_r.
Qed.

(** ** Appointment settings: guard, round trip and defaults *)

Lemma updateAppointmentSettings_accepts env businessId r24 r2 grace capacity
    w business :
  fault env "error" = None →
  filter (fun b => biz_id b = businessId) (businesses w) = [business] →
  let settings := {| reminder_24h := Some r24; reminder_2h := Some r2;
                     no_show_grace_minutes := Some grace;
                     max_appointments_per_slot := Some capacity |} in
  answer (updateAppointmentSettings env businessId "owner"
            (settingsPayload r24 r2 grace capacity)) w
  = (inr (Some settings),
     set_automation_rules (fmap (fun r =>
         if decide (rule_business_id r = businessId
                    ∧ rule_type r = "reminder_2h")
         then with_enabled r2 r else r))
       (set_automation_rules (fmap (fun r =>
            if decide (rule_business_id r = businessId
                       ∧ rule_type r = "reminder_24h")
            then with_enabled r24 r else r))
          (set_businesses (fmap (fun b =>
               if decide (biz_id b = businessId)
               then with_settings settings b else b)) w)))
  ∧ filter (fun b => biz_id b = businessId)
      ((fun b => if decide (biz_id b = businessId)
                 then with_settings settings b else b) <$> businesses w)
    = [with_settings settings business].
Proof.
  intros Hf Hone settings.
  assert (Hid : biz_id business = businessId).
  { assert (Hin : business ∈ filter (fun b => biz_id b = businessId)
                               (businesses w)) by (rewrite Hone; left).
    by apply list_elem_of_filter in Hin as [? _]. }
  assert (Hone' : filter (fun b => biz_id b = businessId)
            ((fun b => if decide (biz_id b = businessId)
                       then with_settings settings b else b) <$> businesses w)
          = [with_settings settings business]).
  { clear Hf. revert Hone. generalize (businesses w).
    induction l as [|b l IH]; [done|].
    rewrite fmap_cons, !filter_cons.
    destruct (decide (biz_id b = businessId)) as [Hb|Hb].
    - simpl. rewrite decide_True by done. intros [= -> Hl].
      f_equal. rewrite filter_none; [done|].
      intros x Hx Hxb. apply list_elem_of_fmap in Hx as (y & -> & Hy).
      assert (Hyb : biz_id y = businessId) by (by case_decide).
      assert (Hin : y ∈ filter (fun b => biz_id b = businessId) l)
        by (by apply list_elem_of_filter).
      rewrite Hl in Hin. by apply elem_of_nil in Hin.
    - rewrite decide_False by done. apply IH. }
  split; [|done].
  unfold answer, updateAppointmentSettings.
  rewrite decide_False by (intros H; by apply H).
  rewrite decide_False by (simpl; intros [?|[?|[?|?]]]; done).
  rewrite Hf. unfold bind at 1, modify at 1, bind at 1, getWorld at 1.
  simpl. fold settings. rewrite Hone'. done.
Qed.

(** X20: who may change the settings, and what a refusal leaves.  A
    caller who is not the owner is answered 403 whatever the payload; an
    owner whose payload has a field of the wrong type, or lacks one, is
    answered 400; both leave the world as it was.  Whatever the outcome,
    the handler writes nothing but the settings of businesses with the
    caller's business id and the [enabled] flag of that business's
    reminder_24h and reminder_2h rules. *)
Theorem settings_update_is_guarded
    (env : Env) (businessId : Z) (role : string) (payload : SettingsPayload)
    (w : World) :
  let result := answer (updateAppointmentSettings env businessId role payload) w in
  (role ≠ "owner" →
   result = (inl (errorJson 403 "Only owner can update settings"), w))
  ∧ (role = "owner" → ¬ wellTyped payload →
     result = (inl (errorJson 400 "Invalid settings payload"), w))
  ∧ result.2
    = set_automation_rules (fun _ => automation_rules result.2)
        (set_businesses (fun _ => businesses result.2) w)
  ∧ Forall2 (fun b b' => b' = b
                         ∨ (biz_id b = businessId ∧ biz_id b' = businessId
                            ∧ biz_timezone b' = biz_timezone b))
      (businesses w) (businesses result.2)
  ∧ Forall2 (fun r r' => r' = r
                         ∨ (rule_business_id r = businessId
                            ∧ rule_type r ∈ ["reminder_24h"; "reminder_2h"]
                            ∧ ∃ enabled, r' = with_enabled enabled r))
      (automation_rules w) (automation_rules result.2).
Proof.
  cbv zeta.
  assert (Hb : Forall2 (fun b b' : Business => b' = b
                 ∨ (biz_id b = businessId ∧ biz_id b' = businessId
                    ∧ biz_timezone b' = biz_timezone b))
                 (businesses w) (businesses w)).
  { apply Forall_Forall2_diag, Forall_forall. intros b _. by left. }
  assert (Hr : Forall2 (fun r r' : AutomationRule => r' = r
                 ∨ (rule_business_id r = businessId
                    ∧ rule_type r ∈ ["reminder_24h"; "reminder_2h"]
                    ∧ ∃ enabled, r' = with_enabled enabled r))
                 (automation_rules w) (automation_rules w)).
  { apply Forall_Forall2_diag, Forall_forall. intros r _. by left. }
  destruct (answer (updateAppointmentSettings env businessId role payload) w)
    as [res w'] eqn:Hrun. simpl.
  revert Hrun. unfold answer, updateAppointmentSettings.
  destruct (decide (role ≠ "owner")) as [Hrole|Hrole].
  { intros [= <- <-]. split; [done|]. split; [done|].
    split; [by destruct w|done]. }
  case_decide as Htypes.
  { intros [= <- <-]. split; [done|]. split; [done|].
    split; [by destruct w|done]. }
  assert (Hwt : wellTyped payload).
  { unfold wellTyped.
    destruct (decide (typeOf (pay_reminder_24h payload) = "boolean"));
      [|tauto].
    destruct (decide (typeOf (pay_reminder_2h payload) = "boolean"));
      [|tauto].
    destruct (decide (typeOf (pay_no_show_grace_minutes payload) = "number"));
      [|tauto].
    destruct (decide (typeOf (pay_max_appointments_per_slot payload)
                      = "number")); tauto. }
  destruct (fault env "error").
  { intros [= <- <-]. split; [done|]. split; [done|].
    split; [by destruct w|done]. }
  unfold bind at 1, modify at 1, bind at 1, getWorld at 1.
  match goal with
  | |- context [set_businesses (fmap ?f) w] =>
      set (g := f); set (w1 := set_businesses (fmap g) w)
  end.
  assert (Hb1 : Forall2 (fun b b' : Business => b' = b
                  ∨ (biz_id b = businessId ∧ biz_id b' = businessId
                     ∧ biz_timezone b' = biz_timezone b))
                  (businesses w) (businesses w1)).
  { simpl. rewrite Forall2_fmap_r.
    apply Forall_Forall2_diag, Forall_forall. intros b _. unfold g. simpl.
    destruct (decide (biz_id b = businessId)); [by right|by left]. }
  destruct (single (filter _ (businesses w1))) as [data|].
  2:{ intros [= <- <-]. split; [done|]. split; [done|].
      split; [by destruct w|done]. }
  unfold bind, syncRules, modify, ret. intros [= <- <-].
  split; [done|]. split; [done|]. split; [by destruct w|].
  split; [done|]. simpl.
  rewrite <- list_fmap_compose, Forall2_fmap_r.
  apply Forall_Forall2_diag, Forall_forall. intros r _. simpl.
  destruct (decide (rule_business_id r = businessId
                    ∧ rule_type r = "reminder_24h")) as [[Hrb Hrt]|H24].
  - simpl. right. split; [done|]. split; [rewrite Hrt; left|].
    rewrite Hrt, decide_False by (intros [_ [=]]). by eexists.
  - destruct (decide (rule_business_id r = businessId
                      ∧ rule_type r = "reminder_2h")) as [[Hrb Hrt]|H2].
    + right. split; [done|]. split; [rewrite Hrt; right; left|]. by eexists.
    + by left.
Qed.

Lemma getAppointmentSettings_reads env businessId w data :
  fault env "error" = None →
  filter (fun b => biz_id b = businessId) (businesses w) = [data] →
  answer (getAppointmentSettings env businessId) w
  = (inr {| view_reminder_24h := settingOr true reminder_24h data;
            view_reminder_2h := settingOr false reminder_2h data;
            view_no_show_grace_minutes :=
              settingOr 30 no_show_grace_minutes data;
            view_max_appointments_per_slot :=
              settingOr 1 max_appointments_per_slot data |}, w).
Proof.
  intros Hf Hone.
  unfold answer, getAppointmentSettings, bind, getWorld.
  by rewrite Hf, Hone.
Qed.

(** X21: settings written are the settings read and used.  After the
    owner's update with a well-typed payload, the store reporting no error
    and the business having one row, the answer carries the four values
    sent, the settings screen reads the same four values back, the
    capacity the booking, reschedule and availability handlers use is the
    number sent, the grace period of the no-show job is the number sent,
    the time zone of the business is untouched, and every reminder_24h and
    reminder_2h rule of the business is enabled or disabled as the two
    flags say. *)
Theorem settings_round_trip
    (env env' : Env) (businessId : Z) (r24 r2 : bool) (grace capacity : Z)
    (w : World) (business : Business) :
  fault env "error" = None → fault env' "error" = None →
  filter (fun b => biz_id b = businessId) (businesses w) = [business] →
  let result := answer (updateAppointmentSettings env businessId "owner"
                          (settingsPayload r24 r2 grace capacity)) w in
  result.1 = inr (Some {| reminder_24h := Some r24; reminder_2h := Some r2;
                          no_show_grace_minutes := Some grace;
                          max_appointments_per_slot := Some capacity |})
  ∧ answer (getAppointmentSettings env' businessId) result.2
    = (inr {| view_reminder_24h := r24; view_reminder_2h := r2;
              view_no_show_grace_minutes := grace;
              view_max_appointments_per_slot := capacity |}, result.2)
  ∧ maxPerSlotOf (selectBusiness businessId result.2) = capacity
  ∧ (∃ business', selectBusiness businessId result.2 = Some business'
                  ∧ graceMinutesOf business' = grace
                  ∧ timezoneOf business' = timezoneOf business)
  ∧ (∀ r, r ∈ automation_rules result.2 → rule_business_id r = businessId →
          (rule_type r = "reminder_24h" → rule_enabled r = r24)
          ∧ (rule_type r = "reminder_2h" → rule_enabled r = r2)).
Proof.
  intros Hf Hf' Hone result.
  destruct (updateAppointmentSettings_accepts env businessId r24 r2 grace
              capacity w business Hf Hone) as [Hrun Hone'].
  cbv zeta in Hrun, Hone'. unfold result. rewrite Hrun. simpl.
  split; [done|]. split; [|split; [|split]].
  - rewrite (getAppointmentSettings_reads env' businessId _
               (with_settings {| reminder_24h := Some r24;
                                 reminder_2h := Some r2;
                                 no_show_grace_minutes := Some grace;
                                 max_appointments_per_slot := Some capacity |}
                  business)) by done.
    done.
  - unfold selectBusiness. simpl. by rewrite Hone'.
  - eexists. unfold selectBusiness. simpl. rewrite Hone'. done.
  - intros r Hin Hrb.
    apply list_elem_of_fmap in Hin as (r1 & -> & Hin).
    apply list_elem_of_fmap in Hin as (r0 & -> & _).
    revert Hrb.
    destruct (decide (rule_business_id r0 = businessId
                      ∧ rule_type r0 = "reminder_24h")) as [[Hb Ht]|H24];
      simpl.
    + rewrite Ht, decide_False by (intros [_ [=]]). simpl.
      intros _. split; [done|]. by rewrite Ht.
    + destruct (decide (rule_business_id r0 = businessId
                        ∧ rule_type r0 = "reminder_2h")) as [[Hb Ht]|H2];
        simpl.
      * intros _. split; [by rewrite Ht|done].
      * intros Hb. split; intros Ht; tauto.
Qed.

Lemma settings_round_trip_witness :
  maxPerSlotOf
    (selectBusiness 1
       (answer (updateAppointmentSettings (sampleEnv 0) 1 "owner"
                  (settingsPayload true true 10 3)) sampleScheduled).2) = 3.
Proof.
  destruct (settings_round_trip (sampleEnv 0) (sampleEnv 0) 1 true true 10 3
              sampleScheduled (sampleBusiness 1)) as (_ & _ & Hcap & _);
    [done|done|by vm_compute|exact Hcap].
Defined.

(** X22: the settings screen shows what the scheduler uses.  For a
    business with one row and a store that reports no error, the capacity
    and the grace period GET /businesses/settings/appointments sends are
    the capacity the capacity check applies and the grace period the
    no-show job applies, stored or defaulted; a business without stored
    settings is shown reminder_24h on, reminder_2h off, 30 minutes and
    capacity 1; and the world is not changed. *)
Theorem settings_view_matches_scheduler
    (env : Env) (businessId : Z) (w : World) (data : Business) :
  fault env "error" = None →
  filter (fun b => biz_id b = businessId) (businesses w) = [data] →
  ∃ view,
    answer (getAppointmentSettings env businessId) w = (inr view, w)
    ∧ view_max_appointments_per_slot view
      = maxPerSlotOf (selectBusiness businessId w)
    ∧ view_no_show_grace_minutes view = graceMinutesOf data
    ∧ (appointment_settings data = None →
       view = {| view_reminder_24h := true; view_reminder_2h := false;
                 view_no_show_grace_minutes := 30;
                 view_max_appointments_per_slot := 1 |}).
Proof.
  intros Hf Hone. eexists.
  split; [by apply getAppointmentSettings_reads|]. simpl.
  unfold selectBusiness. rewrite Hone. simpl.
  unfold settingOr, maxPerSlotOf, graceMinutesOf.
  split; [done|]. split; [done|]. by intros ->.
Qed.

Lemma settings_view_witness :
  ∃ view,
    answer (getAppointmentSettings (sampleEnv 0) 1) sampleBooked
    = (inr view, sampleBooked)
    ∧ view_max_appointments_per_slot view = 1.
Proof.
  destruct (settings_view_matches_scheduler (sampleEnv 0) 1 sampleBooked
              (sampleBusiness 1)) as (view & Hrun & Hcap & _);
    [done|by vm_compute|].
  exists view. split; [exact Hrun|]. rewrite Hcap. by vm_compute.
Defined.

(** X23: a capacity of zero or less closes the calendar.  The handler
    checks the type of [max_appointments_per_slot] and nothing else; once
    the owner has stored a number that is not positive, every booking of
    the business that reaches the capacity check is refused 409 and the
    availability map of every day has no free start, whatever the load. *)
Theorem nonpositive_capacity_refuses_every_booking
    (env : Env) (businessId : Z) (r24 r2 : bool) (grace capacity : Z)
    (w : World) (business : Business) :
  fault env "error" = None →
  filter (fun b => biz_id b = businessId) (businesses w) = [business] →
  capacity ≤ 0 →
  let w' := (answer (updateAppointmentSettings env businessId "owner"
                       (settingsPayload r24 r2 grace capacity)) w).2 in
  (∀ env' req services t business',
     reachesCapacityCheck env' businessId req w' services t business' →
     (run (createAppointment env' businessId req) w').1
     = errorJson 409 "Selected time slot is fully booked")
  ∧ (∀ slotLoad d start available,
       0 < d →
       (∀ slot, 0 ≤ slotLoadAt slotLoad slot) →
       dailyAvailability slotLoad d
         (maxPerSlotOf (selectBusiness businessId w')) !! start
       = Some available →
       available = false).
Proof.
  intros Hf Hone Hcap w'.
  destruct (updateAppointmentSettings_accepts env businessId r24 r2 grace
              capacity w business Hf Hone) as [Hrun Hone'].
  cbv zeta in Hrun, Hone'.
  assert (Hsel : selectBusiness businessId w'
                 = Some (with_settings
                           {| reminder_24h := Some r24; reminder_2h := Some r2;
                              no_show_grace_minutes := Some grace;
                              max_appointments_per_slot := Some capacity |}
                           business)).
  { unfold w'. rewrite Hrun. unfold selectBusiness. simpl. by rewrite Hone'. }
  split.
  - intros env' req services t business' Hreach.
    pose proof Hreach as (_ & _ & _ & Hd & _ & Hsel' & _).
    rewrite Hsel in Hsel'. injection Hsel' as <-.
    destruct (createAppointment_reached _ _ _ _ _ _ _ Hreach)
      as (customer & w1 & _ & _ & Hfull & _).
    rewrite Hfull; [done|].
    apply capacityCheck_false.
    exists (floorDiv (utcMinutesOfDay t) SLOT_SIZE_MINUTES).
    split; [by apply getSlotRange_nonempty|].
    unfold bookingLoad. rewrite slotLoadAt_buildSlotLoadMap. simpl.
    pose proof (occupancy_nonneg
                  (scheduledOnDay businessId t None (appointments w'))
                  (floorDiv (utcMinutesOfDay t) SLOT_SIZE_MINUTES)).
    lia.
  - intros slotLoad d start available Hd Hload.
    rewrite Hsel. simpl. rewrite lookup_dailyAvailability by done.
    case_decide; [|done]. intros [= <-].
    apply capacityCheck_false.
    exists (floorDiv start SLOT_SIZE_MINUTES).
    split; [by apply getSlotRange_nonempty|].
    specialize (Hload (floorDiv start SLOT_SIZE_MINUTES)). lia.
Qed.

Lemma nonpositive_capacity_witness :
  (run (createAppointment (sampleEnv 0) 1 sampleRequest)
     (answer (updateAppointmentSettings (sampleEnv 0) 1 "owner"
                (settingsPayload true false 30 0)) (sampleWorld 1)).2).1
  = errorJson 409 "Selected time slot is fully booked".
Proof.
  destruct (nonpositive_capacity_refuses_every_booking (sampleEnv 0) 1
              true false 30 0 (sampleWorld 1) (sampleBusiness 1))
    as [Hrefused _]; [done|by vm_compute|lia|].
  eapply (Hrefused (sampleEnv 0) sampleRequest sampleServices
            (slotStartInstant 19875 52)).
  unfold reachesCapacityCheck. repeat split; try done; by vm_compute.
Defined.

(** ** Messages sent by hand *)

Lemma updateMessage_fresh (rows : list Message) (message : Message) f :
  msg_id message = freshId (msg_id <$> rows) →
  (fun m => if decide (msg_id m = msg_id message) then f m else m)
    <$> (rows ++ [message])
  = rows ++ [f message].
Proof.
  intros Hid. rewrite fmap_app. simpl. rewrite decide_True by done.
  f_equal. rewrite <- (list_fmap_id rows) at 2. apply fmap_ext_in.
  intros m Hm. rewrite decide_False; [done|].
  rewrite Hid.
  assert (msg_id m < freshId (msg_id <$> rows)); [|lia].
  apply freshId_gt. by apply list_elem_of_fmap_2.
Qed.

(** X24: a message sent by hand is always recorded as sent.  Either
    the request is refused (400 without customer id or text, 404 when the
    customer is not one of the caller's business, 500 when the insert
    fails) and nothing is written and nothing is sent, or exactly one
    gateway call is made to the customer's phone and exactly one message
    row is added, outgoing, and both the row and the answer carry status
    "sent", also when the gateway call failed; the row is then never one
    the retry job picks. *)
Theorem manual_send_is_recorded_as_sent
    (env : Env) (businessId : Z) (customer_id : option Z) (text : string)
    (w : World) :
  match answer (sendMessage env businessId customer_id text) w with
  | (inl r, w') =>
      w' = w ∧ (code r = 400 ∨ code r = 404 ∨ code r = 500)
  | (inr sent, w') =>
      ∃ customer id,
        customer_id = Some id ∧ id ≠ 0 ∧ text ≠ ""
        ∧ customer ∈ customers w ∧ cust_id customer = id
        ∧ cust_business_id customer = businessId
        ∧ outbox w'
          = outbox w ++ [{| dsp_phone := cust_phone customer; dsp_text := text;
                            dsp_status := deliveryStatus env (length (outbox w))
                                            (cust_phone customer) text |}]
        ∧ messages w' = messages w ++ [sent]
        ∧ msg_status sent = "sent" ∧ msg_direction sent = "out"
        ∧ msg_content sent = text ∧ msg_customer_id sent = id
        ∧ (sent ∉ retryBatch (messages w'))
        ∧ w' = set_messages (fun _ => messages w')
                 (set_outbox (fun _ => outbox w') w)
  end.
Proof.
  unfold answer, sendMessage.
  destruct customer_id as [id|]; [|simpl; tauto].
  case_decide as Hreq; [simpl; tauto|].
  unfold bind at 1, getWorld at 1.
  destruct (fault env "customerError"); [simpl; tauto|].
  destruct (single _) as [customer|] eqn:Hs; [|simpl; tauto].
  destruct (fault env "insertError"); [simpl; tauto|].
  unfold bind at 1, modify at 1, tryCatch, bind at 1,
    sendWhatsAppMessage at 1, bind at 1, updateMessage at 1, modify at 1, ret.
  apply single_elem, list_elem_of_filter in Hs as [[Hid Hb] Hin].
  exists customer, id. simpl.
  match goal with
  | |- context [fmap ?f (messages w ++ [?message])] =>
      rewrite (updateMessage_fresh (messages w) message) by done
  end.
  simpl. repeat split; try done; try tauto.
  - intros Hpicked. apply retryBatch_bounded in Hpicked as (_ & Hfailed & _).
    done.
  - unfold set_messages, set_outbox. destruct w; simpl. f_equal.
    match goal with
    | |- _ <$> (?rows ++ [?message]) = _ =>
        exact (updateMessage_fresh rows message
                 (fun m => with_delivery "sent" (msg_retry_count m)
                             (msg_error m) m) eq_refl)
    end.
Qed.

(** With the gateway unreachable the dispatch fails and the row still
    says sent. *)
Example manual_send_with_gateway_down :
  let result := answer (sendMessage (gatewayDown (sampleEnv 0)) 1 (Some 1)
                          "Running late?") sampleFailed in
  dsp_status <$> outbox result.2 = ["failed"]
  ∧ msg_status <$> messages result.2 = ["failed"; "sent"]
  ∧ msg_content <$> retryBatch (messages result.2) = ["See you at 9"].
Proof. by vm_compute. Qed.

(** ** The retry job, for any helper that only reads *)

Lemma retryMessage_step env getCustomerPhone msg w :
  readsOnly getCustomerPhone →
  NoDup (msg_id <$> messages w) → msg ∈ messages w →
  ∃ w' (g : Message → Message),
    retryMessage env getCustomerPhone msg w = Next tt w'
    ∧ w' = set_messages (fun _ => messages w')
             (set_outbox (fun _ => outbox w') w)
    ∧ (length (outbox w') ≤ length (outbox w) + 1)%nat
    ∧ messages w'
      = (fun m => if decide (msg_id m = msg_id msg) then g m else m)
        <$> messages w
    ∧ ((∀ m, g m = with_delivery "sent" (msg_retry_count m) (msg_error m) m)
       ∨ ∃ e, ∀ m, g m = with_delivery "failed" (msg_retry_count m + 1)
                           (Some e) m).
Proof.
  intros Hread Hnd Hin.
  unfold retryMessage, tryCatch, bind at 1, updateMessage at 1, modify at 1,
    bind at 1.
  match goal with
  | |- context [getCustomerPhone _ ?w0] =>
      destruct (Hread (msg_customer_id msg) w0) as [[c ->]|[e ->]]
  end.
  - unfold bind, sendWhatsAppMessage, updateMessage, modify.
    eexists _, (fun m => with_delivery "sent" (msg_retry_count m)
                           (msg_error m) m).
    split; [done|]. simpl. split; [by destruct w|].
    split; [rewrite length_app; simpl; lia|]. split; [|by left].
    rewrite <- list_fmap_compose. apply fmap_ext_in. intros m _. simpl.
    destruct (decide (msg_id m = msg_id msg)); simpl;
      [by rewrite decide_True|by rewrite decide_False].
  - unfold updateMessage, modify.
    eexists _, (fun m => with_delivery "failed" (msg_retry_count m + 1)
                           (Some e) m).
    split; [done|]. simpl. split; [by destruct w|].
    split; [lia|]. split; [|right; by exists e].
    rewrite <- list_fmap_compose. apply fmap_ext_in. intros m Hm. simpl.
    destruct (decide (msg_id m = msg_id msg)) as [Hid|Hid]; simpl;
      [rewrite decide_True by done|by rewrite decide_False].
    by rewrite (NoDup_fmap_eq msg_id (messages w) m msg).
Qed.

Lemma retried_step (x : Message) (l : list Message) (g : Message → Message)
    m m' :
  msg_id x ∉ msg_id <$> l →
  (∀ m, msg_id (g m) = msg_id m) →
  ((∀ m, g m = with_delivery "sent" (msg_retry_count m) (msg_error m) m)
   ∨ ∃ e, ∀ m, g m = with_delivery "failed" (msg_retry_count m + 1)
                       (Some e) m) →
  retried l (if decide (msg_id m = msg_id x) then g m else m) m' →
  retried (x :: l) m m'.
Proof.
  intros Hx Hgid Hg. unfold retried. rewrite fmap_cons.
  destruct (decide (msg_id m = msg_id x)) as [Hid|Hid].
  - rewrite Hgid, Hid. intros [[_ ->]|[Hin _]]; [|done].
    right. split; [left|].
    destruct Hg as [Hg|[e Hg]]; [left; apply Hg|right; exists e; apply Hg].
  - intros [[Hout ->]|[Hin Hm]].
    + left. split; [|done]. intros [?|?]%elem_of_cons; done.
    + right. split; [by right|done].
Qed.

Lemma forEach_retryMessage env getCustomerPhone (l : list Message) w :
  readsOnly getCustomerPhone →
  NoDup (msg_id <$> messages w) → NoDup (msg_id <$> l) →
  (∀ m, m ∈ l → m ∈ messages w) →
  ∃ w', forEach l (retryMessage env getCustomerPhone) w = Next tt w'
        ∧ w' = set_messages (fun _ => messages w')
                 (set_outbox (fun _ => outbox w') w)
        ∧ (length (outbox w') ≤ length (outbox w) + length l)%nat
        ∧ Forall2 (retried l) (messages w) (messages w').
Proof.
  intros Hread. revert w. induction l as [|x l IH]; intros w Hnd Hndl Hsub.
  - exists w. split; [done|]. split; [by destruct w|]. split; [simpl; lia|].
    apply Forall_Forall2_diag, Forall_forall. intros m _. left.
    split; [|done]. by intros ?%elem_of_nil.
  - rewrite fmap_cons in Hndl. apply NoDup_cons in Hndl as [Hx Hndl].
    destruct (retryMessage_step env getCustomerPhone x w Hread Hnd)
      as (w1 & g & Hstep & Hfr1 & Hout1 & Hm1 & Hg); [apply Hsub; left|].
    assert (Hgid : ∀ m, msg_id (g m) = msg_id m).
    { intros m. by destruct Hg as [-> |[e ->]]. }
    destruct (IH w1) as (w2 & Hrest & Hfr2 & Hout2 & Hall).
    { rewrite Hm1, <- list_fmap_compose.
      erewrite (fmap_ext_in _ msg_id); [done|].
      intros m _. simpl. by case_decide. }
    { done. }
    { intros m Hm. rewrite Hm1.
      apply (list_elem_of_fmap_2' _ _ m); [apply Hsub; by right|].
      rewrite decide_False; [done|]. intros Heq. apply Hx.
      rewrite <- Heq. by apply list_elem_of_fmap_2. }
    exists w2. cbn [forEach]. unfold bind. rewrite Hstep, Hrest.
    split; [done|]. split; [|split].
    + rewrite Hfr2, Hfr1. by destruct w.
    + simpl. lia.
    + rewrite Hm1, Forall2_fmap_l in Hall.
      eapply Forall2_impl; [exact Hall|].
      intros m m'. simpl. by apply retried_step.
Qed.

(** X25: what one run of the retry job can do, for any helper that only
    looks the customer up.  With unique message ids the job writes nothing
    but message rows and gateway calls, makes at most ten calls, leaves
    every row it did not pick (not failed, or already retried three times,
    or beyond the first ten) exactly as it was, and leaves a picked row
    either marked sent with its retry count and error kept, or failed with
    one more retry and the error of the lookup.  So no row ends in
    "retrying" that was not there before, and retry counts that were at
    most three stay at most three. *)
Theorem retry_job_touches_only_its_batch
    (env : Env) (getCustomerPhone : Z → M Customer) (w : World) :
  readsOnly getCustomerPhone →
  NoDup (msg_id <$> messages w) →
  let w' := (run (retryFailedMessages env getCustomerPhone) w).2 in
  let batch := retryBatch (messages w) in
  w' = set_messages (fun _ => messages w') (set_outbox (fun _ => outbox w') w)
  ∧ (length (outbox w') ≤ length (outbox w) + 10)%nat
  ∧ Forall2
      (fun m m' =>
         ((msg_id m ∉ msg_id <$> batch) ∧ m' = m)
         ∨ (msg_id m ∈ msg_id <$> batch
            ∧ (m' = with_delivery "sent" (msg_retry_count m) (msg_error m) m
               ∨ ∃ e, m' = with_delivery "failed" (msg_retry_count m + 1)
                             (Some e) m)))
      (messages w) (messages w')
  ∧ (∀ m', m' ∈ messages w' → msg_status m' = "retrying" → m' ∈ messages w)
  ∧ ((∀ m, m ∈ messages w → msg_retry_count m ≤ 3) →
     ∀ m', m' ∈ messages w' → msg_retry_count m' ≤ 3).
Proof.
  intros Hread Hnd w' batch.
  assert (Hsub : batch `sublist_of` messages w).
  { unfold batch, retryBatch.
    etrans; [apply sublist_take|apply sublist_filter]. }
  destruct (forEach_retryMessage env getCustomerPhone batch w Hread Hnd)
    as (w1 & Hrun & Hfr & Hout & Hall).
  { eapply sublist_NoDup; [exact Hnd|]. by apply fmap_sublist. }
  { intros m Hm. eapply elem_of_sublist; [exact Hm|exact Hsub]. }
  assert (Hw' : w' = w1).
  { unfold w', retryFailedMessages, run, bind at 1, getWorld at 1.
    fold batch. by rewrite Hrun. }
  rewrite Hw'. split; [done|]. split; [|split; [done|split]].
  - assert (length batch ≤ 10)%nat by apply retryBatch_bounded. lia.
  - intros m' Hin Hstatus.
    apply list_elem_of_lookup_1 in Hin as [i Hi].
    destruct (Forall2_lookup_r _ _ _ _ _ Hall Hi) as (m & Hm & Hrel).
    destruct Hrel as [[_ ->]|[_ [-> |[e ->]]]]; [|done|done].
    by eapply list_elem_of_lookup_2.
  - intros Hbound m' Hin.
    apply list_elem_of_lookup_1 in Hin as [i Hi].
    destruct (Forall2_lookup_r _ _ _ _ _ Hall Hi) as (m & Hm & Hrel).
    assert (Hmin : m ∈ messages w) by (by eapply list_elem_of_lookup_2).
    destruct Hrel as [[_ ->]|[Hpicked [-> |[e ->]]]]; simpl;
      [by apply Hbound|by apply Hbound|].
    apply list_elem_of_fmap in Hpicked as (m0 & Hid & Hm0).
    assert (m = m0) as <-.
    { apply (NoDup_fmap_eq msg_id (messages w)); try done.
      eapply elem_of_sublist; [exact Hm0|exact Hsub]. }
    apply retryBatch_bounded in Hm0 as (_ & _ & Hlt). lia.
Qed.

Lemma retry_job_witness :
  (length (outbox (run (retryFailedMessages (sampleEnv 0) lookupCustomer)
                     sampleFailed).2)
   ≤ length (outbox sampleFailed) + 10)%nat.
Proof.
  destruct (retry_job_touches_only_its_batch (sampleEnv 0) lookupCustomer
              sampleFailed) as (_ & Hcalls & _).
  - intros id w. unfold lookupCustomer, bind, getWorld.
    destruct (single _); [left|right]; by eexists.
  - vm_compute. apply NoDup_singleton.
  - exact Hcalls.
Defined.

(** ** The reminder scan: what it writes, and why it fires *)

Lemma preserves_getWorld_inv P {B} (k : World → M B) :
  (∀ w, P w → preserves P (k w)) → preserves P (bind getWorld k).
Proof. intros Hk w Hw. unfold bind, getWorld. by apply Hk. Qed.

Lemma preserves_forEach_in {A} P (xs : list A) body :
  (∀ x, x ∈ xs → preserves P (body x)) → preserves P (forEach xs body).
Proof.
  induction xs as [|x xs IH]; intros Hbody; [apply preserves_ret|].
  cbn [forEach]. apply preserves_bind; [apply Hbody; left|].
  intros _. apply IH. intros y Hy. apply Hbody. by right.
Qed.

Lemma fireRule_scanned env w0 business rule appt :
  business ∈ businesses w0 → rule ∈ automation_rules w0 →
  appt ∈ appointments w0 →
  rule_business_id rule = biz_id business → rule_enabled rule = true →
  appt_business_id appt = biz_id business → appt_status appt = "scheduled" →
  now env + (offset_minutes rule - 1) * msPerMinute ≤ appointment_time appt →
  appointment_time appt ≤ now env + offset_minutes rule * msPerMinute →
  preserves (scanned (now env) w0) (fireRule env business rule appt).
Proof.
  intros Hb Hr Ha Hrb Hre Hab Has Hfrom Hto w
    (H1 & H2 & H3 & H4 & H5 & H6 & new & Hnew & Hout & Hlogs & Hall).
  assert (Hj : ∀ status,
            justified (now env) w0
              {| fired_appointment := appt_id appt; fired_rule := rule_id rule;
                 fired_status := status |}).
  { intros status. by exists business, rule, appt. }
  assert (Hkeep : scanned (now env) w0 w).
  { unfold scanned. repeat (split; [done|]). by exists new. }
  unfold fireRule, bind, getWorld.
  destruct (single (filter _ (automation_logs w))); [exact Hkeep|].
  destruct (single (filter _ (customers w))); [|exact Hkeep].
  unfold sendWhatsAppMessage, modify.
  set (status := deliveryStatus _ _ _ _).
  destruct (decide (status = "submitted")) as [Hsub|Hsub]; unfold ret;
    (repeat (split; [done|]));
    exists (new ++ [{| fired_appointment := appt_id appt;
                       fired_rule := rule_id rule;
                       fired_status := status |}]); simpl.
  - rewrite Hnew, Hlogs, filter_app, filter_cons, filter_nil, !length_app,
      decide_True, fmap_app, <- !app_assoc by done.
    split; [done|]. split; [simpl; lia|]. split; [done|].
    apply Forall_app. split; [done|]. apply Forall_singleton, Hj.
  - rewrite Hnew, Hlogs, filter_app, filter_cons, filter_nil, !length_app,
      decide_False, app_nil_r, <- !app_assoc by done.
    split; [done|]. split; [simpl; lia|]. split; [done|].
    apply Forall_app. split; [done|]. apply Forall_singleton, Hj.
Qed.

Lemma automationScan_scanned env w0 :
  preserves (scanned (now env) w0) (automationScan env).
Proof.
  unfold automationScan.
  apply preserves_tryCatch; [|intros; apply preserves_ret].
  apply preserves_getWorld_inv. intros w Hw.
  case_decide; [apply preserves_respond|].
  apply preserves_forEach_in. intros business Hb. unfold scanBusiness.
  apply preserves_getWorld_inv. intros w1 Hw1.
  case_decide; [apply preserves_ret|].
  apply preserves_forEach_in.
  intros rule [[Hrb Hre] Hr]%list_elem_of_filter. unfold scanRule.
  apply preserves_getWorld_inv. intros w2 Hw2.
  case_decide; [apply preserves_ret|].
  apply preserves_forEach_in.
  intros appt [(Hab & Has & Hfrom & Hto & _) Ha]%list_elem_of_filter.
  destruct Hw as (Hbw & _), Hw1 as (_ & _ & _ & _ & Hrw & _),
    Hw2 as (_ & _ & Haw & _).
  apply fireRule_scanned; try done; congruence.
Qed.

(** X26: the reminder scan fires only with a reason, and logs exactly
    what was accepted.  Whatever the store holds and the gateway answers,
    a scan writes no business, customer, appointment, line item, rule or
    message row; every gateway call it makes is a firing, for an enabled
    rule and a scheduled appointment of the rule's business that starts in
    the minute ending [offset_minutes] from now; and the log rows it adds
    are, in order, one per firing the gateway answered "submitted".
    Disabled rules, appointments that are cancelled, completed or no_show,
    and appointments of other businesses or outside the window never cause
    a message. *)
Theorem reminder_scan_fires_with_reason (env : Env) (w : World) :
  let w' := (run (automationScan env) w).2 in
  businesses w' = businesses w ∧ customers w' = customers w
  ∧ appointments w' = appointments w
  ∧ appointment_services w' = appointment_services w
  ∧ automation_rules w' = automation_rules w
  ∧ messages w' = messages w
  ∧ ∃ new,
      reminders w' = reminders w ++ new
      ∧ length (outbox w') = (length (outbox w) + length new)%nat
      ∧ automation_logs w'
        = automation_logs w
          ++ ((fun f => {| log_appointment_id := fired_appointment f;
                           log_rule_id := fired_rule f |})
              <$> filter (fun f => fired_status f = "submitted") new)
      ∧ ∀ f, f ∈ new →
          ∃ business rule appt,
            business ∈ businesses w ∧ rule ∈ automation_rules w
            ∧ appt ∈ appointments w
            ∧ rule_business_id rule = biz_id business
            ∧ rule_enabled rule = true
            ∧ appt_business_id appt = biz_id business
            ∧ appt_status appt = "scheduled"
            ∧ now env + (offset_minutes rule - 1) * msPerMinute
              ≤ appointment_time appt
            ∧ appointment_time appt
              ≤ now env + offset_minutes rule * msPerMinute
            ∧ fired_appointment f = appt_id appt
            ∧ fired_rule f = rule_id rule.
Proof.
  intros w'.
  assert (Hscan : scanned (now env) w w').
  { apply run_preserves; [apply automationScan_scanned|].
    repeat (split; [done|]). exists []. simpl. rewrite !app_nil_r.
    repeat split; try done; lia. }
  destruct Hscan as (H1 & H2 & H3 & H4 & H5 & H6 & new & Hnew & Hout & Hlogs
                     & Hall).
  repeat (split; [done|]). exists new.
  repeat (split; [done|]).
  intros f Hf. by apply (proj1 (Forall_forall _ _) Hall).
Qed.

(** ** Incoming messages: what the webhook records *)

Lemma receiveWhatsApp_cases env incomingStatus eventType phone text w r w' :
  run (receiveWhatsApp env incomingStatus eventType phone text) w = (r, w') →
  r = ok
  ∧ ((w' = w
      ∧ (eventType ≠ Some "message" ∨ phone = "" ∨ text = ""
         ∨ is_Some (fault env "bizError") ∨ businesses w = []))
     ∨ ∃ business,
         eventType = Some "message" ∧ phone ≠ "" ∧ text ≠ ""
         ∧ fault env "bizError" = None
         ∧ head (businesses w) = Some business
         ∧ ((∃ customer,
               customersOf (biz_id business) phone w = [customer]
               ∧ w'
                 = set_messages (fun l => l ++
                     [{| msg_id := freshId (msg_id <$> messages w);
                         msg_customer_id := cust_id customer;
                         msg_direction := "in"; msg_content := text;
                         msg_status := incomingStatus; msg_retry_count := 0;
                         msg_error := None; message_type := None |}]) w)
            ∨ (length (customersOf (biz_id business) phone w) ≠ 1%nat
               ∧ is_Some (fault env "customers.insert") ∧ w' = w)
            ∨ (length (customersOf (biz_id business) phone w) ≠ 1%nat
               ∧ fault env "customers.insert" = None
               ∧ w'
                 = set_messages (fun l => l ++
                     [{| msg_id := freshId (msg_id <$> messages w);
                         msg_customer_id := freshId (cust_id <$> customers w);
                         msg_direction := "in"; msg_content := text;
                         msg_status := incomingStatus; msg_retry_count := 0;
                         msg_error := None; message_type := None |}])
                     (set_customers (fun l => l ++
                        [{| cust_id := freshId (cust_id <$> customers w);
                            cust_business_id := biz_id business;
                            cust_phone := phone; cust_name := None |}]) w)))).
Proof.
  unfold receiveWhatsApp, run, tryCatch.
  case_decide as Hev; [intros [= <- <-]; tauto|].
  case_decide as Hreq; [intros [= <- <-]; tauto|].
  unfold bind at 1, getWorld at 1.
  destruct (fault env "bizError") as [e|] eqn:Hf;
    [intros [= <- <-]; eauto 10|].
  destruct (head (businesses w)) as [business|] eqn:Hhead.
  2:{ intros [= <- <-]. split; [done|]. left. split; [done|].
      destruct (businesses w); [tauto|done]. }
  assert (Hsame : filter (fun c => cust_phone c = phone
                                   ∧ cust_business_id c = biz_id business)
                         (customers w)
                  = customersOf (biz_id business) phone w).
  { unfold customersOf. apply list_filter_iff. intros c. tauto. }
  rewrite Hsame.
  assert (Hevent : eventType = Some "message").
  { destruct (decide (eventType = Some "message")); [done|tauto]. }
  assert (Hphone : phone ≠ "") by tauto.
  assert (Htext : text ≠ "") by tauto.
  destruct (single (customersOf (biz_id business) phone w)) as [customer|]
    eqn:Hs.
  - unfold bind, ret, getWorld, modify, respond. simpl.
    intros [= <- <-]. split; [done|].
    right. exists business. repeat (split; [done|]). left. exists customer.
    split; [|done].
    destruct (customersOf (biz_id business) phone w) as [|c [|c' l]];
      simpl in Hs; by simplify_eq.
  - apply single_length in Hs.
    destruct (fault env "customers.insert") as [e|] eqn:Hins.
    + unfold bind, ret, throw, respond. simpl.
      intros [= <- <-]. split; [done|].
      right. exists business. repeat (split; [done|]). right. left. eauto.
    + unfold bind, ret, getWorld, modify, respond. simpl.
      intros [= <- <-]. split; [done|].
      right. exists business. repeat (split; [done|]). right. right. done.
Qed.

(** X27: the webhook always answers 200 and only records.  Whatever the
    event and whatever the store reports, the answer is 200, no gateway
    call is made, and nothing but the customers and messages tables is
    written.  At most one customer row is added, for the sender's phone
    under the first business and without a name, and only when the phone
    did not have exactly one row there; at most one message row is added,
    incoming, with the text received.  An event that is a message with
    phone and text, a first business and a store without errors does get
    its message stored, under a customer of that phone. *)
Theorem webhook_always_ok_and_only_records
    (env : Env) (incomingStatus : string) (eventType : option string)
    (phone text : string) (w : World) :
  let result := run (receiveWhatsApp env incomingStatus eventType phone text) w in
  let w' := result.2 in
  code result.1 = 200
  ∧ w' = set_messages (fun _ => messages w')
           (set_customers (fun _ => customers w') w)
  ∧ (customers w' = customers w
     ∨ ∃ business c,
         head (businesses w) = Some business
         ∧ customers w' = customers w ++ [c]
         ∧ cust_business_id c = biz_id business ∧ cust_phone c = phone
         ∧ cust_name c = None
         ∧ length (customersOf (biz_id business) phone w) ≠ 1%nat)
  ∧ (messages w' = messages w
     ∨ ∃ m c,
         messages w' = messages w ++ [m]
         ∧ msg_direction m = "in" ∧ msg_content m = text
         ∧ c ∈ customers w' ∧ cust_id c = msg_customer_id m
         ∧ cust_phone c = phone)
  ∧ (eventType = Some "message" → phone ≠ "" → text ≠ "" →
     businesses w ≠ [] → noFaults env →
     length (messages w') = S (length (messages w))).
Proof.
  cbv zeta.
  destruct (run (receiveWhatsApp env incomingStatus eventType phone text) w)
    as [r w'] eqn:Hrun.
  destruct (receiveWhatsApp_cases _ _ _ _ _ _ _ _ Hrun) as [Hok Hcases].
  simpl. split; [by rewrite Hok|].
  destruct Hcases as [[-> Hwhy]|(business & Hev & Hphone & Htext & Hf & Hhead
                                 & Hcases)].
  { split; [by destruct w|]. split; [by left|]. split; [by left|].
    intros Hev Hphone Htext Hbiz Hnf.
    destruct Hwhy as [?|[?|[?|[[e He]|?]]]]; try done.
    by rewrite Hnf in He. }
  destruct Hcases as [(customer & Hone & ->)|[(Hlen & [e He] & ->)
                                             |(Hlen & Hins & ->)]].
  - split; [by destruct w|]. split; [by left|]. split.
    + right. eexists _, customer. simpl. split; [done|].
      assert (Hin : customer ∈ customersOf (biz_id business) phone w)
        by (rewrite Hone; left).
      apply list_elem_of_filter in Hin as [[_ Hp] Hin]. done.
    + intros _ _ _ _ _. simpl. rewrite length_app. simpl. lia.
  - split; [by destruct w|]. split; [by left|]. split; [by left|].
    intros _ _ _ _ Hnf. by rewrite Hnf in He.
  - split; [by destruct w|]. split; [|split].
    + right. eexists business, _. simpl. by repeat split.
    + right. eexists _, _. simpl.
      split; [done|]. split; [done|]. split; [done|].
      split; [apply elem_of_app; right; left|]. done.
    + intros _ _ _ _ _. simpl. rewrite length_app. simpl. lia.
Qed.

Lemma filter_fmap_commute {A} (P : A → Prop) `{!∀ x, Decision (P x)}
    (g : A → A) (l : list A) :
  (∀ x, P (g x) ↔ P x) → filter P (g <$> l) = g <$> filter P l.
Proof.
  intros Hg. induction l as [|x l IH]; [done|].
  rewrite fmap_cons, !filter_cons, IH.
  destruct (decide (P x)) as [Hx|Hx].
  - rewrite decide_True by (by apply Hg). done.
  - rewrite decide_False; [done|]. by rewrite Hg.
Qed.

(** X28: a customer who wrote first and is booked afterwards stays one
    customer.  When the phone has at most one customer row under the
    first business, then after the webhook has stored a message from that
    phone, the booking handler's customer step for the same business and
    phone finds exactly one row, adds none, and resolves to the customer
    the stored message belongs to. *)
Theorem webhook_then_booking_share_the_customer
    (env env' : Env) (incomingStatus : string) (phone text name : string)
    (w : World) (business : Business) :
  noFaults env → phone ≠ "" → text ≠ "" →
  head (businesses w) = Some business →
  (length (customersOf (biz_id business) phone w) ≤ 1)%nat →
  let w1 := (run (receiveWhatsApp env incomingStatus (Some "message")
                    phone text) w).2 in
  ∃ m customer w2,
    messages w1 = messages w ++ [m]
    ∧ findOrCreateCustomer env' (biz_id business) phone name w1
      = Next customer w2
    ∧ cust_id customer = msg_customer_id m
    ∧ cust_phone customer = phone
    ∧ length (customers w2) = length (customers w1)
    ∧ length (customersOf (biz_id business) phone w2) = 1%nat.
Proof.
  intros Hnf Hphone Htext Hhead Hcount w1.
  destruct (receiveWhatsApp_cases env incomingStatus (Some "message")
              phone text w
              (run (receiveWhatsApp env incomingStatus (Some "message")
                      phone text) w).1 w1) as [_ Hcases];
    [unfold w1; by destruct (run _ w)|].
  destruct Hcases as [[_ Hwhy]|(business' & _ & _ & _ & _ & Hhead' & Hcases)].
  { destruct Hwhy as [?|[?|[?|[[e He]|Hb]]]]; try done.
    - by rewrite Hnf in He.
    - by rewrite Hb in Hhead. }
  rewrite Hhead in Hhead'. injection Hhead' as <-.
  assert (Hresolve : ∀ w1 c,
            customersOf (biz_id business) phone w1 = [c] →
            ∃ w2, findOrCreateCustomer env' (biz_id business) phone name w1
                  = Next c w2
                  ∧ length (customers w2) = length (customers w1)
                  ∧ length (customersOf (biz_id business) phone w2) = 1%nat).
  { intros w0 c Hone. unfold findOrCreateCustomer, bind, getWorld.
    fold (customersOf (biz_id business) phone w0). rewrite Hone. simpl.
    case_decide.
    - unfold modify, ret. eexists. split; [done|]. simpl.
      split; [by rewrite length_fmap|].
      unfold customersOf. simpl.
      rewrite filter_fmap_commute by (intros x; by case_decide).
      rewrite length_fmap.
      fold (customersOf (biz_id business) phone w0). by rewrite Hone.
    - unfold ret. eexists. split; [done|]. by rewrite Hone. }
  destruct Hcases as [(customer & Hone & Hw1)|[(_ & [e He] & _)
                                              |(Hlen & _ & Hw1)]].
  - destruct (Hresolve w1 customer) as (w2 & Hrun & Hl & Hc).
    { rewrite Hw1. done. }
    eexists _, customer, w2. rewrite Hw1 at 1. simpl.
    split; [done|]. split; [done|]. split; [done|]. split; [|done].
    assert (Hin : customer ∈ customersOf (biz_id business) phone w)
      by (rewrite Hone; left).
    by apply list_elem_of_filter in Hin as [[_ ?] _].
  - by rewrite Hnf in He.
  - assert (Hnone : customersOf (biz_id business) phone w = []).
    { destruct (customersOf (biz_id business) phone w) as [|c [|c' l]];
        simpl in *; [done|done|lia]. }
    set (created := {| cust_id := freshId (cust_id <$> customers w);
                       cust_business_id := biz_id business;
                       cust_phone := phone; cust_name := None |}).
    destruct (Hresolve w1 created) as (w2 & Hrun & Hl & Hc).
    { rewrite Hw1. unfold customersOf. simpl.
      rewrite filter_app, filter_cons, filter_nil.
      fold (customersOf (biz_id business) phone w). rewrite Hnone.
      by rewrite decide_True. }
    eexists _, created, w2. rewrite Hw1 at 1. simpl.
    split; [done|]. split; [done|]. done.
Qed.

Lemma webhook_then_booking_witness :
  ∃ m customer w2,
    messages (run (receiveWhatsApp (sampleEnv 0) "received" (Some "message")
                     "15550100" "Hi") (sampleWorld 1)).2
    = messages (sampleWorld 1) ++ [m]
    ∧ findOrCreateCustomer (sampleEnv 0) 1 "15550100" "Asha"
        (run (receiveWhatsApp (sampleEnv 0) "received" (Some "message")
                "15550100" "Hi") (sampleWorld 1)).2
      = Next customer w2
    ∧ cust_id customer = msg_customer_id m.
Proof.
  destruct (webhook_then_booking_share_the_customer (sampleEnv 0) (sampleEnv 0)
              "received" "15550100" "Hi" "Asha" (sampleWorld 1)
              (sampleBusiness 1))
    as (m & customer & w2 & Hm & Hrun & Hid & _);
    [done|done|done|done|vm_compute; lia|].
  by exists m, customer, w2.
Defined.

(** ** Rescheduling an archived appointment *)

Lemma occupancy_pos (rows : list Appointment) a slot :
  a ∈ rows → slot ∈ slotsOf a → 1 ≤ occupancy rows slot.
Proof.
  intros Hin Hslot. unfold occupancy.
  assert (Hf : a ∈ filter (fun a => slot ∈ slotsOf a) rows)
    by (by apply list_elem_of_filter).
  destruct (filter _ rows); [by apply elem_of_nil in Hf|simpl; lia].
Qed.

(** X29: a reschedule does not lift the archive mark.  When a reschedule
    is answered 200, the row of the appointment is scheduled again at the
    new start and keeps the [archived_at] it had.  If it was archived (a
    cancelled or no_show appointment the archive job had stamped), it now
    takes capacity on its new day like any scheduled appointment, yet the
    list of upcoming appointments never shows it. *)
Theorem reschedule_keeps_the_archive_mark
    (env : Env) (businessId appointmentId t : Z) (w : World)
    (r : Response) (w' : World) (a : Appointment) :
  run (rescheduleSlot env businessId appointmentId (Some t)) w = (r, w') →
  code r = 200 →
  a ∈ appointments w → appt_id a = appointmentId →
  appt_business_id a = businessId →
  ∃ a',
    a' ∈ appointments w' ∧ appt_id a' = appointmentId
    ∧ appt_status a' = "scheduled" ∧ appointment_time a' = t
    ∧ archived_at a' = archived_at a
    ∧ (t ≤ dayEndOf t →
       ∀ slot, slot ∈ slotsOf a' →
               1 ≤ slotLoadAt (bookingLoad businessId t w') slot)
    ∧ (is_Some (archived_at a) →
       ∀ env' rows,
         upcomingAppointments env' businessId w' = inr rows → a' ∉ rows).
Proof.
  intros Hrun Hcode Hin Hid Hbiz.
  destruct (rescheduleSlot_cases _ _ _ _ _ _ _ Hrun)
    as [[_ Hbad]|(t' & appointment & d & [= <-] & _ & _ & Ha & _)].
  { rewrite Hcode in Hbad. destruct Hbad as [?|[?|[?|?]]]; done. }
  exists (rescheduled t (utcMinutesOfDay t) d a).
  assert (Hin' : rescheduled t (utcMinutesOfDay t) d a ∈ appointments w').
  { rewrite Ha. apply (list_elem_of_fmap_2' _ _ a); [done|].
    by rewrite decide_True. }
  split; [done|]. simpl. repeat (split; [done|]). split.
  - intros Hday slot Hslot. unfold bookingLoad.
    rewrite slotLoadAt_buildSlotLoadMap.
    apply (occupancy_pos _ (rescheduled t (utcMinutesOfDay t) d a)); [|done].
    unfold scheduledOnDay, scheduledBetween. apply list_elem_of_filter.
    split; [|done]. simpl. pose proof (dayStartOf_bounds t).
    repeat split; try done; lia.
  - intros [stamp Hstamp] env' rows. unfold upcomingAppointments.
    destruct (fault env' "error"); [done|]. intros [= <-].
    rewrite merge_sort_Permutation, list_elem_of_filter. simpl.
    rewrite Hstamp. by intros [(_ & _ & _ & [=]) _].
Qed.

Lemma reschedule_keeps_archive_witness :
  let archived :=
    (run (archiveJob (sampleEnv (slotStartInstant 19885 0)) 0)
       (run (updateStatus (sampleEnv 0) 1 1 "cancelled") sampleBooked).2).2 in
  let moved :=
    run (rescheduleSlot (sampleEnv 0) 1 1 (Some (slotStartInstant 19890 40)))
      archived in
  ∃ a', a' ∈ appointments moved.2 ∧ appt_status a' = "scheduled"
        ∧ archived_at a' = Some 0.
Proof.
  intros archived moved.
  destruct (reschedule_keeps_the_archive_mark (sampleEnv 0) 1 1
              (slotStartInstant 19890 40) archived moved.1 moved.2
              (with_archived 0
                 (with_status "cancelled"
                    (newAppointment (sampleWorld 1) 1 1
                       (slotStartInstant 19875 52) 30 None))))
    as (a' & Hin & _ & Hs & _ & Harch & _).
  - apply surjective_pairing.
  - by vm_compute.
  - vm_compute. left.
  - done.
  - done.
  - exists a'. split; [done|]. split; [done|]. by rewrite Harch.
Defined.

(** ** Service combos: what a combo may contain *)




(** A service of another business, or the same service twice, is
    refused. *)
Example combo_with_foreign_or_repeated_service :
  (createCombo (sampleEnv 0) 1 "owner" "Two cuts" (Some [7; 11])
     sampleCatalog).1
  = inl (errorJson 400 "One or more services are invalid")
  ∧ (createCombo (sampleEnv 0) 1 "owner" "Cut twice" (Some [7; 7])
       sampleCatalog).1
    = inl (errorJson 400 "One or more services are invalid").
Proof. by vm_compute. Qed.
